(** * BarrierLite: the remote-session screen and its mock key encapsulation

    A shallow embedding of the parts of the repository that the session
    specification talks about, and of the code around them:

    - [src/app/src/crypto/kyber.ts]: the mock [ml_kem5] primitive, together
      with the platform's [TextEncoder] / [TextDecoder] (WHATWG Encoding
      standard, UTF-8) on which it is built;
    - [src/app/(tabs)/iot.tsx], component [Remote]: [checkResources],
      [initializeEncryption], [setupSignaling] with its [connect_error],
      [offer], [ice-candidate] and [ice_failed] handlers, [startWebRTC] with
      the connection callbacks and the two intervals it installs,
      [handleStartSession], [handleEndSession], the mount effect with its
      cleanup and its 60 s resource check, [sendControlCommand],
      [handleIoTCommand] and [handleBarCodeScanned];
    - [src/app/(tabs)/iot.tsx], the local database helpers [logEventLocal],
      [logSessionLocal] and [fetchPastSessionsLocal], and
      [src/app/src/utils/db.js], over a model of AsyncStorage;
    - [src/app/(tabs)/iot.tsx], components [IoT] and [VirtualizationHub]:
      the handlers of the devices, the scenes, the emulators and the OS
      form;
    - [src/app/onboarding.tsx]: the tests and the score of
      [runDiagnostics], whose result the remote screen reads through the
      diagnostics context.

    Conventions.  JavaScript strings are sequences of UTF-16 code units,
    [list Z]; byte arrays ([Uint8Array]) are [list Z] with entries in
    [0, 255].  The texts that the component only passes on (error messages,
    speech, log events) are kept as Rocq strings, without the values
    interpolated into them.  Numbers that the code only compares against
    thresholds, or rounds from integer measurements, are rationals ([Q]),
    and [NaN] is [None]; numbers whose rounding in double precision shows in
    the result (the round-trip time, the estimated temperature) are doubles
    ([float]).  A handler is a function from the component state to a
    result, the next state and the list of actions it performed on the
    platform; an [await] is answered by the [Platform] record of that run,
    [None] standing for a rejected promise.  A handler runs to its end
    before the next event is delivered.  A callback reads the state of the
    render that made it.  For a handler of the screen that is the current
    state; for the callback of the 60 s interval and the cleanup of the
    mount effect it is the state of the render in which the effect ran,
    which differs from the current state in [localStream], and the model
    keeps that value in [mountedStream]. *)

From Stdlib Require Import ZArith QArith Bool List String Lia Qround.
From Stdlib Require Import Permutation Floats.
From Stdlib Require Decimal DecimalZ.
Import ListNotations.

Local Open Scope Z_scope.

(** A decimal literal of type [float] is the double closest to it, as a
    numeric literal is in JavaScript. *)
Set Warnings "-inexact-float".

(** ** JavaScript strings and the Encoding standard *)

Module JS.

(** A JavaScript string: UTF-16 code units. *)
Definition jsstring := list Z.

Definition code_unit (c : Z) : Prop := 0 <= c < 65536.

Definition is_lead (c : Z) : bool := (0xD800 <=? c) && (c <=? 0xDBFF).
Definition is_trail (c : Z) : bool := (0xDC00 <=? c) && (c <=? 0xDFFF).

(** Unicode scalar values: the code points that are not surrogates. *)
Definition scalar (cp : Z) : Prop :=
  0 <= cp < 0xD800 \/ 0xE000 <= cp < 0x110000.

(** [String.prototype.isWellFormed]: no unpaired surrogate. *)
Fixpoint isWellFormed (s : jsstring) : bool :=
  match s with
  | [] => true
  | c :: rest =>
      if is_lead c then
        match rest with
        | d :: rest' => is_trail d && isWellFormed rest'
        | [] => false
        end
      else if is_trail c then false
      else isWellFormed rest
  end.

(** Conversion of a string to scalar values, as [TextEncoder.encode] does
    with its argument (a USVString): a surrogate pair becomes one code
    point, an unpaired surrogate becomes U+FFFD. *)
Fixpoint to_scalars (s : jsstring) : list Z :=
  match s with
  | [] => []
  | c :: rest =>
      if is_lead c then
        match rest with
        | d :: rest' =>
            if is_trail d
            then (0x10000 + Z.shiftl (c - 0xD800) 10 + (d - 0xDC00)) :: to_scalars rest'
            else 0xFFFD :: to_scalars rest
        | [] => [0xFFFD]
        end
      else if is_trail c then 0xFFFD :: to_scalars rest
      else c :: to_scalars rest
  end.

(** Code points back to code units (the result of [TextDecoder.decode] is a
    JavaScript string). *)
Definition of_scalar (cp : Z) : jsstring :=
  if cp <=? 0xFFFF then [cp]
  else [0xD800 + Z.shiftr (cp - 0x10000) 10; 0xDC00 + Z.land (cp - 0x10000) 0x3FF].

Definition of_scalars (l : list Z) : jsstring := flat_map of_scalar l.

(** The UTF-8 encoder of the Encoding standard, one code point at a time. *)
Definition continuation (cp : Z) (k : Z) : Z :=
  Z.lor 0x80 (Z.land (Z.shiftr cp (6 * k)) 0x3F).

Definition utf8_encode_cp (cp : Z) : list Z :=
  if cp <=? 0x7F then [cp]
  else if cp <=? 0x7FF then
    [Z.shiftr cp 6 + 0xC0; continuation cp 0]
  else if cp <=? 0xFFFF then
    [Z.shiftr cp 12 + 0xE0; continuation cp 1; continuation cp 0]
  else
    [Z.shiftr cp 18 + 0xF0; continuation cp 2; continuation cp 1; continuation cp 0].

Definition utf8_encode (l : list Z) : list Z := flat_map utf8_encode_cp l.

(** The UTF-8 decoder of the Encoding standard, in replacement mode. *)
Record decoder := mkDecoder {
  code_point : Z;
  bytes_seen : Z;
  bytes_needed : Z;
  lower_boundary : Z;
  upper_boundary : Z
}.

Definition decoder_init : decoder := mkDecoder 0 0 0 0x80 0xBF.

(** A byte read while no sequence is open: the code points emitted and the
    decoder afterwards. *)
Definition lead_byte (b : Z) : list Z * decoder :=
  if (0 <=? b) && (b <=? 0x7F) then ([b], decoder_init)
  else if (0xC2 <=? b) && (b <=? 0xDF) then
    ([], mkDecoder (Z.land b 0x1F) 0 1 0x80 0xBF)
  else if (0xE0 <=? b) && (b <=? 0xEF) then
    ([], mkDecoder (Z.land b 0xF) 0 2
                   (if b =? 0xE0 then 0xA0 else 0x80)
                   (if b =? 0xED then 0x9F else 0xBF))
  else if (0xF0 <=? b) && (b <=? 0xF4) then
    ([], mkDecoder (Z.land b 0x7) 0 3
                   (if b =? 0xF0 then 0x90 else 0x80)
                   (if b =? 0xF4 then 0x8F else 0xBF))
  else ([0xFFFD], decoder_init).

Fixpoint utf8_decode (st : decoder) (bs : list Z) : list Z :=
  match bs with
  | [] => if bytes_needed st =? 0 then [] else [0xFFFD]
  | b :: rest =>
      if bytes_needed st =? 0 then
        let '(out, st') := lead_byte b in out ++ utf8_decode st' rest
      else if (lower_boundary st <=? b) && (b <=? upper_boundary st) then
        let cp := Z.lor (Z.shiftl (code_point st) 6) (Z.land b 0x3F) in
        let seen := bytes_seen st + 1 in
        if seen =? bytes_needed st
        then cp :: utf8_decode decoder_init rest
        else utf8_decode (mkDecoder cp seen (bytes_needed st) 0x80 0xBF) rest
      else
        (* the byte is put back and read again with a fresh decoder *)
        let '(out, st') := lead_byte b in
        0xFFFD :: out ++ utf8_decode st' rest
  end.

(** [TextDecoder] with the default [ignoreBOM = false] drops one leading
    U+FEFF. *)
Definition strip_bom (l : list Z) : list Z :=
  match l with
  | cp :: rest => if cp =? 0xFEFF then rest else l
  | [] => []
  end.

(** [new TextEncoder().encode(s)] *)
Definition TextEncoder_encode (s : jsstring) : list Z :=
  utf8_encode (to_scalars s).

(** [new TextDecoder().decode(bytes)] *)
Definition TextDecoder_decode (bs : list Z) : jsstring :=
  of_scalars (strip_bom (utf8_decode decoder_init bs)).

(** [String.prototype.trim]: white space and line terminators. *)
Definition isWhiteSpace (c : Z) : bool :=
  (c =? 0x9) || (c =? 0xA) || (c =? 0xB) || (c =? 0xC) || (c =? 0xD) ||
  (c =? 0x20) || (c =? 0xA0) || (c =? 0x1680) ||
  ((0x2000 <=? c) && (c <=? 0x200A)) ||
  (c =? 0x2028) || (c =? 0x2029) || (c =? 0x202F) || (c =? 0x205F) ||
  (c =? 0x3000) || (c =? 0xFEFF).

Fixpoint trimStart (s : jsstring) : jsstring :=
  match s with
  | c :: rest => if isWhiteSpace c then trimStart rest else s
  | [] => []
  end.

Definition trim (s : jsstring) : jsstring :=
  rev (trimStart (rev (trimStart s))).

(** A string in a boolean position: the empty string is falsy. *)
Definition truthy (s : jsstring) : bool :=
  match s with [] => false | _ => true end.

End JS.

(** ** [src/app/src/crypto/kyber.ts] *)

Module ml_kem5.

Record KeyPair := mkKeyPair { publicKey : list Z; secretKey : list Z }.
Record Encapsulated := mkEncapsulated { ciphertext : list Z }.

(** [new Uint8Array(32).fill(1)], [new Uint8Array(32).fill(2)] *)
Definition keygen (seed : list Z) : KeyPair :=
  mkKeyPair (repeat 1 32) (repeat 2 32).

Definition encap (publicKey : list Z) (data : JS.jsstring) : Encapsulated :=
  mkEncapsulated (JS.TextEncoder_encode data).

Definition decap (secretKey : list Z) (ciphertext : list Z) : JS.jsstring :=
  JS.TextDecoder_decode ciphertext.

End ml_kem5.

(** ** [src/app/(tabs)/iot.tsx], component [Remote] *)

Module Remote.

Import JS.

Local Open Scope string_scope.

(** *** Numbers *)

(** [a > b] and [a < b] on numbers; a comparison with [NaN] is false. *)
Definition Qgtb (a b : Q) : bool := negb (Qle_bool a b).
Definition Qltb (a b : Q) : bool := negb (Qle_bool b a).

Definition num_gt (a : option Q) (b : Q) : bool :=
  match a with Some x => Qgtb x b | None => false end.

(** [Math.round]: the nearest integer, halves upwards. *)
Definition Math_round (x : Q) : Z := Qfloor (x + (1 # 2)).

(** *** Doubles

    Where the code rounds the result of an arithmetic operation, its
    numbers are IEEE 754 doubles: [float] with the operations of the
    kernel.  A finite double is [m * 2 ^ e] with the sign [s], which
    [Prim2SF] gives as [S754_finite s m e]. *)

Definition signed (s : bool) (m : positive) : Z :=
  if s then Z.neg m else Z.pos m.

(** The double of an integer below [2 ^ 53] in absolute value. *)
Definition Z2double (n : Z) : float :=
  if (n <? 0)%Z then PrimFloat.opp (PrimFloat.of_uint63 (Uint63.of_Z (- n)))
  else PrimFloat.of_uint63 (Uint63.of_Z n).

(** [Math.round] on a double: the integer closest to [x], a half going
    upwards; [NaN], the infinities and the zeros are returned as they are,
    and [-0] is the answer for [-0.5 <= x < 0]. *)
Definition Math_round_double (x : float) : float :=
  match Prim2SF x with
  | S754_finite s m e =>
      if (0 <=? e)%Z then x
      else
        let n := ((2 * signed s m + 2 ^ (- e)) / 2 ^ (1 - e))%Z in
        if (n =? 0)%Z then (if s then (-0)%float else 0%float) else Z2double n
  | _ => x
  end.

(** [Math.floor] on a double. *)
Definition Math_floor (x : float) : float :=
  match Prim2SF x with
  | S754_finite s m e =>
      if (0 <=? e)%Z then x
      else
        let n := (signed s m / 2 ^ (- e))%Z in
        if (n =? 0)%Z then 0%float else Z2double n
  | _ => x
  end.

(** [x || 0] on a number: [NaN] and the zeros are falsy. *)
Definition or_zero (x : float) : float :=
  if PrimFloat.is_nan x || PrimFloat.is_zero x then 0%float else x.

(** *** Platform objects *)

Inductive PlatformOS := web | android | ios.

Definition PlatformOS_eqb (a b : PlatformOS) : bool :=
  match a, b with
  | web, web | android, android | ios, ios => true
  | _, _ => false
  end.

(** [DiagnosticResult] of [src/contexts/DiagnosticsContext.tsx]; [cpu]
    holds the value of [parseFloat(diagnostics.cpu.replace('%', ''))]. *)
Record DiagnosticResult := mkDiagnosticResult {
  ram : Q;
  cpu : option Q;
  thermal : float
}.

(** [RTCIceCandidateInit]. *)
Record Candidate := mkCandidate {
  candidate : jsstring;
  sdpMid : option jsstring;
  sdpMLineIndex : option Z
}.

(** The part of an [RTCPeerConnection] that the handlers touch. *)
Record PeerConnection := mkPeerConnection {
  pc_closed : bool;
  pc_handlers : bool;          (* the [on...] callbacks of [startWebRTC] are set *)
  remoteDescription : option jsstring;
  localDescription : option jsstring;
  iceCandidates : list Candidate
}.

(** [new RTCPeerConnection(configuration)] *)
Definition pc_new : PeerConnection := mkPeerConnection false false None None [].

Definition pc_close (pc : PeerConnection) : PeerConnection :=
  mkPeerConnection true (pc_handlers pc) (remoteDescription pc)
                   (localDescription pc) (iceCandidates pc).

Definition pc_install_handlers (pc : PeerConnection) : PeerConnection :=
  mkPeerConnection (pc_closed pc) true (remoteDescription pc)
                   (localDescription pc) (iceCandidates pc).

Definition pc_setLocalDescription (sdp : jsstring) (pc : PeerConnection) : PeerConnection :=
  mkPeerConnection (pc_closed pc) (pc_handlers pc) (remoteDescription pc)
                   (Some sdp) (iceCandidates pc).

Inductive ReadyState := rs_connecting | rs_open | rs_closing | rs_closed.

Record DataChannel := mkDataChannel { readyState : ReadyState }.

Record MediaStream := mkMediaStream { trackCount : nat }.

(** The options that [setupSignaling] passes to [io]. *)
Record Socket := mkSocket {
  reconnection : bool;
  reconnectionAttempts : Z;
  reconnectionDelay : Z
}.

(** An interval handle: [true] while the interval is scheduled, [false]
    once [clearInterval] was called on it. *)
Definition Interval := bool.

Inductive ConnectionState :=
  cs_new | cs_connecting | cs_connected | cs_disconnected | cs_failed | cs_closed.

Inductive IceConnectionState :=
  ice_new | ice_checking | ice_connected | ice_completed | ice_disconnected
| ice_failed | ice_closed.

(** One report of [pc.getStats()]; [currentRoundTripTime] is [None] when
    the report has no such member. *)
Record Report := mkReport {
  report_type : string;
  report_state : string;
  currentRoundTripTime : option float
}.

(** The response body of [POST /rustdesk/generate]. *)
Record RelayResponse := mkRelayResponse {
  rustdesk_id : jsstring;
  password : jsstring
}.

(** What the surrounding platform answers during one handler run.  [None]
    stands for a rejected promise (a thrown exception). *)
Record Platform := mkPlatform {
  OS : PlatformOS;
  getTotalRamMb : option Q;
  getBatteryLevelAsync : option Q;
  getUserMedia : option MediaStream;
  createOffer : option jsstring;
  addIceCandidate : PeerConnection -> Candidate -> option PeerConnection;
  setItem_ok : bool;
  Date_now : Z
}.

Definition isWebPlatform (p : Platform) : bool := PlatformOS_eqb (OS p) web.

(** *** Component state: the [useState] cells and the refs

    and, after them, what is alive of the mount effect.  [mountedStream] is
    [Some stream] while the 60 s interval of its last run is scheduled,
    [stream] being [localStream] as the render of that run saw it, which is
    what the callback of the interval and the cleanup read.
    [pendingEncryption] counts the calls of [initializeEncryption] that are
    in their wait of 500 ms. *)

Record Remote := mkRemote {
  diagnostics : option DiagnosticResult;
  thermalWarning : bool;
  isConnected : bool;
  deviceId : jsstring;
  screenShare : bool;
  iotControl : bool;
  keyboardInput : bool;
  latency : float;
  duration : Z;
  localStream : option MediaStream;
  remoteStream : option MediaStream;
  errorMessage : string;
  encryptionReady : bool;
  webrtcLoaded : bool;
  RTCPeerConnection : bool;
  mediaDevices : bool;
  RTCIceCandidate : bool;
  pcRef : option PeerConnection;
  dataChannelRef : option DataChannel;
  socketRef : option Socket;
  timerRef : option Interval;
  latencyIntervalRef : option Interval;
  lastPingRef : Z;
  mountedStream : option (option MediaStream);
  pendingEncryption : nat
}.

(** The state at first render. *)
Definition initial (loaded : bool) (now : Z) : Remote :=
  mkRemote None false false [] true false true 0 0 None None "" false
           loaded loaded loaded loaded None None None None None now None 0.

Definition setIsConnected (v : bool) (s : Remote) : Remote :=
  mkRemote (diagnostics s) (thermalWarning s) v (deviceId s) (screenShare s)
    (iotControl s) (keyboardInput s) (latency s) (duration s) (localStream s)
    (remoteStream s) (errorMessage s) (encryptionReady s) (webrtcLoaded s)
    (RTCPeerConnection s) (mediaDevices s) (RTCIceCandidate s) (pcRef s)
    (dataChannelRef s) (socketRef s) (timerRef s) (latencyIntervalRef s)
    (lastPingRef s) (mountedStream s) (pendingEncryption s).

Definition setLatency (v : float) (s : Remote) : Remote :=
  mkRemote (diagnostics s) (thermalWarning s) (isConnected s) (deviceId s)
    (screenShare s) (iotControl s) (keyboardInput s) v (duration s)
    (localStream s) (remoteStream s) (errorMessage s) (encryptionReady s)
    (webrtcLoaded s) (RTCPeerConnection s) (mediaDevices s) (RTCIceCandidate s)
    (pcRef s) (dataChannelRef s) (socketRef s) (timerRef s)
    (latencyIntervalRef s) (lastPingRef s) (mountedStream s)
    (pendingEncryption s).

Definition setDuration (v : Z) (s : Remote) : Remote :=
  mkRemote (diagnostics s) (thermalWarning s) (isConnected s) (deviceId s)
    (screenShare s) (iotControl s) (keyboardInput s) (latency s) v
    (localStream s) (remoteStream s) (errorMessage s) (encryptionReady s)
    (webrtcLoaded s) (RTCPeerConnection s) (mediaDevices s) (RTCIceCandidate s)
    (pcRef s) (dataChannelRef s) (socketRef s) (timerRef s)
    (latencyIntervalRef s) (lastPingRef s) (mountedStream s)
    (pendingEncryption s).

Definition setLocalStream (v : option MediaStream) (s : Remote) : Remote :=
  mkRemote (diagnostics s) (thermalWarning s) (isConnected s) (deviceId s)
    (screenShare s) (iotControl s) (keyboardInput s) (latency s) (duration s)
    v (remoteStream s) (errorMessage s) (encryptionReady s)
    (webrtcLoaded s) (RTCPeerConnection s) (mediaDevices s) (RTCIceCandidate s)
    (pcRef s) (dataChannelRef s) (socketRef s) (timerRef s)
    (latencyIntervalRef s) (lastPingRef s) (mountedStream s)
    (pendingEncryption s).

Definition setRemoteStream (v : option MediaStream) (s : Remote) : Remote :=
  mkRemote (diagnostics s) (thermalWarning s) (isConnected s) (deviceId s)
    (screenShare s) (iotControl s) (keyboardInput s) (latency s) (duration s)
    (localStream s) v (errorMessage s) (encryptionReady s)
    (webrtcLoaded s) (RTCPeerConnection s) (mediaDevices s) (RTCIceCandidate s)
    (pcRef s) (dataChannelRef s) (socketRef s) (timerRef s)
    (latencyIntervalRef s) (lastPingRef s) (mountedStream s)
    (pendingEncryption s).

Definition setErrorMessage (v : string) (s : Remote) : Remote :=
  mkRemote (diagnostics s) (thermalWarning s) (isConnected s) (deviceId s)
    (screenShare s) (iotControl s) (keyboardInput s) (latency s) (duration s)
    (localStream s) (remoteStream s) v (encryptionReady s)
    (webrtcLoaded s) (RTCPeerConnection s) (mediaDevices s) (RTCIceCandidate s)
    (pcRef s) (dataChannelRef s) (socketRef s) (timerRef s)
    (latencyIntervalRef s) (lastPingRef s) (mountedStream s)
    (pendingEncryption s).

Definition setEncryptionReady (v : bool) (s : Remote) : Remote :=
  mkRemote (diagnostics s) (thermalWarning s) (isConnected s) (deviceId s)
    (screenShare s) (iotControl s) (keyboardInput s) (latency s) (duration s)
    (localStream s) (remoteStream s) (errorMessage s) v
    (webrtcLoaded s) (RTCPeerConnection s) (mediaDevices s) (RTCIceCandidate s)
    (pcRef s) (dataChannelRef s) (socketRef s) (timerRef s)
    (latencyIntervalRef s) (lastPingRef s) (mountedStream s)
    (pendingEncryption s).

Definition set_pcRef (v : option PeerConnection) (s : Remote) : Remote :=
  mkRemote (diagnostics s) (thermalWarning s) (isConnected s) (deviceId s)
    (screenShare s) (iotControl s) (keyboardInput s) (latency s) (duration s)
    (localStream s) (remoteStream s) (errorMessage s) (encryptionReady s)
    (webrtcLoaded s) (RTCPeerConnection s) (mediaDevices s) (RTCIceCandidate s)
    v (dataChannelRef s) (socketRef s) (timerRef s)
    (latencyIntervalRef s) (lastPingRef s) (mountedStream s)
    (pendingEncryption s).

Definition set_dataChannelRef (v : option DataChannel) (s : Remote) : Remote :=
  mkRemote (diagnostics s) (thermalWarning s) (isConnected s) (deviceId s)
    (screenShare s) (iotControl s) (keyboardInput s) (latency s) (duration s)
    (localStream s) (remoteStream s) (errorMessage s) (encryptionReady s)
    (webrtcLoaded s) (RTCPeerConnection s) (mediaDevices s) (RTCIceCandidate s)
    (pcRef s) v (socketRef s) (timerRef s)
    (latencyIntervalRef s) (lastPingRef s) (mountedStream s)
    (pendingEncryption s).

Definition set_socketRef (v : option Socket) (s : Remote) : Remote :=
  mkRemote (diagnostics s) (thermalWarning s) (isConnected s) (deviceId s)
    (screenShare s) (iotControl s) (keyboardInput s) (latency s) (duration s)
    (localStream s) (remoteStream s) (errorMessage s) (encryptionReady s)
    (webrtcLoaded s) (RTCPeerConnection s) (mediaDevices s) (RTCIceCandidate s)
    (pcRef s) (dataChannelRef s) v (timerRef s)
    (latencyIntervalRef s) (lastPingRef s) (mountedStream s)
    (pendingEncryption s).

Definition set_timerRef (v : option Interval) (s : Remote) : Remote :=
  mkRemote (diagnostics s) (thermalWarning s) (isConnected s) (deviceId s)
    (screenShare s) (iotControl s) (keyboardInput s) (latency s) (duration s)
    (localStream s) (remoteStream s) (errorMessage s) (encryptionReady s)
    (webrtcLoaded s) (RTCPeerConnection s) (mediaDevices s) (RTCIceCandidate s)
    (pcRef s) (dataChannelRef s) (socketRef s) v
    (latencyIntervalRef s) (lastPingRef s) (mountedStream s)
    (pendingEncryption s).

Definition set_latencyIntervalRef (v : option Interval) (s : Remote) : Remote :=
  mkRemote (diagnostics s) (thermalWarning s) (isConnected s) (deviceId s)
    (screenShare s) (iotControl s) (keyboardInput s) (latency s) (duration s)
    (localStream s) (remoteStream s) (errorMessage s) (encryptionReady s)
    (webrtcLoaded s) (RTCPeerConnection s) (mediaDevices s) (RTCIceCandidate s)
    (pcRef s) (dataChannelRef s) (socketRef s) (timerRef s)
    v (lastPingRef s) (mountedStream s) (pendingEncryption s).

Definition set_lastPingRef (v : Z) (s : Remote) : Remote :=
  mkRemote (diagnostics s) (thermalWarning s) (isConnected s) (deviceId s)
    (screenShare s) (iotControl s) (keyboardInput s) (latency s) (duration s)
    (localStream s) (remoteStream s) (errorMessage s) (encryptionReady s)
    (webrtcLoaded s) (RTCPeerConnection s) (mediaDevices s) (RTCIceCandidate s)
    (pcRef s) (dataChannelRef s) (socketRef s) (timerRef s)
    (latencyIntervalRef s) v (mountedStream s) (pendingEncryption s).

Definition set_mountedStream (v : option (option MediaStream)) (s : Remote) : Remote :=
  mkRemote (diagnostics s) (thermalWarning s) (isConnected s) (deviceId s)
    (screenShare s) (iotControl s) (keyboardInput s) (latency s) (duration s)
    (localStream s) (remoteStream s) (errorMessage s) (encryptionReady s)
    (webrtcLoaded s) (RTCPeerConnection s) (mediaDevices s) (RTCIceCandidate s)
    (pcRef s) (dataChannelRef s) (socketRef s) (timerRef s)
    (latencyIntervalRef s) (lastPingRef s) v (pendingEncryption s).

Definition set_pendingEncryption (v : nat) (s : Remote) : Remote :=
  mkRemote (diagnostics s) (thermalWarning s) (isConnected s) (deviceId s)
    (screenShare s) (iotControl s) (keyboardInput s) (latency s) (duration s)
    (localStream s) (remoteStream s) (errorMessage s) (encryptionReady s)
    (webrtcLoaded s) (RTCPeerConnection s) (mediaDevices s) (RTCIceCandidate s)
    (pcRef s) (dataChannelRef s) (socketRef s) (timerRef s)
    (latencyIntervalRef s) (lastPingRef s) (mountedStream s) v.

Definition setDeviceId (v : jsstring) (s : Remote) : Remote :=
  mkRemote (diagnostics s) (thermalWarning s) (isConnected s) v
    (screenShare s) (iotControl s) (keyboardInput s) (latency s) (duration s)
    (localStream s) (remoteStream s) (errorMessage s) (encryptionReady s)
    (webrtcLoaded s) (RTCPeerConnection s) (mediaDevices s) (RTCIceCandidate s)
    (pcRef s) (dataChannelRef s) (socketRef s) (timerRef s)
    (latencyIntervalRef s) (lastPingRef s) (mountedStream s)
    (pendingEncryption s).

Definition setScreenShare (v : bool) (s : Remote) : Remote :=
  mkRemote (diagnostics s) (thermalWarning s) (isConnected s) (deviceId s)
    v (iotControl s) (keyboardInput s) (latency s) (duration s)
    (localStream s) (remoteStream s) (errorMessage s) (encryptionReady s)
    (webrtcLoaded s) (RTCPeerConnection s) (mediaDevices s) (RTCIceCandidate s)
    (pcRef s) (dataChannelRef s) (socketRef s) (timerRef s)
    (latencyIntervalRef s) (lastPingRef s) (mountedStream s)
    (pendingEncryption s).

Definition setIotControl (v : bool) (s : Remote) : Remote :=
  mkRemote (diagnostics s) (thermalWarning s) (isConnected s) (deviceId s)
    (screenShare s) v (keyboardInput s) (latency s) (duration s)
    (localStream s) (remoteStream s) (errorMessage s) (encryptionReady s)
    (webrtcLoaded s) (RTCPeerConnection s) (mediaDevices s) (RTCIceCandidate s)
    (pcRef s) (dataChannelRef s) (socketRef s) (timerRef s)
    (latencyIntervalRef s) (lastPingRef s) (mountedStream s)
    (pendingEncryption s).

Definition setKeyboardInput (v : bool) (s : Remote) : Remote :=
  mkRemote (diagnostics s) (thermalWarning s) (isConnected s) (deviceId s)
    (screenShare s) (iotControl s) v (latency s) (duration s)
    (localStream s) (remoteStream s) (errorMessage s) (encryptionReady s)
    (webrtcLoaded s) (RTCPeerConnection s) (mediaDevices s) (RTCIceCandidate s)
    (pcRef s) (dataChannelRef s) (socketRef s) (timerRef s)
    (latencyIntervalRef s) (lastPingRef s) (mountedStream s)
    (pendingEncryption s).

(** The two values that come from [useDiagnostics]. *)
Definition setDiagnostics (v : option DiagnosticResult) (s : Remote) : Remote :=
  mkRemote v (thermalWarning s) (isConnected s) (deviceId s)
    (screenShare s) (iotControl s) (keyboardInput s) (latency s) (duration s)
    (localStream s) (remoteStream s) (errorMessage s) (encryptionReady s)
    (webrtcLoaded s) (RTCPeerConnection s) (mediaDevices s) (RTCIceCandidate s)
    (pcRef s) (dataChannelRef s) (socketRef s) (timerRef s)
    (latencyIntervalRef s) (lastPingRef s) (mountedStream s)
    (pendingEncryption s).

Definition setThermalWarning (v : bool) (s : Remote) : Remote :=
  mkRemote (diagnostics s) v (isConnected s) (deviceId s)
    (screenShare s) (iotControl s) (keyboardInput s) (latency s) (duration s)
    (localStream s) (remoteStream s) (errorMessage s) (encryptionReady s)
    (webrtcLoaded s) (RTCPeerConnection s) (mediaDevices s) (RTCIceCandidate s)
    (pcRef s) (dataChannelRef s) (socketRef s) (timerRef s)
    (latencyIntervalRef s) (lastPingRef s) (mountedStream s)
    (pendingEncryption s).

(** *** Observable actions *)

Inductive Fn := fn_initializeEncryption | fn_setupSignaling | fn_startWebRTC.

(** The callbacks that the component hands to [setInterval]: the resource
    check of the mount effect ([thermalCheck] below), the latency sampler
    ([latencyTick]) and the session timer ([durationTick]). *)
Inductive Callback := cb_thermalCheck | cb_latencyTick | cb_durationTick.

Inductive Effect :=
| Invoke (f : Fn)                        (* entry of a component function *)
| Alert (title : string)
| Speak (text : string)
| Vibrate
| ConsoleError (what : string)
| LogEvent (event : string)              (* logEventLocal *)
| LogSession (clientName : jsstring)     (* logSessionLocal *)
| FetchPastSessions
| IoConnect (options : Socket)           (* io(SIGNALING_URL, options) *)
| SocketOn (event : string)
| SocketEmit (event : string)
| SocketDisconnect
| AxiosPost (path : string) (device_id : jsstring)
| NewPeerConnection
| GetUserMedia (screen : bool)
| AddTracks
| CreateDataChannel
| InstallPcHandlers
| CreateOffer
| CallAddIceCandidate (c : Candidate)
| PcClose
| DcClose
| StopTracks
| SetTimeout (ms : Z)
| SetInterval (callback : Callback) (ms : Z)
| ClearInterval.

(** *** A state and trace monad for the handlers *)

Definition M (A : Type) : Type := Remote -> A * Remote * list Effect.

Definition ret {A} (a : A) : M A := fun s => (a, s, []).

Definition bind {A B} (m : M A) (k : A -> M B) : M B :=
  fun s =>
    let '(a, s1, t1) := m s in
    let '(b, s2, t2) := k a s1 in
    (b, s2, (t1 ++ t2)%list).

Definition emit (e : Effect) : M unit := fun s => (tt, s, [e]).
Definition read {A} (f : Remote -> A) : M A := fun s => (f s, s, []).
Definition update (f : Remote -> Remote) : M unit := fun s => (tt, f s, []).

Declare Scope js_scope.
Delimit Scope js_scope with js.
Notation "x <- m ;; k" := (bind m (fun x => k))
  (at level 61, m at next level, right associativity) : js_scope.
Notation "m ;; k" := (bind m (fun _ => k))
  (at level 61, right associativity) : js_scope.
Local Open Scope js_scope.

Definition state_of {A} (r : A * Remote * list Effect) : Remote := snd (fst r).
Definition trace_of {A} (r : A * Remote * list Effect) : list Effect := snd r.
Definition value_of {A} (r : A * Remote * list Effect) : A := fst (fst r).

(** *** The handlers *)

(** [logEventLocal] catches its own storage errors. *)
Definition logEvent (event : string) : M unit := emit (LogEvent event).

(** [const cpuUsage = diagnostics ? parseFloat(...) / 100 : 0] *)
Definition cpuUsage (s : Remote) : option Q :=
  match diagnostics s with
  | Some d => match cpu d with Some x => Some (x / 100)%Q | None => None end
  | None => Some 0%Q
  end.

(** [totalRam > 6000 ? 0.3 : (diagnostics?.ram || 0)] *)
Definition ramUsage (totalRam : Q) (s : Remote) : Q :=
  if Qgtb totalRam 6000 then 0.3%Q
  else match diagnostics s with Some d => ram d | None => 0%Q end.

Definition checkResources (p : Platform) : M bool :=
  match getTotalRamMb p with
  | None => emit (ConsoleError "Resource check error:") ;; ret false
  | Some totalRam =>
      usage <- read (ramUsage totalRam) ;;
      match getBatteryLevelAsync p with
      | None => emit (ConsoleError "Resource check error:") ;; ret false
      | Some batteryLevel =>
          load <- read cpuUsage ;;
          if Qgtb usage 0.8 || num_gt load 0.7
             || (Qltb batteryLevel 0.2 && PlatformOS_eqb (OS p) android)
          then emit (Alert "Resource Limit") ;; emit Vibrate ;; ret true
          else ret false
      end
  end.

(** [initializeEncryption], up to its wait of 500 ms: one more call is
    waiting for its timer. *)
Definition initializeEncryption : M unit :=
  emit (Invoke fn_initializeEncryption) ;;
  emit (SetTimeout 500) ;;
  update (fun s => set_pendingEncryption (S (pendingEncryption s)) s).

(** ... and from the timer on. *)
Definition encryptionInitialized : M unit :=
  update (setEncryptionReady true) ;;
  logEvent "Encryption initialized" ;;
  emit (Speak "Encryption initialized").

(** [SIGNALING_URL] is [`ws://localhost:${SERVER_PORT}`], never empty. *)
Definition SIGNALING_URL_empty : bool := false.

Definition signaling_options : Socket := mkSocket true 5 1000.

Definition setupSignaling (p : Platform) : M unit :=
  emit (Invoke fn_setupSignaling) ;;
  sock <- read socketRef ;;
  if isWebPlatform p
     || (match sock with Some _ => false | None => true end)
     || SIGNALING_URL_empty
  then ret tt
  else
    emit (IoConnect signaling_options) ;;
    update (set_socketRef (Some signaling_options)) ;;
    emit (SocketOn "connect") ;;
    emit (SocketOn "connect_error") ;;
    emit (SocketOn "offer") ;;
    emit (SocketOn "ice-candidate") ;;
    emit (SocketOn "ice_failed").

(** [socketRef.current?.emit(event, ...)] *)
Definition socket_emit_opt (event : string) : M unit :=
  sock <- read socketRef ;;
  match sock with
  | Some _ => emit (SocketEmit event)
  | None => ret tt
  end.

Definition jsstring_eqb (a b : jsstring) : bool :=
  if list_eq_dec Z.eq_dec a b then true else false.

(** [socketRef.current.on('connect_error', ...)] *)
Definition on_connect_error : M unit :=
  emit (ConsoleError "Internal signaling error:") ;;
  update (setErrorMessage "Failed to connect to internal backend (check app restart)") ;;
  emit (Speak "Internal server connection failed") ;;
  emit Vibrate.

(** [socketRef.current.on('ice-candidate', ...)] *)
Definition on_ice_candidate (p : Platform) (c : Candidate) (from : jsstring) : M unit :=
  pc <- read pcRef ;;
  id <- read deviceId ;;
  loaded <- read RTCIceCandidate ;;
  match pc with
  | None => ret tt
  | Some conn =>
      if negb (jsstring_eqb from id) || negb loaded then ret tt
      else
        emit (CallAddIceCandidate c) ;;
        match addIceCandidate p conn c with
        | Some conn' =>
            update (set_pcRef (Some conn')) ;;
            logEvent "ICE candidate added"
        | None =>
            emit (ConsoleError "ICE candidate error:") ;;
            update (setErrorMessage "Failed to add ICE candidate")
        end
  end.

(** [socketRef.current.on('ice_failed', ...)], up to the [await] of the
    relay request. *)
Definition on_ice_failed : M unit :=
  id <- read deviceId ;;
  emit (AxiosPost "/rustdesk/generate" id).

(** The [catch] of that handler. *)
Definition fallback_failed : M unit :=
  emit (ConsoleError "Fallback error:") ;;
  update (setErrorMessage "Fallback unavailable; retry P2P").

(** ... and from the answer of the relay request on.  [res] is [None]
    when the request is rejected and [Some None] when the response has no
    [data] to take [rustdesk_id] and [password] from; [data] is the payload
    of the [ice_failed] event, whose [room] is read last.  Each of the
    three throws inside the [try]. *)
Definition on_relay_response (res : option (option RelayResponse))
           (data : option jsstring) : M unit :=
  match res with
  | Some (Some _) =>
      emit (SocketEmit "use_rustdesk") ;;
      emit (Alert "P2P Failed") ;;
      emit (Speak "Switched to local relay mode") ;;
      match data with
      | Some _ => logEvent "RustDesk fallback activated"
      | None => fallback_failed
      end
  | _ => fallback_failed
  end.

(** [pc.onconnectionstatechange] *)
Definition onconnectionstatechange (p : Platform) (c : ConnectionState) : M unit :=
  lastPing <- read lastPingRef ;;
  match c with
  | cs_failed =>
      if Date_now p - lastPing >? 2000 then
        socket_emit_opt "ice_failed" ;;
        emit (Speak "Connection lag detected. Falling back.") ;;
        logEvent "ICE failed; fallback triggered"
      else ret tt
  | cs_connected => emit (Speak "Connection established")
  | cs_disconnected => emit (Speak "Connection lost")
  | _ => ret tt
  end.

(** [pc.oniceconnectionstatechange] *)
Definition oniceconnectionstatechange (c : IceConnectionState) : M unit :=
  match c with
  | ice_failed => socket_emit_opt "ice_failed"
  | _ => ret tt
  end.

(** [pc.onicecandidate]; [c] is [event.candidate]. *)
Definition onicecandidate (c : option Candidate) : M unit :=
  match c with
  | Some _ =>
      socket_emit_opt "ice-candidate" ;;
      logEvent "ICE candidate sent"
  | None => ret tt
  end.

Fixpoint forEach {A} (f : A -> M unit) (l : list A) : M unit :=
  match l with
  | [] => ret tt
  | x :: rest => f x ;; forEach f rest
  end.

Definition succeeded_pair (r : Report) : bool :=
  String.eqb (report_type r) "candidate-pair" && String.eqb (report_state r) "succeeded".

(** [report.currentRoundTripTime * 1000 || 0]; a missing member makes
    the product [NaN]. *)
Definition rtt_ms (r : Report) : float :=
  match currentRoundTripTime r with
  | Some x => or_zero (x * 1000)%float
  | None => 0%float
  end.

(** The body of [stats.forEach]. *)
Definition sample (p : Platform) (report : Report) : M unit :=
  if succeeded_pair report then
    update (setLatency (Math_round_double (rtt_ms report))) ;;
    update (set_lastPingRef (Date_now p))
  else ret tt.

(** The callback of the 10 s interval; [stats] is the answer of
    [pc.getStats()]. *)
Definition latencyTick (p : Platform) (stats : option (list Report)) : M unit :=
  match stats with
  | None => emit (ConsoleError "Latency check error:")
  | Some reports => forEach (sample p) reports
  end.

(** The callback of the 1 s interval. *)
Definition durationTick : M unit :=
  update (fun s => setDuration (duration s + 1) s).

Definition startWebRTC (p : Platform) : M unit :=
  emit (Invoke fn_startWebRTC) ;;
  loaded <- read webrtcLoaded ;;
  ctor <- read RTCPeerConnection ;;
  media <- read mediaDevices ;;
  if isWebPlatform p || negb loaded || negb ctor || negb media then
    update (setErrorMessage "WebRTC not supported or loaded")
  else
  ready <- read encryptionReady ;;
  if negb ready then
    update (setErrorMessage "Encryption not ready") ;;
    emit (Speak "Please wait for encryption to initialize")
  else
  overLimit <- checkResources p ;;
  if overLimit then
    update (setErrorMessage "Insufficient resources") ;;
    emit (Alert "Resource Error") ;;
    emit (Speak "Device overloaded") ;;
    emit Vibrate
  else
  emit NewPeerConnection ;;
  update (set_pcRef (Some pc_new)) ;;
  screen <- read screenShare ;;
  emit (GetUserMedia screen) ;;
  match getUserMedia p with
  | None =>
      emit (ConsoleError "Stream error:") ;;
      update (setErrorMessage "Failed to access media") ;;
      emit (Speak "Failed to access media") ;;
      emit Vibrate
  | Some stream =>
      update (setLocalStream (Some stream)) ;;
      emit AddTracks ;;
      logEvent "Media stream acquired" ;;
      emit (Speak "Media stream ready") ;;
      iot <- read iotControl ;;
      kbd <- read keyboardInput ;;
      (if iot || kbd then
         emit CreateDataChannel ;;
         update (set_dataChannelRef (Some (mkDataChannel rs_connecting)))
       else ret tt) ;;
      emit InstallPcHandlers ;;
      update (set_pcRef (Some (pc_install_handlers pc_new))) ;;
      emit CreateOffer ;;
      match createOffer p with
      | None =>
          emit (ConsoleError "WebRTC setup error:") ;;
          update (setErrorMessage "Failed to start session") ;;
          emit (Speak "Session setup failed") ;;
          emit Vibrate
      | Some sdp =>
          update (set_pcRef
                    (Some (pc_setLocalDescription sdp (pc_install_handlers pc_new)))) ;;
          socket_emit_opt "offer" ;;
          logEvent "WebRTC offer sent" ;;
          emit (SetInterval cb_latencyTick 10000) ;;
          update (set_latencyIntervalRef (Some true)) ;;
          emit (SetInterval cb_durationTick 1000) ;;
          update (set_timerRef (Some true))
      end
  end.

(** [handleEndSession] as a render defines it.  The refs are read when it
    runs; [localStream] is a constant of the render, and [stream] is its
    value there. *)
Definition handleEndSession_of (stream : option MediaStream) : M unit :=
  pc <- read pcRef ;;
  match pc with
  | Some conn => emit PcClose ;; update (set_pcRef (Some (pc_close conn)))
  | None => ret tt
  end ;;
  dc <- read dataChannelRef ;;
  match dc with
  | Some _ => emit DcClose ;; update (set_dataChannelRef (Some (mkDataChannel rs_closed)))
  | None => ret tt
  end ;;
  match stream with
  | Some _ => emit StopTracks ;; update (setLocalStream None)
  | None => ret tt
  end ;;
  update (setRemoteStream None) ;;
  update (setIsConnected false) ;;
  timer <- read timerRef ;;
  match timer with
  | Some _ => emit ClearInterval ;; update (set_timerRef (Some false))
  | None => ret tt
  end ;;
  interval <- read latencyIntervalRef ;;
  match interval with
  | Some _ => emit ClearInterval ;; update (set_latencyIntervalRef (Some false))
  | None => ret tt
  end ;;
  update (setDuration 0) ;;
  update (setLatency 0) ;;
  update (setErrorMessage "") ;;
  emit (Speak "Session ended") ;;
  logEvent "Session ended" ;;
  emit Vibrate.

(** [handleEndSession] of the current render, which the button calls. *)
Definition handleEndSession : M unit :=
  stream <- read localStream ;;
  handleEndSession_of stream.

(** [logSessionLocal] *)
Definition logSession (p : Platform) (clientName : jsstring) : M bool :=
  if setItem_ok p then emit (LogSession clientName) ;; ret true
  else emit (ConsoleError "Log session error:") ;; ret false.

Definition fetchPastSessions : M unit :=
  emit FetchPastSessions ;; logEvent "Past sessions fetched".

Definition handleStartSession (p : Platform) : M unit :=
  if isWebPlatform p then emit (Alert "Platform Error")
  else
  connected <- read isConnected ;;
  if connected then handleEndSession
  else
  id <- read deviceId ;;
  if negb (truthy (trim id)) then
    update (setErrorMessage "Device ID required") ;;
    emit (Speak "Please enter device ID") ;;
    emit Vibrate
  else
  overLimit <- checkResources p ;;
  thermal <- read thermalWarning ;;
  if overLimit || thermal then
    update (setErrorMessage "Device overloaded") ;;
    emit (Alert "Resource Warning") ;;
    emit (Speak "Device overloaded") ;;
    emit Vibrate
  else
  startWebRTC p ;;
  update (setIsConnected true) ;;
  logged <- logSession p id ;;
  (if logged then fetchPastSessions else ret tt) ;;
  emit (Speak "Session started with") ;;
  emit Vibrate.

(** The callback of the 60 s interval of the mount effect.  It is made
    by the render in which the effect ran, and so is the [handleEndSession]
    that it calls: [stream] is [localStream] as that render saw it.
    [diagnostics] and [thermalWarning] are dependencies of the effect, which
    runs again when they change, so the callback reads their current
    values. *)
Definition thermalCheck (p : Platform) (stream : option MediaStream) : M unit :=
  overLimit <- checkResources p ;;
  thermal <- read thermalWarning ;;
  if overLimit || thermal then
    emit (Alert "Resource Warning") ;;
    handleEndSession_of stream ;;
    logEvent "Session paused: resource limits" ;;
    emit (Speak "Session paused due to resource limits") ;;
    emit Vibrate
  else ret tt.

(** The function that the second [useEffect] returns, which runs before
    the effect runs again; [stream] is [localStream] as the render of that
    run saw it. *)
Definition mountCleanup (stream : option MediaStream) : M unit :=
  sock <- read socketRef ;;
  match sock with
  | Some _ => emit SocketDisconnect
  | None => ret tt
  end ;;
  timer <- read timerRef ;;
  match timer with
  | Some _ => emit ClearInterval ;; update (set_timerRef (Some false))
  | None => ret tt
  end ;;
  interval <- read latencyIntervalRef ;;
  match interval with
  | Some _ => emit ClearInterval ;; update (set_latencyIntervalRef (Some false))
  | None => ret tt
  end ;;
  emit ClearInterval ;;
  update (set_mountedStream None) ;;
  match stream with
  | Some _ => emit StopTracks
  | None => ret tt
  end.

(** A run of the second [useEffect]: the cleanup of the run before, if
    that run returned one, and the body.  [mountedStream] keeps what the
    closures of the run see of [localStream] while its 60 s interval is
    scheduled. *)
Definition mountEffect (p : Platform) : M unit :=
  before <- read mountedStream ;;
  match before with
  | Some stream => mountCleanup stream
  | None => ret tt
  end ;;
  if isWebPlatform p then
    update (setErrorMessage "WebRTC is only supported on native platforms (iOS/Android)") ;;
    emit (Speak "WebRTC not available on web")
  else
  loaded <- read webrtcLoaded ;;
  if negb loaded then ret tt
  else
    initializeEncryption ;;
    setupSignaling p ;;
    emit FetchPastSessions ;;
    emit (SetInterval cb_thermalCheck 60000) ;;
    stream <- read localStream ;;
    update (set_mountedStream (Some stream)).

(** [handleBarCodeScanned] on the cells of the session; [isScanning],
    which it writes as well, is a cell of [Control.Screen]. *)
Definition on_barcode (data : jsstring) : M unit :=
  if negb (truthy data) || jsstring_eqb (trim data) [] then
    update (setErrorMessage "Invalid QR code") ;;
    emit (Speak "Invalid QR code scanned") ;;
    emit Vibrate
  else
    update (setDeviceId (trim data)) ;;
    emit (Speak "Device ID set to") ;;
    logEvent "QR code scanned" ;;
    emit Vibrate.

(** *** Events delivered to the component *)

(** The options "Screen share", "IoT control" and "Keyboard input". *)
Inductive Switch := sw_screenShare | sw_iotControl | sw_keyboardInput.

(** [onPress={() => setScreenShare(!screenShare)}] and its two siblings. *)
Definition onSwitch (o : Switch) : M unit :=
  match o with
  | sw_screenShare => update (fun s => setScreenShare (negb (screenShare s)) s)
  | sw_iotControl => update (fun s => setIotControl (negb (iotControl s)) s)
  | sw_keyboardInput => update (fun s => setKeyboardInput (negb (keyboardInput s)) s)
  end.

Inductive Event :=
| ev_effect                                           (* the mount effect runs *)
| ev_context (d : option DiagnosticResult) (warning : bool)
                                                      (* [useDiagnostics] has new values *)
| ev_encryption                                       (* a 500 ms timer fires *)
| ev_changeText (text : jsstring)                     (* the device id field *)
| ev_scanned (data : jsstring)                        (* the QR scanner *)
| ev_switch (o : Switch)                              (* one of the three options *)
| ev_press                                            (* the start / end button *)
| ev_connectionstatechange (c : ConnectionState)
| ev_iceconnectionstatechange (c : IceConnectionState)
| ev_icecandidate (c : option Candidate)
| ev_connect_error
| ev_ice_candidate (c : Candidate) (from : jsstring)
| ev_ice_failed
| ev_relay_response (res : option (option RelayResponse)) (data : option jsstring)
| ev_latency (stats : option (list Report))
| ev_second
| ev_minute.

Definition when (b : bool) (m : M unit) : M unit := if b then m else ret tt.

Definition has_socket (s : Remote) : bool :=
  match socketRef s with Some _ => true | None => false end.

Definition has_pc_handlers (s : Remote) : bool :=
  match pcRef s with Some conn => pc_handlers conn | None => false end.

Definition running (i : option Interval) : bool :=
  match i with Some b => b | None => false end.

(** A callback runs only where the code has registered it: the socket
    handlers on the socket made by [setupSignaling], the connection
    callbacks on the connection of [startWebRTC], an interval callback
    while its interval is scheduled, the continuation of
    [initializeEncryption] when a call is waiting for its timer.  The mount
    effect runs after the first render with the WebRTC module loaded and
    whenever one of its dependencies changes: with [ev_context] because
    [diagnostics] and [thermalWarning] are among them, with [ev_effect] for
    the others.  The device id is written by the text field
    ([onChangeText={setDeviceId}]) and by the scanner, the three options by
    their switches.  What the platform does to the data channel on its own
    (opening it, delivering messages) is not among the events. *)
Definition dispatch (p : Platform) (e : Event) : M unit :=
  match e with
  | ev_effect => mountEffect p
  | ev_context d warning =>
      update (setDiagnostics d) ;;
      update (setThermalWarning warning) ;;
      mountEffect p
  | ev_encryption =>
      n <- read pendingEncryption ;;
      match n with
      | S k => update (set_pendingEncryption k) ;; encryptionInitialized
      | O => ret tt
      end
  | ev_changeText text => update (setDeviceId text)
  | ev_scanned data => on_barcode data
  | ev_switch o => onSwitch o
  | ev_press => handleStartSession p
  | ev_connectionstatechange c =>
      h <- read has_pc_handlers ;; when h (onconnectionstatechange p c)
  | ev_iceconnectionstatechange c =>
      h <- read has_pc_handlers ;; when h (oniceconnectionstatechange c)
  | ev_icecandidate c =>
      h <- read has_pc_handlers ;; when h (onicecandidate c)
  | ev_connect_error =>
      h <- read has_socket ;; when h on_connect_error
  | ev_ice_candidate c from =>
      h <- read has_socket ;; when h (on_ice_candidate p c from)
  | ev_ice_failed =>
      h <- read has_socket ;; when h on_ice_failed
  | ev_relay_response res data =>
      h <- read has_socket ;; when h (on_relay_response res data)
  | ev_latency stats =>
      h <- read (fun s => running (latencyIntervalRef s)) ;; when h (latencyTick p stats)
  | ev_second =>
      h <- read (fun s => running (timerRef s)) ;; when h durationTick
  | ev_minute =>
      scheduled <- read mountedStream ;;
      match scheduled with
      | Some stream => thermalCheck p stream
      | None => ret tt
      end
  end.

Fixpoint run (evs : list (Platform * Event)) : M unit :=
  match evs with
  | [] => ret tt
  | (p, e) :: rest => dispatch p e ;; run rest
  end.

(** The connection as the WebRTC recommendation describes it: a candidate
    is refused on a closed connection and while no remote description is
    set, and appended otherwise. *)
Definition w3c_addIceCandidate (pc : PeerConnection) (c : Candidate) : option PeerConnection :=
  if pc_closed pc then None
  else match remoteDescription pc with
       | None => None
       | Some _ =>
           Some (mkPeerConnection (pc_closed pc) (pc_handlers pc) (remoteDescription pc)
                                  (localDescription pc) (iceCandidates pc ++ [c])%list)
       end.

End Remote.

(** ** Properties of handlers *)

Module Handler.

Import Remote.

(** The handler leaves the observation [f] of the state as it was. *)
Definition keeps {A B} (f : Remote -> A) (m : M B) : Prop :=
  forall s, f (state_of (m s)) = f s.

(** Every action of the handler satisfies [P]. *)
Definition emits_only {B} (P : Effect -> Prop) (m : M B) : Prop :=
  forall s, Forall P (trace_of (m s)).

(** Run without a socket, the handler leaves the component without one
    and performs only actions that satisfy [P]. *)
Definition socketless {B} (P : Effect -> Prop) (m : M B) : Prop :=
  forall s, socketRef s = None ->
            socketRef (state_of (m s)) = None /\
            Forall P (trace_of (m s)).

Definition is_post (e : Effect) : bool :=
  match e with AxiosPost _ _ => true | _ => false end.

Definition is_ice_failed (e : Event) : bool :=
  match e with ev_ice_failed => true | _ => false end.

(** The events that the signaling socket would deliver. *)
Definition on_socket (e : Event) : bool :=
  match e with
  | ev_connect_error | ev_ice_candidate _ _ | ev_ice_failed
  | ev_relay_response _ _ => true
  | _ => false
  end.

(** A connection-state callback reports a failed connection. *)
Definition is_failed_transition (e : Event) : bool :=
  match e with
  | ev_connectionstatechange cs_failed
  | ev_iceconnectionstatechange ice_failed => true
  | _ => false
  end.

(** The number of relay requests in a trace. *)
Definition relay_requests (t : list Effect) : nat :=
  List.length (filter is_post t).

(** The last report of a succeeded candidate pair. *)
Definition last_succeeded (reports : list Report) : option Report :=
  find succeeded_pair (rev reports).

Definition first_succeeded (reports : list Report) : option Report :=
  find succeeded_pair reports.

(** [dataChannelRef.current?.close()] as seen on the ref. *)
Definition dc_closed (dc : option DataChannel) : option DataChannel :=
  match dc with Some _ => Some (mkDataChannel rs_closed) | None => None end.

Definition cleared (i : option Interval) : option Interval :=
  match i with Some _ => Some false | None => None end.

Definition not_connect (e : Effect) : Prop :=
  match e with IoConnect _ => False | _ => True end.

(** The state that [handleEndSession] leaves. *)
Definition torn_down (s : Remote) : Remote :=
  mkRemote (diagnostics s) (thermalWarning s) false (deviceId s)
    (screenShare s) (iotControl s) (keyboardInput s) 0 0 None None ""
    (encryptionReady s) (webrtcLoaded s) (RTCPeerConnection s) (mediaDevices s)
    (RTCIceCandidate s) (option_map pc_close (pcRef s))
    (dc_closed (dataChannelRef s)) (socketRef s) (cleared (timerRef s))
    (cleared (latencyIntervalRef s)) (lastPingRef s) (mountedStream s)
    (pendingEncryption s).

(** What [handleStartSession] does once the gate is passed. *)
Definition start_tail (p : Platform) (id : JS.jsstring) : M unit :=
  bind (startWebRTC p) (fun _ =>
  bind (update (setIsConnected true)) (fun _ =>
  bind (logSession p id) (fun logged =>
  bind (if logged then fetchPastSessions else ret tt) (fun _ =>
  bind (emit (Speak "Session started with"%string)) (fun _ =>
  emit Vibrate))))).

(** No remote description has been set on the connection, if there is one. *)
Definition no_remote_description (s : Remote) : Prop :=
  match pcRef s with
  | Some conn => remoteDescription conn = None
  | None => True
  end.


End Handler.

(** ** Concrete devices and states used in the examples *)

Module Scenario.

Import JS Remote.

(** ["dev-42"] *)
Definition dev42 : jsstring := [100; 101; 118; 45; 52; 50].

Definition camera : MediaStream := mkMediaStream 2.

(** ["v=0"] *)
Definition sdp : jsstring := [118; 61; 48].

(** RAM pressure 0.1, CPU load 0.2. *)
Definition calm : DiagnosticResult := mkDiagnosticResult 0.1 (Some 20%Q) 35.

(** CPU load 0.9. *)
Definition busy : DiagnosticResult := mkDiagnosticResult 0.1 (Some 90%Q) 35.

(** An Android phone with 4 GB on which every platform call succeeds. *)
Definition phone : Platform :=
  mkPlatform android (Some 4096%Q) (Some 0.9%Q) (Some camera) (Some sdp)
             w3c_addIceCandidate true 100000.

(** The same phone when the battery level cannot be read:
    [DeviceInfo.getBatteryLevelAsync()] rejects. *)
Definition phone_unreadable : Platform :=
  mkPlatform android (Some 4096%Q) None (Some camera) (Some sdp)
             w3c_addIceCandidate true 100000.

(** The same phone with the battery at 10 %. *)
Definition phone_low : Platform :=
  mkPlatform android (Some 4096%Q) (Some 0.1%Q) (Some camera) (Some sdp)
             w3c_addIceCandidate true 100000.

Definition browser : Platform :=
  mkPlatform web (Some 4096%Q) (Some 0.9%Q) (Some camera) (Some sdp)
             w3c_addIceCandidate true 100000.

(** First render with the WebRTC module loaded; then the user typed the
    device id. *)
Definition mounted : Remote := initial true 0.

Definition typed : Remote := setDiagnostics (Some calm) (setDeviceId dev42 mounted).

(** ... and encryption has finished initialising. *)
Definition ready : Remote := setEncryptionReady true typed.

(** The device id is a space and a tab. *)
Definition blank : Remote := setDeviceId [32; 9] ready.

Definition ready_busy : Remote := setDiagnostics (Some busy) ready.

Definition ready_hot : Remote := setThermalWarning true ready.



(** From the first render with the WebRTC module loaded to a running
    session: the mount effect runs, its timer of 500 ms fires, the user
    types the device id and presses the button. *)
Definition session_start : list (Platform * Event) :=
  [(phone, ev_effect); (phone, ev_encryption); (phone, ev_changeText dev42);
   (phone, ev_press)].

Definition in_session : Remote := state_of (run session_start (initial true 0)).

(** [{candidate: "candidate", sdpMid: "0", sdpMLineIndex: 0}] *)
Definition host_candidate : Candidate :=
  mkCandidate [99; 97; 110; 100; 105; 100; 97; 116; 101] (Some [48]) (Some 0).

Definition pair (seconds : float) : Report :=
  mkReport "candidate-pair" "succeeded" (Some seconds).

End Scenario.

(** ** The UTF-8 decoder inside a sequence *)

Module Encoding.

Import JS.

(** An entry of a [Uint8Array]. *)
Definition octet (b : Z) : Prop := 0 <= b < 256.

(** [completes r c]: whatever the [r] continuation bytes still to come
    are, the accumulated value [c] is completed to a scalar value. *)
Fixpoint completes (r : nat) (c : Z) : Prop :=
  match r with
  | O => scalar c
  | S r' => 0 <= c /\ forall x, 0 <= x < 64 -> completes r' (c * 64 + x)
  end.

(** The decoder is between two sequences, or it is inside one, its
    boundaries lie in the continuation range, and every byte that it
    accepts next leads to a scalar value. *)
Definition decoder_ok (st : decoder) : Prop :=
  bytes_needed st = 0 \/
  exists r : nat,
    bytes_needed st - bytes_seen st = Z.of_nat (S r) /\
    0x80 <= lower_boundary st /\ upper_boundary st <= 0xBF /\
    forall b, lower_boundary st <= b <= upper_boundary st ->
              completes r (code_point st * 64 + (b - 128)).

(** Code units below 128. *)
Definition ascii_unit (c : Z) : Prop := 0 <= c < 128.

(** A payload with a surrogate pair, a euro sign, an unpaired surrogate
    and a letter. *)
Definition mixed_payload : jsstring := [0xD83D; 0xDE00; 0x20AC; 0xD800; 65].

End Encoding.

(** ** Observations on the life of a session *)

Module Lifecycle.

Import JS Remote.

Definition is_some {A} (o : option A) : bool :=
  match o with Some _ => true | None => false end.

(** Every test and every platform call on the way through [startWebRTC]
    turns out well. *)
Definition can_start (p : Platform) (s : Remote) : bool :=
  negb (isWebPlatform p) && webrtcLoaded s && RTCPeerConnection s && mediaDevices s
  && encryptionReady s && negb (value_of (checkResources p s))
  && is_some (getUserMedia p) && is_some (createOffer p).

Definition is_SetInterval (e : Effect) : bool :=
  match e with SetInterval _ _ => true | _ => false end.

(** The actions by which a session is set up. *)
Definition sets_up (e : Effect) : bool :=
  match e with
  | Invoke _ | IoConnect _ | NewPeerConnection | GetUserMedia _ | AddTracks
  | CreateDataChannel | InstallPcHandlers | CreateOffer | SetInterval _ 10000
  | SetInterval _ 1000 | LogSession _ => true
  | _ => false
  end.

(** Nothing of a session exists. *)
Definition idle (s : Remote) : Prop :=
  isConnected s = false /\ encryptionReady s = false /\ pcRef s = None /\
  dataChannelRef s = None /\ socketRef s = None /\ timerRef s = None /\
  latencyIntervalRef s = None /\ localStream s = None /\ remoteStream s = None.


(** [n] ticks of the one-second interval, each on its own platform
    answers. *)
Definition seconds (ps : list Platform) : list (Platform * Event) :=
  map (fun p => (p, ev_second)) ps.

End Lifecycle.

(** ** [src/app/(tabs)/iot.tsx], component [Remote]: control commands, the
    QR scanner and the [offer] handler *)

Module Control.

Import JS Remote.

Local Open Scope string_scope.
Local Open Scope js_scope.

(** [String.prototype.startsWith] *)
Fixpoint startsWith (prefix s : jsstring) : bool :=
  match prefix, s with
  | [], _ => true
  | a :: prefix', b :: s' => (a =? b)%Z && startsWith prefix' s'
  | _ :: _, [] => false
  end.

(** [String.prototype.split] with a separator of one code unit; the
    result has at least one element. *)
Fixpoint split (sep : Z) (s : jsstring) : list jsstring :=
  match s with
  | [] => [[]]
  | c :: rest =>
      if (c =? sep)%Z then [] :: split sep rest
      else match split sep rest with
           | w :: ws => (c :: w) :: ws
           | [] => [[c]]
           end
  end.

(** [':'], ['iot:'], ['key:'] *)
Definition colon : Z := 58.
Definition iot_prefix : jsstring := [105; 111; 116; 58].
Definition key_prefix : jsstring := [107; 101; 121; 58].

(** The component with the cells that the session handlers leave alone:
    [isScanning] and [iotScenes].  An entry of [iotScenes] is [None] when
    the value pushed is [undefined]. *)
Record Screen := mkScreen {
  session : Remote;
  isScanning : bool;
  iotScenes : list (option jsstring)
}.

Definition with_session (f : Remote -> Remote) (sc : Screen) : Screen :=
  mkScreen (f (session sc)) (isScanning sc) (iotScenes sc).

Definition setIsScanning (v : bool) (sc : Screen) : Screen :=
  mkScreen (session sc) v (iotScenes sc).

Definition setIotScenes (f : list (option jsstring) -> list (option jsstring))
           (sc : Screen) : Screen :=
  mkScreen (session sc) (isScanning sc) (f (iotScenes sc)).

(** [dataChannelRef.current && dataChannelRef.current.readyState === 'open'] *)
Definition channel_open (dc : option DataChannel) : bool :=
  match dc with
  | Some ch => match readyState ch with rs_open => true | _ => false end
  | None => false
  end.

(** [sendControlCommand].  [send_ok] tells whether [dataChannel.send]
    returns or throws; the result is the command that the channel took,
    if it took one. *)
Definition sendControlCommand (send_ok : bool) (command : jsstring) : M (option jsstring) :=
  dc <- read dataChannelRef ;;
  if negb (channel_open dc) then
    update (setErrorMessage "Control channel not ready") ;;
    emit (Speak "Control channel not ready") ;;
    ret None
  else if send_ok then
    logEvent "Control command sent" ;;
    emit (Speak "Sent command:") ;;
    ret (Some command)
  else
    emit (ConsoleError "Command error:") ;;
    update (setErrorMessage "Failed to send command") ;;
    emit (Speak "Command failed") ;;
    ret None.

(** The keyboard field: [sendControlCommand(`key:${text}`)]. *)
Definition onSubmitEditing (send_ok : bool) (text : jsstring) : M (option jsstring) :=
  sendControlCommand send_ok (key_prefix ++ text)%list.

(** [handleIoTCommand] *)
Definition handleIoTCommand (command : jsstring) (sc : Screen) : Screen * list Effect :=
  if startsWith iot_prefix command then
    let action := nth_error (split colon command) 1 in
    (setIotScenes (fun prev => (prev ++ [action])%list) sc,
     [Speak "IoT action:"; LogEvent "IoT command processed"])
  else (sc, []).

(** [handleBarCodeScanned] *)
Definition handleBarCodeScanned (data : jsstring) (sc : Screen) : Screen * list Effect :=
  if negb (truthy data) || jsstring_eqb (trim data) [] then
    (with_session (setErrorMessage "Invalid QR code") sc,
     [Speak "Invalid QR code scanned"; Vibrate])
  else
    (setIsScanning false (with_session (setDeviceId (trim data)) sc),
     [Speak "Device ID set to"; LogEvent "QR code scanned"; Vibrate]).





(** The handler keeps the property [P] of the state. *)
Definition stays {B} (P : Remote -> Prop) (m : M B) : Prop :=
  forall s, P s -> P (state_of (m s)).

(** No data channel is open. *)
Definition channel_shut (s : Remote) : Prop :=
  channel_open (dataChannelRef s) = false.

End Control.

(** ** [src/app/(tabs)/iot.tsx]: the local database helpers, and
    [src/app/src/utils/db.js] *)

Module Storage.

Import JS Remote Control.

(** The values that go through [JSON.stringify] and [JSON.parse] here. *)
Inductive Json :=
| JNull
| JString (s : jsstring)
| JObject (fields : Fields)
with Fields :=
| no_fields
| field (name : string) (value : Json) (rest : Fields).

(** A text held by AsyncStorage: [json j] is the text
    [JSON.stringify(j)], which [JSON.parse] turns back into [j];
    [malformed t] is a text [t] that [JSON.parse] rejects, as it does the
    empty text. *)
Inductive Text :=
| json (j : Json)
| malformed (t : jsstring).

(** AsyncStorage: keys with their texts, in the order in which the keys
    were first written. *)
Definition Store := list (jsstring * Text).

Fixpoint setItem (key : jsstring) (value : Text) (st : Store) : Store :=
  match st with
  | [] => [(key, value)]
  | (k, v) :: rest =>
      if jsstring_eqb k key then (key, value) :: rest
      else (k, v) :: setItem key value rest
  end.

Fixpoint getItem (key : jsstring) (st : Store) : option Text :=
  match st with
  | [] => None
  | (k, v) :: rest => if jsstring_eqb k key then Some v else getItem key rest
  end.

Definition keys_of (st : Store) : list jsstring := map fst st.

(** [keys] is an answer of [AsyncStorage.getAllKeys()]: the keys of the
    store, in an order that the platform chooses. *)
Definition getAllKeys (st : Store) (keys : list jsstring) : Prop :=
  Permutation keys (keys_of st).

(** The decimal digits of an integer, as [`${n}`] and ['' + n] write it. *)
Fixpoint digits (d : Decimal.uint) : jsstring :=
  match d with
  | Decimal.Nil => []
  | Decimal.D0 d => 48 :: digits d
  | Decimal.D1 d => 49 :: digits d
  | Decimal.D2 d => 50 :: digits d
  | Decimal.D3 d => 51 :: digits d
  | Decimal.D4 d => 52 :: digits d
  | Decimal.D5 d => 53 :: digits d
  | Decimal.D6 d => 54 :: digits d
  | Decimal.D7 d => 55 :: digits d
  | Decimal.D8 d => 56 :: digits d
  | Decimal.D9 d => 57 :: digits d
  end.

Definition Number_toString (n : Z) : jsstring :=
  match Z.to_int n with
  | Decimal.Pos d => digits d
  | Decimal.Neg d => 45 :: digits d
  end.

(** ['status_'], ['log_'], ['Unknown Device'] *)
Definition status_prefix : jsstring := [115; 116; 97; 116; 117; 115; 95].
Definition log_prefix : jsstring := [108; 111; 103; 95].
Definition unknown_device : jsstring :=
  [85; 110; 107; 110; 111; 119; 110; 32; 68; 101; 118; 105; 99; 101].

Definition status_key (now : Z) : jsstring := status_prefix ++ Number_toString now.
Definition log_key (now : Z) : jsstring := log_prefix ++ Number_toString now.

(** [{ event, data, timestamp: new Date().toISOString() }] *)
Definition event_payload (event : jsstring) (data : Json) (iso : jsstring) : Json :=
  JObject (field "event" (JString event)
             (field "data" data
                (field "timestamp" (JString iso) no_fields))).

(** [{ client_name: clientName, timestamp: new Date().toISOString() }] *)
Definition session_payload (clientName iso : jsstring) : Json :=
  JObject (field "client_name" (JString clientName)
             (field "timestamp" (JString iso) no_fields)).

(** [logEventLocal]; [iso] is the answer of [new Date().toISOString()].
    A failed write is logged to the console and otherwise ignored. *)
Definition logEventLocal (p : Platform) (iso event : jsstring) (data : Json)
           (st : Store) : Store :=
  if setItem_ok p
  then setItem (log_key (Date_now p)) (json (event_payload event data iso)) st
  else st.

(** [logSessionLocal] *)
Definition logSessionLocal (p : Platform) (iso clientName : jsstring)
           (st : Store) : bool * Store :=
  if setItem_ok p
  then (true, setItem (status_key (Date_now p)) (json (session_payload clientName iso)) st)
  else (false, st).

(** [o.name] on a value that is not [null]; [None] is [undefined]. *)
Fixpoint lookup (name : string) (fields : Fields) : option Json :=
  match fields with
  | no_fields => None
  | field k v rest => if String.eqb k name then Some v else lookup name rest
  end.

Definition get (name : string) (j : Json) : option Json :=
  match j with
  | JObject fields => lookup name fields
  | _ => None
  end.

(** A value in a boolean position. *)
Definition truthy_value (v : option Json) : bool :=
  match v with
  | Some (JString s) => truthy s
  | Some (JObject _) => true
  | Some JNull | None => false
  end.

(** [SessionCardProps] *)
Record SessionCard := mkSessionCard {
  deviceName : Json;
  timestamp : jsstring
}.

(** The callback of [sessions.map]; reading a property of [null] throws
    ([None]).  [toLocaleString] stands for
    [v => new Date(v).toLocaleString()], which depends on the locale. *)
Definition card (toLocaleString : option Json -> jsstring) (s : Json) : option SessionCard :=
  match s with
  | JNull => None
  | _ =>
      Some (mkSessionCard
              (match get "client_name" s with
               | Some v => if truthy_value (Some v) then v else JString unknown_device
               | None => JString unknown_device
               end)
              (toLocaleString (get "timestamp" s)))
  end.

Fixpoint cards (toLocaleString : option Json -> jsstring) (sessions : list Json)
  : option (list SessionCard) :=
  match sessions with
  | [] => Some []
  | s :: rest =>
      match card toLocaleString s, cards toLocaleString rest with
      | Some c, Some cs => Some (c :: cs)
      | _, _ => None
      end
  end.

(** The loop of [fetchPastSessionsLocal]: an empty text (or a key that
    has gone) is skipped, a text that does not parse throws ([None]). *)
Fixpoint parseSessions (keys : list jsstring) (st : Store) : option (list Json) :=
  match keys with
  | [] => Some []
  | key :: rest =>
      match getItem key st with
      | Some (json j) =>
          match parseSessions rest st with
          | Some js => Some (j :: js)
          | None => None
          end
      | Some (malformed []) | None => parseSessions rest st
      | Some (malformed (_ :: _)) => None
      end
  end.

(** [keys.filter(k => k.startsWith('status_'))] *)
Definition sessionKeys (keys : list jsstring) : list jsstring :=
  filter (startsWith status_prefix) keys.

(** [fetchPastSessionsLocal]; [keys] is the answer of [getAllKeys()].
    Whatever is thrown on the way is caught and answered with the empty
    list. *)
Definition fetchPastSessionsLocal (toLocaleString : option Json -> jsstring)
           (keys : list jsstring) (st : Store) : list SessionCard :=
  match parseSessions (sessionKeys keys) st with
  | Some sessions =>
      match cards toLocaleString sessions with
      | Some cs => cs
      | None => []
      end
  | None => []
  end.

(** [db.status_checks.insertOne] of [db.js]: [None] when the write is
    rejected. *)
Definition insertOne (p : Platform) (doc : Json) (st : Store) : option Store :=
  if setItem_ok p
  then Some (setItem (status_key (Date_now p)) (json doc) st)
  else None.

(** The loop of [db.status_checks.find]: every text is parsed;
    [JSON.parse(null)] is [null]. *)
Fixpoint parseDocs (keys : list jsstring) (st : Store) : option (list Json) :=
  match keys with
  | [] => Some []
  | key :: rest =>
      match getItem key st with
      | Some (json j) =>
          match parseDocs rest st with
          | Some js => Some (j :: js)
          | None => None
          end
      | None =>
          match parseDocs rest st with
          | Some js => Some (JNull :: js)
          | None => None
          end
      | Some (malformed _) => None
      end
  end.

(** [db.status_checks.find]; [keys] is the answer of [getAllKeys()].
    Nothing is caught, [None] is a rejection. *)
Definition find (keys : list jsstring) (st : Store) : option (list Json) :=
  parseDocs (sessionKeys keys) st.

(** Both throw, or both answer with the same elements in some order. *)
Definition same_up_to_order {A} (a b : option (list A)) : Prop :=
  match a, b with
  | Some x, Some y => Permutation x y
  | None, None => True
  | _, _ => False
  end.

(** Every text under a [status_] key is empty or the JSON of a value
    other than [null]. *)
Definition readable (kv : jsstring * Text) : Prop :=
  startsWith status_prefix (fst kv) = true ->
  match snd kv with
  | json JNull => False
  | json _ => True
  | malformed t => t = []
  end.

Definition healthy (st : Store) : Prop := Forall readable st.

(** The card under which a session logged for [clientName] is shown. *)
Definition session_card (toLocaleString : option Json -> jsstring)
           (clientName iso : jsstring) : SessionCard :=
  mkSessionCard (JString (if truthy clientName then clientName else unknown_device))
                (toLocaleString (Some (JString iso))).

(** Sessions logged one after the other: for each one the platform
    answers, the ISO time and the client name. *)
Definition log_all (entries : list (Platform * jsstring * jsstring)) (st : Store) : Store :=
  fold_left (fun acc e => snd (logSessionLocal (fst (fst e)) (snd (fst e)) (snd e) acc))
            entries st.

(** A locale that prints the stored text as it is. *)
Definition plain_locale (v : option Json) : jsstring :=
  match v with Some (JString s) => s | _ => [] end.

(** The phone of [Scenario], one millisecond later. *)
Definition phone_later : Platform :=
  mkPlatform android (Some 4096%Q) (Some 0.9%Q) (Some Scenario.camera)
             (Some Scenario.sdp) w3c_addIceCandidate true 100001.

(** ["2026-01-01"] *)
Definition new_year : jsstring := [50; 48; 50; 54; 45; 48; 49; 45; 48; 49].

End Storage.

(** ** [src/app/(tabs)/iot.tsx], component [IoT] *)

Module IoT.

Import JS Remote.

Record Device := mkDevice {
  id : jsstring;
  name : jsstring;
  icon : jsstring;
  type : jsstring;
  status : bool;
  value : option jsstring
}.

Record Scene := mkScene {
  title : jsstring;
  description : jsstring
}.

(** The [useState] cells of the component. *)
Record State := mkState {
  devices : list Device;
  scenes : list Scene;
  showModal : bool;
  newSceneName : jsstring;
  newSceneDescription : jsstring
}.

(** What [Speech.speak] is asked to say. *)
Inductive Spoken :=
| turned (device_name : jsstring) (on : bool)     (* `${name} turned ${on/off}` *)
| activating (scene : jsstring)                   (* `Activating scene: ${title}` *)
| scene_created (scene : jsstring)                (* `Scene created: ${name}` *)
| name_and_description_needed.

Definition setDevices (f : list Device -> list Device) (st : State) : State :=
  mkState (f (devices st)) (scenes st) (showModal st) (newSceneName st)
          (newSceneDescription st).

Definition setScenes (f : list Scene -> list Scene) (st : State) : State :=
  mkState (devices st) (f (scenes st)) (showModal st) (newSceneName st)
          (newSceneDescription st).

Definition setShowModal (v : bool) (st : State) : State :=
  mkState (devices st) (scenes st) v (newSceneName st) (newSceneDescription st).

Definition setNewSceneName (v : jsstring) (st : State) : State :=
  mkState (devices st) (scenes st) (showModal st) v (newSceneDescription st).

Definition setNewSceneDescription (v : jsstring) (st : State) : State :=
  mkState (devices st) (scenes st) (showModal st) (newSceneName st) v.

(** [{ ...device, status: newStatus }] *)
Definition with_status (v : bool) (d : Device) : Device :=
  mkDevice (id d) (name d) (icon d) (type d) v (value d).

(** The callback of [prev.map] in [handleToggle]: the device that takes
    the place of [d], and what is said on the way. *)
Definition toggle (i : jsstring) (d : Device) : Device * list Spoken :=
  if jsstring_eqb (id d) i
  then (with_status (negb (status d)) d, [turned (name d) (negb (status d))])
  else (d, []).

Definition handleToggle (i : jsstring) (st : State) : State * list Spoken :=
  (setDevices (map (fun d => fst (toggle i d))) st,
   flat_map (fun d => snd (toggle i d)) (devices st)).

Definition handleActivateScene (t : jsstring) (st : State) : State * list Spoken :=
  (st, [activating t]).

Definition handleCreateScene (st : State) : State * list Spoken :=
  if truthy (newSceneName st) && truthy (newSceneDescription st) then
    (setNewSceneDescription []
       (setNewSceneName []
          (setShowModal false
             (setScenes (fun prev => prev ++ [mkScene (newSceneName st) (newSceneDescription st)])
                        st))),
     [scene_created (newSceneName st)])
  else (st, [name_and_description_needed]).

(** [devices.filter(d => d.status).length], shown in the header. *)
Definition activeCount (st : State) : nat := List.length (filter status (devices st)).

(** What the user can do on the screen. *)
Inductive Event :=
| press_switch (i : jsstring)
| press_scene (t : jsstring)
| open_modal
| close_modal
| type_name (text : jsstring)
| type_description (text : jsstring)
| press_create.

Definition dispatch (e : Event) (st : State) : State * list Spoken :=
  match e with
  | press_switch i => handleToggle i st
  | press_scene t => handleActivateScene t st
  | open_modal => (setShowModal true st, [])
  | close_modal => (setShowModal false st, [])
  | type_name text => (setNewSceneName text st, [])
  | type_description text => (setNewSceneDescription text st, [])
  | press_create => handleCreateScene st
  end.

Fixpoint run (evs : list Event) (st : State) : State * list Spoken :=
  match evs with
  | [] => (st, [])
  | e :: rest =>
      let '(st1, t1) := dispatch e st in
      let '(st2, t2) := run rest st1 in
      (st2, t1 ++ t2)
  end.

(** A scene with a name and a description. *)
Definition named (sc : Scene) : Prop :=
  title sc <> [] /\ description sc <> [].

(** The state at first render: six devices with the ids ["1"] to ["6"]
    and three scenes. *)
Definition initial : State :=
  mkState
    [
     (* 1, Living Light, bulb, Smart Light *)
     mkDevice [49]
       [76; 105; 118; 105; 110; 103; 32; 76; 105; 103; 104; 116]
       [98; 117; 108; 98]
       [83; 109; 97; 114; 116; 32; 76; 105; 103; 104; 116]
       true None;
     (* 2, Front Door, lock-closed, Smart Lock *)
     mkDevice [50]
       [70; 114; 111; 110; 116; 32; 68; 111; 111; 114]
       [108; 111; 99; 107; 45; 99; 108; 111; 115; 101; 100]
       [83; 109; 97; 114; 116; 32; 76; 111; 99; 107]
       false (Some [76; 111; 99; 107; 101; 100]);
     (* 3, Bedroom AC, snow, Thermostat *)
     mkDevice [51]
       [66; 101; 100; 114; 111; 111; 109; 32; 65; 67]
       [115; 110; 111; 119]
       [84; 104; 101; 114; 109; 111; 115; 116; 97; 116]
       true (Some [50; 50; 176; 67]);
     (* 4, Kitchen Fan, refresh-circle, Smart Fan *)
     mkDevice [52]
       [75; 105; 116; 99; 104; 101; 110; 32; 70; 97; 110]
       [114; 101; 102; 114; 101; 115; 104; 45; 99; 105; 114; 99; 108; 101]
       [83; 109; 97; 114; 116; 32; 70; 97; 110]
       false None;
     (* 5, Door Sensor, alert-circle, Sensor *)
     mkDevice [53]
       [68; 111; 111; 114; 32; 83; 101; 110; 115; 111; 114]
       [97; 108; 101; 114; 116; 45; 99; 105; 114; 99; 108; 101]
       [83; 101; 110; 115; 111; 114]
       true (Some [67; 108; 111; 115; 101; 100]);
     (* 6, Camera, videocam, Security *)
     mkDevice [54]
       [67; 97; 109; 101; 114; 97]
       [118; 105; 100; 101; 111; 99; 97; 109]
       [83; 101; 99; 117; 114; 105; 116; 121]
       true None
    ]
    [
     (* Lights Off at 10 PM / Turn off all lights at 10 PM daily *)
     mkScene
       [76; 105; 103; 104; 116; 115; 32; 79; 102; 102; 32; 97; 116; 32; 49; 48; 32; 80; 77]
       [84; 117; 114; 110; 32; 111; 102; 102; 32; 97; 108; 108; 32; 108; 105; 103; 104; 116; 115; 32; 97; 116; 32; 49; 48; 32; 80; 77; 32; 100; 97; 105; 108; 121];
     (* Good Morning / Open blinds, turn on lights at 7 AM *)
     mkScene
       [71; 111; 111; 100; 32; 77; 111; 114; 110; 105; 110; 103]
       [79; 112; 101; 110; 32; 98; 108; 105; 110; 100; 115; 44; 32; 116; 117; 114; 110; 32; 111; 110; 32; 108; 105; 103; 104; 116; 115; 32; 97; 116; 32; 55; 32; 65; 77];
     (* Away Mode / Lock doors, turn off lights when leaving *)
     mkScene
       [65; 119; 97; 121; 32; 77; 111; 100; 101]
       [76; 111; 99; 107; 32; 100; 111; 111; 114; 115; 44; 32; 116; 117; 114; 110; 32; 111; 102; 102; 32; 108; 105; 103; 104; 116; 115; 32; 119; 104; 101; 110; 32; 108; 101; 97; 118; 105; 110; 103]
    ]
    false [] [].

End IoT.

(** ** [src/app/(tabs)/iot.tsx], component [VirtualizationHub] *)

Module VirtualizationHub.

Import JS Remote.

Local Open Scope string_scope.

Inductive EmulatorPlatform := emu_android | emu_ios.

Definition EmulatorPlatform_eqb (a b : EmulatorPlatform) : bool :=
  match a, b with
  | emu_android, emu_android | emu_ios, emu_ios => true
  | _, _ => false
  end.

Inductive EmulatorStatus :=
  available | downloading | installed | emu_running | emu_error.

Record Emulator := mkEmulator {
  emu_id : jsstring;
  platform : EmulatorPlatform;
  version : jsstring;
  emu_status : EmulatorStatus;
  ramRequired : Q;
  downloadSize : Q
}.

(** The cells of the component that the emulator and OS handlers use. *)
Record State := mkState {
  showAddModal : bool;
  ramAllocation : Q;
  osName : jsstring;
  emulators : list Emulator;
  hostRam : Q
}.

(** [useState(false)], [useState(512)], [useState('')], [useState([])],
    [useState(6144)] *)
Definition initial : State := mkState false 512 [] [] 6144.

Inductive Action :=
| Speak (text : string)
| Alert (title : string)
| Fetch (method path : string)
| SetTimeout (ms : Z).

Definition setEmulators (f : list Emulator -> list Emulator) (st : State) : State :=
  mkState (showAddModal st) (ramAllocation st) (osName st) (f (emulators st)) (hostRam st).

(** [e.ramRequired <= 4096 && hostRam >= e.ramRequired] *)
Definition compatible (hostRam : Q) (e : Emulator) : bool :=
  Qle_bool (ramRequired e) 4096 && Qle_bool (ramRequired e) hostRam.

(** [fetchEmulators]; [response] is the parsed body, [None] when the
    request fails or the answer is not ok. *)
Definition fetchEmulators (response : option (list Emulator)) (st : State)
  : State * list Action :=
  match response with
  | Some data =>
      (setEmulators (fun _ => filter (compatible (hostRam st)) data) st,
       [Fetch "GET" "/emulators"])
  | None =>
      (st, [Fetch "GET" "/emulators"; Alert "Error"; Speak "Failed to fetch emulators"])
  end.

(** [handleAddOS]; [ok] tells whether the request is answered with ok. *)
Definition handleAddOS (ok : bool) (st : State) : State * list Action :=
  if negb (truthy (osName st)) || Qltb (ramAllocation st) 500 then
    (st, [Speak "Please provide a valid OS name and RAM allocation"])
  else if ok then
    (mkState false 512 [] (emulators st) (hostRam st),
     [Fetch "POST" "/os_environments"; Speak "Added"; Fetch "GET" "/os_environments"])
  else
    (st, [Fetch "POST" "/os_environments"; Alert "Error"; Speak "error.message"]).

(** [{ ...e, status: 'downloading' }] *)
Definition mark_downloading (e : Emulator) : Emulator :=
  mkEmulator (emu_id e) (platform e) (version e) downloading (ramRequired e)
             (downloadSize e).

Definition proceedDownload (ok : bool) (pf : EmulatorPlatform) (v : jsstring)
           (st : State) : State * list Action :=
  if ok then
    (setEmulators (map (fun e => if jsstring_eqb (version e) v
                                 then mark_downloading e else e)) st,
     [Fetch "POST" "/emulators/download"; Speak "Downloading"; SetTimeout 5000])
  else
    (st, [Fetch "POST" "/emulators/download"; Alert "Error"; Speak "error.message"]).

Definition handleDownloadEmulator (ok : bool) (pf : EmulatorPlatform) (v : jsstring)
           (st : State) : State * list Action :=
  if Qltb (hostRam st) 6000 then (st, [Alert "RAM Warning"])
  else proceedDownload ok pf v st.

Definition getAvailableVersions (pf : EmulatorPlatform) (st : State) : list jsstring :=
  map version (filter (fun e => EmulatorPlatform_eqb (platform e) pf) (emulators st)).

(** What happens to the component: requests are answered, the user
    types, moves the slider and presses buttons. *)
Inductive Event :=
| emulators_fetched (response : option (list Emulator))
| name_typed (text : jsstring)
| slider_moved (v : Q)
| add_pressed
| add_cancelled
| add_confirmed (ok : bool)
| download_pressed (ok : bool) (pf : EmulatorPlatform) (v : jsstring)
| warning_confirmed (ok : bool) (pf : EmulatorPlatform) (v : jsstring).

Definition dispatch (e : Event) (st : State) : State * list Action :=
  match e with
  | emulators_fetched response => fetchEmulators response st
  | name_typed text =>
      (mkState (showAddModal st) (ramAllocation st) text (emulators st) (hostRam st), [])
  | slider_moved v =>
      (mkState (showAddModal st) v (osName st) (emulators st) (hostRam st), [])
  | add_pressed =>
      (mkState true (ramAllocation st) (osName st) (emulators st) (hostRam st), [])
  | add_cancelled =>
      (mkState false (ramAllocation st) (osName st) (emulators st) (hostRam st), [])
  | add_confirmed ok => handleAddOS ok st
  | download_pressed ok pf v => handleDownloadEmulator ok pf v st
  | warning_confirmed ok pf v => proceedDownload ok pf v st
  end.

Fixpoint run (evs : list Event) (st : State) : State * list Action :=
  match evs with
  | [] => (st, [])
  | e :: rest =>
      let '(st1, t1) := dispatch e st in
      let '(st2, t2) := run rest st1 in
      (st2, (t1 ++ t2)%list)
  end.

(** The emulator needs at most 4096 MB. *)
Definition light (e : Emulator) : Prop := (ramRequired e <= 4096)%Q.

End VirtualizationHub.

(** ** [src/app/onboarding.tsx]: the device diagnostics *)

Module Onboarding.

Import JS Remote.

(** What [runDiagnostics] measures.  [totalBytes] is [Device.totalMemory]
    or, failing that, the answer of [DeviceInfo.getTotalMemory()], [None]
    when neither gives a number; [benchDuration] is the time of the
    benchmark loop in milliseconds; [freeStorageGB] is the free storage
    found; [random] is the answer of [Math.random()], a double;
    [cpuNumber] is what [parseFloat] later makes of the processor text. *)
Record Measurements := mkMeasurements {
  totalBytes : option Q;
  benchDuration : Z;
  freeStorageGB : Q;
  random : float;
  cpuNumber : option Q
}.

(** [Math.round(x * 10) / 10] *)
Definition round1 (x : Q) : Q := (inject_Z (Math_round (x * 10)) / 10)%Q.

(** [1024 * 1024 * 1024] *)
Definition GiB : Q := 1073741824.

Definition ramGB (m : Measurements) : Q :=
  match totalBytes m with
  | Some bytes => round1 (bytes / GiB)
  | None => 0
  end.

Definition ramPass (m : Measurements) : bool := Qle_bool 6 (ramGB m).

(** [Math.max(0, Math.round(100 - benchDuration / 30))] *)
Definition cpuScore (m : Measurements) : Z :=
  Z.max 0 (Math_round (100 - inject_Z (benchDuration m) / 30)).

Definition cpuPass (m : Measurements) : bool := cpuScore m >? 35.


(** [Math.floor(30 + Math.random() * 8)], in doubles. *)
Definition thermalTemp (m : Measurements) : float :=
  Math_floor (30 + random m * 8)%float.

Definition thermalPass (m : Measurements) : bool := (thermalTemp m <=? 38)%float.





(** What [setDiagnostics] hands to the context, as the remote screen
    reads it: [ram], the number in [cpu], [thermal]. *)
Definition diagnostics_of (m : Measurements) : DiagnosticResult :=
  mkDiagnosticResult (ramGB m) (cpuNumber m) (thermalTemp m).

(** A phone with 4 GiB whose benchmark took 0.9 s. *)
Definition four_gigabytes : Measurements :=
  mkMeasurements (Some 4294967296%Q) 900 (32%Q) 0.5 None.

End Onboarding.

(** ** Traffic on the signaling socket *)

Module Traffic.

Import JS Remote Scenario.

Definition is_SocketEmit (e : Effect) : bool :=
  match e with SocketEmit _ => true | _ => false end.

(** A run that comes to every place where the component would send: the
    start of a session (the offer), a local ICE candidate, and a failed
    connection reported by both callbacks. *)
Definition emit_sites : list (Platform * Event) :=
  (session_start
   ++ [(phone, ev_icecandidate (Some host_candidate));
       (phone, ev_connectionstatechange cs_failed);
       (phone, ev_iceconnectionstatechange ice_failed)])%list.

End Traffic.

(** * Theorems *)

(** ** UTF-8: decoding inverts encoding on scalar values *)

Section Utf8.
Import JS.

Lemma land_low_bits (x : Z) (n : Z) :
  0 <= n -> Z.land x (2 ^ n - 1) = x mod 2 ^ n.
Proof.
  intros Hn. replace (2 ^ n - 1) with (Z.ones n).
  - apply Z.land_ones; assumption.
  - rewrite Z.ones_equiv. lia.
Qed.

Lemma lor_disjoint_add (a b n : Z) :
  0 <= n -> 0 <= b < 2 ^ n -> Z.lor (a * 2 ^ n) b = a * 2 ^ n + b.
Proof.
  intros Hn Hb.
  assert (Hland : Z.land (a * 2 ^ n) b = 0).
  { apply Z.bits_inj'. intros i Hi.
    rewrite Z.land_spec, Z.bits_0.
    destruct (Z_lt_le_dec i n) as [Hlt | Hge].
    - rewrite Z.mul_pow2_bits_low by lia. reflexivity.
    - replace b with (b mod 2 ^ n) by (apply Z.mod_small; lia).
      rewrite Z.mod_pow2_bits_high by lia. apply andb_false_r. }
  rewrite <- Z.lxor_lor by assumption.
  symmetry. apply Z.add_nocarry_lxor. assumption.
Qed.

Lemma continuation_arith (cp k : Z) :
  0 <= k -> continuation cp k = 128 + (cp / 2 ^ (6 * k)) mod 64.
Proof.
  intros Hk. unfold continuation.
  rewrite Z.shiftr_div_pow2 by lia.
  change 63 with (2 ^ 6 - 1). rewrite land_low_bits by lia.
  change 128 with (2 * 2 ^ 6).
  apply lor_disjoint_add; [lia|].
  apply Z.mod_pos_bound. lia.
Qed.

Lemma accumulate_arith (a b : Z) :
  128 <= b <= 191 ->
  Z.lor (Z.shiftl a 6) (Z.land b 63) = a * 64 + (b - 128).
Proof.
  intros Hb. rewrite Z.shiftl_mul_pow2 by lia.
  change 63 with (2 ^ 6 - 1). rewrite land_low_bits by lia.
  rewrite lor_disjoint_add; [| lia | apply Z.mod_pos_bound; lia].
  change (2 ^ 6) with 64.
  assert (b mod 64 = b - 128); [| lia].
  symmetry. apply Z.mod_unique with (q := 2); lia.
Qed.

Lemma land_lead (b off n : Z) :
  0 <= n -> off mod 2 ^ n = 0 -> off <= b < off + 2 ^ n ->
  Z.land b (2 ^ n - 1) = b - off.
Proof.
  intros Hn Hoff Hb. rewrite land_low_bits by assumption.
  assert (Hp : 0 < 2 ^ n) by (apply Z.pow_pos_nonneg; lia).
  symmetry. apply Z.mod_unique with (q := off / 2 ^ n); [lia|].
  pose proof (Z.div_mod off (2 ^ n)). lia.
Qed.

Lemma decode_init_cons (b : Z) (rest : list Z) :
  utf8_decode decoder_init (b :: rest) =
  fst (lead_byte b) ++ utf8_decode (snd (lead_byte b)) rest.
Proof. simpl. destruct (lead_byte b). reflexivity. Qed.

Lemma decode_continue (st : decoder) (b : Z) (rest : list Z) :
  bytes_needed st <> 0 ->
  lower_boundary st <= b <= upper_boundary st ->
  utf8_decode st (b :: rest) =
  let cp := Z.lor (Z.shiftl (code_point st) 6) (Z.land b 63) in
  if bytes_seen st + 1 =? bytes_needed st
  then cp :: utf8_decode decoder_init rest
  else utf8_decode (mkDecoder cp (bytes_seen st + 1) (bytes_needed st) 128 191) rest.
Proof.
  intros Hn [Hl Hu]. simpl.
  destruct (Z.eqb_spec (bytes_needed st) 0); [contradiction|].
  apply Z.leb_le in Hl, Hu. rewrite Hl, Hu. reflexivity.
Qed.



Ltac leb_true := rewrite ?andb_true_iff, ?Z.leb_le; lia.
Ltac leb_false := rewrite ?andb_false_iff, ?Z.leb_gt; lia.

Lemma lead_byte_ascii b : 0 <= b <= 127 -> lead_byte b = ([b], decoder_init).
Proof.
  intros H. unfold lead_byte.
  replace ((0 <=? b) && (b <=? 127)) with true by (symmetry; leb_true).
  reflexivity.
Qed.

Lemma lead_byte_2 b :
  194 <= b <= 223 -> lead_byte b = ([], mkDecoder (b - 192) 0 1 128 191).
Proof.
  intros H. unfold lead_byte.
  replace ((0 <=? b) && (b <=? 127)) with false by (symmetry; leb_false).
  replace ((194 <=? b) && (b <=? 223)) with true by (symmetry; leb_true).
  change 31 with (2 ^ 5 - 1). rewrite (land_lead b 192 5) by (try reflexivity; lia).
  reflexivity.
Qed.

Lemma lead_byte_3 b :
  224 <= b <= 239 ->
  lead_byte b = ([], mkDecoder (b - 224) 0 2
                       (if b =? 224 then 160 else 128) (if b =? 237 then 159 else 191)).
Proof.
  intros H. unfold lead_byte.
  replace ((0 <=? b) && (b <=? 127)) with false by (symmetry; leb_false).
  replace ((194 <=? b) && (b <=? 223)) with false by (symmetry; leb_false).
  replace ((224 <=? b) && (b <=? 239)) with true by (symmetry; leb_true).
  change 15 with (2 ^ 4 - 1). rewrite (land_lead b 224 4) by (try reflexivity; lia).
  reflexivity.
Qed.

Lemma lead_byte_4 b :
  240 <= b <= 244 ->
  lead_byte b = ([], mkDecoder (b - 240) 0 3
                       (if b =? 240 then 144 else 128) (if b =? 244 then 143 else 191)).
Proof.
  intros H. unfold lead_byte.
  replace ((0 <=? b) && (b <=? 127)) with false by (symmetry; leb_false).
  replace ((194 <=? b) && (b <=? 223)) with false by (symmetry; leb_false).
  replace ((224 <=? b) && (b <=? 239)) with false by (symmetry; leb_false).
  replace ((240 <=? b) && (b <=? 244)) with true by (symmetry; leb_true).
  change 7 with (2 ^ 3 - 1). rewrite (land_lead b 240 3) by (try reflexivity; lia).
  reflexivity.
Qed.

Lemma decode_encode_cp (cp : Z) (rest : list Z) :
  scalar cp ->
  utf8_decode decoder_init (utf8_encode_cp cp ++ rest) =
  cp :: utf8_decode decoder_init rest.
Proof.
  intros Hs. unfold scalar in Hs. unfold utf8_encode_cp.
  destruct (Z.leb_spec cp 127) as [H1 | H1].
  { cbn [app]. rewrite decode_init_cons, lead_byte_ascii by lia. reflexivity. }
  destruct (Z.leb_spec cp 2047) as [H2 | H2].
  { rewrite !continuation_arith by lia. rewrite Z.shiftr_div_pow2 by lia.
    change (2 ^ (6 * 0)) with 1. change (2 ^ 6) with 64. rewrite Z.div_1_r.
    cbn [app].
    rewrite decode_init_cons, lead_byte_2 by (Z.div_mod_to_equations; lia).
    cbn [fst snd app].
    rewrite decode_continue;
      cbn [bytes_needed lower_boundary upper_boundary bytes_seen code_point];
      [| lia | Z.div_mod_to_equations; lia].
    cbv zeta. change (0 + 1 =? 1) with true. cbv iota.
    rewrite accumulate_arith by (Z.div_mod_to_equations; lia).
    f_equal. Z.div_mod_to_equations; lia. }
  destruct (Z.leb_spec cp 65535) as [H3 | H3].
  { rewrite !continuation_arith by lia. rewrite Z.shiftr_div_pow2 by lia.
    change (2 ^ (6 * 0)) with 1. change (2 ^ (6 * 1)) with 64.
    change (2 ^ 12) with 4096. rewrite Z.div_1_r.
    cbn [app].
    rewrite decode_init_cons, lead_byte_3 by (Z.div_mod_to_equations; lia).
    cbn [fst snd app].
    rewrite decode_continue;
      cbn [bytes_needed lower_boundary upper_boundary bytes_seen code_point];
      [| lia | ].
    2:{ destruct (Z.eqb_spec (cp / 4096 + 224) 224);
        destruct (Z.eqb_spec (cp / 4096 + 224) 237);
        Z.div_mod_to_equations; lia. }
    cbv zeta. change (0 + 1 =? 2) with false. cbv iota.
    rewrite accumulate_arith by (Z.div_mod_to_equations; lia).
    rewrite decode_continue;
      cbn [bytes_needed lower_boundary upper_boundary bytes_seen code_point];
      [| lia | Z.div_mod_to_equations; lia].
    cbv zeta. change (0 + 1 + 1 =? 2) with true. cbv iota.
    rewrite accumulate_arith by (Z.div_mod_to_equations; lia).
    f_equal. Z.div_mod_to_equations; lia. }
  { rewrite !continuation_arith by lia. rewrite Z.shiftr_div_pow2 by lia.
    change (2 ^ (6 * 0)) with 1. change (2 ^ (6 * 1)) with 64.
    change (2 ^ (6 * 2)) with 4096.
    change (2 ^ 18) with 262144. rewrite Z.div_1_r.
    cbn [app].
    rewrite decode_init_cons, lead_byte_4 by (Z.div_mod_to_equations; lia).
    cbn [fst snd app].
    rewrite decode_continue;
      cbn [bytes_needed lower_boundary upper_boundary bytes_seen code_point];
      [| lia | ].
    2:{ destruct (Z.eqb_spec (cp / 262144 + 240) 240);
        destruct (Z.eqb_spec (cp / 262144 + 240) 244);
        Z.div_mod_to_equations; lia. }
    cbv zeta. change (0 + 1 =? 3) with false. cbv iota.
    rewrite accumulate_arith by (Z.div_mod_to_equations; lia).
    rewrite decode_continue;
      cbn [bytes_needed lower_boundary upper_boundary bytes_seen code_point];
      [| lia | Z.div_mod_to_equations; lia].
    cbv zeta. change (0 + 1 + 1 =? 3) with false. cbv iota.
    rewrite accumulate_arith by (Z.div_mod_to_equations; lia).
    rewrite decode_continue;
      cbn [bytes_needed lower_boundary upper_boundary bytes_seen code_point];
      [| lia | Z.div_mod_to_equations; lia].
    cbv zeta. change (0 + 1 + 1 + 1 =? 3) with true. cbv iota.
    rewrite accumulate_arith by (Z.div_mod_to_equations; lia).
    f_equal. Z.div_mod_to_equations; lia. }
Qed.


Lemma decode_encode (l : list Z) :
  Forall scalar l -> utf8_decode decoder_init (utf8_encode l) = l.
Proof.
  induction 1 as [| cp l Hcp _ IH]; [reflexivity|].
  unfold utf8_encode in *. cbn [flat_map].
  rewrite decode_encode_cp by assumption. now rewrite IH.
Qed.

Lemma surrogate_split (c : Z) :
  is_lead c = false -> is_trail c = false -> c < 0xD800 \/ 0xDFFF < c.
Proof.
  unfold is_lead, is_trail.
  rewrite !andb_false_iff, !Z.leb_gt. lia.
Qed.

Lemma pair_value (c d : Z) :
  is_lead c = true -> is_trail d = true ->
  let cp := 0x10000 + Z.shiftl (c - 0xD800) 10 + (d - 0xDC00) in
  scalar cp /\ of_scalar cp = [c; d] /\ cp <> 0xFEFF.
Proof.
  unfold is_lead, is_trail. rewrite !andb_true_iff, !Z.leb_le.
  intros [Hc1 Hc2] [Hd1 Hd2]. cbv zeta.
  rewrite Z.shiftl_mul_pow2 by lia. change (2 ^ 10) with 1024.
  split; [unfold scalar; lia|]. split; [| lia].
  unfold of_scalar.
  destruct (Z.leb_spec (65536 + (c - 55296) * 1024 + (d - 56320)) 65535); [lia|].
  rewrite Z.shiftr_div_pow2 by lia.
  change 1023 with (2 ^ 10 - 1). rewrite land_low_bits by lia.
  change (2 ^ 10) with 1024.
  f_equal; [| f_equal]; Z.div_mod_to_equations; lia.
Qed.

Lemma single_value (c : Z) :
  code_unit c -> is_lead c = false -> is_trail c = false ->
  scalar c /\ of_scalar c = [c].
Proof.
  intros Hc Hl Ht. destruct (surrogate_split c Hl Ht); unfold code_unit in Hc.
  all: split; [unfold scalar; lia|].
  all: unfold of_scalar; destruct (Z.leb_spec c 65535); [reflexivity | lia].
Qed.

(** [to_scalars] consumes one or two code units at a time, hence the
    induction on a bound of the length. *)
Lemma to_scalars_well_formed (n : nat) :
  forall s : jsstring,
    (List.length s <= n)%nat -> Forall code_unit s -> isWellFormed s = true ->
    Forall scalar (to_scalars s) /\ of_scalars (to_scalars s) = s /\
    (hd 0 s <> 0xFEFF -> hd 0 (to_scalars s) <> 0xFEFF).
Proof.
  induction n as [| n IH]; intros s Hlen Hcu Hwf.
  { destruct s; [| cbn in Hlen; lia]. cbn. repeat split; auto. }
  destruct s as [| c rest]; [cbn; repeat split; auto|].
  inversion Hcu as [| ? ? Hc Hrest]; subst.
  cbn [isWellFormed to_scalars] in *.
  destruct (is_lead c) eqn:Hl.
  - destruct rest as [| d tl]; [discriminate|].
    apply andb_true_iff in Hwf as [Ht Hwf]. rewrite Ht.
    inversion Hrest as [| ? ? Hd Htl]; subst.
    destruct (IH tl) as (Hsc & Hof & _); auto; [cbn in Hlen |- *; lia|].
    destruct (pair_value c d Hl Ht) as (Hp1 & Hp2 & Hp3).
    repeat split.
    + constructor; assumption.
    + unfold of_scalars in *. cbn [flat_map]. rewrite Hp2, Hof. reflexivity.
    + intros _. exact Hp3.
  - destruct (is_trail c) eqn:Ht; [discriminate|].
    destruct (IH rest) as (Hsc & Hof & _); auto; [cbn in Hlen; lia|].
    destruct (single_value c Hc Hl Ht) as (Hs1 & Hs2).
    repeat split.
    + constructor; assumption.
    + unfold of_scalars in *. cbn [flat_map]. rewrite Hs2, Hof. reflexivity.
    + cbn [hd]. auto.
Qed.

Lemma strip_bom_id (l : list Z) : hd 0 l <> 0xFEFF -> strip_bom l = l.
Proof.
  destruct l as [| cp rest]; [reflexivity|]. cbn [hd strip_bom]. intros H.
  destruct (Z.eqb_spec cp 65279); [contradiction | reflexivity].
Qed.

(** [TextDecoder.decode] inverts [TextEncoder.encode] on well-formed
    strings that do not begin with a byte order mark. *)
Lemma text_round_trip (s : jsstring) :
  Forall code_unit s -> isWellFormed s = true -> hd 0 s <> 0xFEFF ->
  TextDecoder_decode (TextEncoder_encode s) = s.
Proof.
  intros Hcu Hwf Hbom.
  destruct (to_scalars_well_formed (List.length s) s (le_n _) Hcu Hwf) as (Hsc & Hof & Hhd).
  unfold TextDecoder_decode, TextEncoder_encode.
  rewrite decode_encode by assumption.
  rewrite strip_bom_id by auto. exact Hof.
Qed.

(** The converse: what [to_scalars] does to an arbitrary string. *)
Lemma to_scalars_any (n : nat) :
  forall s : jsstring,
    (List.length s <= n)%nat -> Forall code_unit s ->
    Forall scalar (to_scalars s) /\
    List.length (of_scalars (to_scalars s)) = List.length s /\
    (of_scalars (to_scalars s) = s -> isWellFormed s = true) /\
    (hd 0 s <> 0xFEFF -> hd 0 (to_scalars s) <> 0xFEFF).
Proof.
  assert (Hrep : scalar 0xFFFD) by (unfold scalar; lia).
  induction n as [| n IH]; intros s Hlen Hcu.
  { destruct s; [| cbn in Hlen; lia]. cbn. repeat split; auto. }
  destruct s as [| c rest]; [cbn; repeat split; auto|].
  inversion Hcu as [| ? ? Hc Hrest]; subst.
  assert (Hn : (List.length rest <= n)%nat) by (cbn in Hlen; lia).
  destruct (IH rest Hn Hrest) as (Rsc & Rlen & Rwf & _).
  cbn [isWellFormed to_scalars].
  destruct (is_lead c) eqn:Hl.
  - assert (Hc' : c <> 0xFFFD).
    { unfold is_lead in Hl. apply andb_true_iff in Hl as [_ Hl].
      apply Z.leb_le in Hl. lia. }
    destruct rest as [| d tl].
    { split; [constructor; [exact Hrep | constructor]|].
      split; [reflexivity|].
      split; [cbn; intros H; congruence | cbn; lia]. }
    destruct (is_trail d) eqn:Ht.
    + inversion Hrest as [| ? ? Hd Htl]; subst.
      destruct (IH tl) as (Hsc & Hlen' & Hwf & _); auto; [cbn in Hn; lia|].
      destruct (pair_value c d Hl Ht) as (Hp1 & Hp2 & Hp3).
      unfold of_scalars in *. cbn [flat_map]. rewrite Hp2.
      split; [constructor; assumption|].
      split; [cbn [app List.length]; rewrite Hlen'; reflexivity|].
      split; [| intros _; exact Hp3].
      cbn [app]. intros H. injection H as H. auto.
    + unfold of_scalars in *. cbn [flat_map hd].
      change (of_scalar 65533) with [65533]. cbn [app].
      split; [constructor; assumption|].
      split; [cbn [List.length]; rewrite Rlen; reflexivity|].
      split; [intros H; congruence | lia].
  - destruct (is_trail c) eqn:Ht.
    + assert (Hc' : c <> 0xFFFD).
      { unfold is_trail in Ht. apply andb_true_iff in Ht as [_ Ht].
        apply Z.leb_le in Ht. lia. }
      unfold of_scalars in *. cbn [flat_map hd].
      change (of_scalar 65533) with [65533]. cbn [app].
      split; [constructor; assumption|].
      split; [cbn [List.length]; rewrite Rlen; reflexivity|].
      split; [intros H; congruence | lia].
    + destruct (single_value c Hc Hl Ht) as (Hs1 & Hs2).
      unfold of_scalars in *. cbn [flat_map hd]. rewrite Hs2. cbn [app].
      split; [constructor; assumption|].
      split; [cbn [List.length]; rewrite Rlen; reflexivity|].
      split; [| auto].
      intros H. injection H as H. auto.
Qed.

(** The two conditions of [text_round_trip] are needed. *)
Lemma text_round_trip_only_if (s : jsstring) :
  Forall code_unit s ->
  TextDecoder_decode (TextEncoder_encode s) = s ->
  isWellFormed s = true /\ hd 0 s <> 0xFEFF.
Proof.
  intros Hcu Hrt.
  destruct (to_scalars_any (List.length s) s (le_n _) Hcu) as (Hsc & Hlen & Hwf & Hhd).
  unfold TextDecoder_decode, TextEncoder_encode in Hrt.
  rewrite decode_encode in Hrt by assumption.
  assert (Hbom : hd 0 s <> 0xFEFF).
  { intros Hfe. destruct s as [| c rest]; [cbn in Hfe; lia|].
    cbn [hd] in Hfe. subst c.
    inversion Hcu as [| ? ? _ Hrest]; subst.
    destruct (to_scalars_any (List.length rest) rest (le_n _) Hrest) as (_ & Hlen' & _).
    change (to_scalars (65279 :: rest)) with (65279 :: to_scalars rest) in Hrt.
    cbn [strip_bom] in Hrt. change (65279 =? 65279) with true in Hrt. cbv iota in Hrt.
    apply (f_equal (@List.length Z)) in Hrt. rewrite Hlen' in Hrt. cbn in Hrt. lia. }
  split; [| exact Hbom].
  rewrite strip_bom_id in Hrt by auto. auto.
Qed.

End Utf8.

(** ** The handler monad *)

Section MonadLaws.

Import Remote Handler.

Context {A B : Type}.

Lemma bind_state (m : M A) (k : A -> M B) (s : Remote) :
  state_of (bind m k s) = state_of (k (value_of (m s)) (state_of (m s))).
Proof.
  unfold bind, value_of, state_of.
  destruct (m s) as [[a s1] t1]. cbn.
  destruct (k a s1) as [[b s2] t2]. reflexivity.
Qed.

Lemma bind_trace (m : M A) (k : A -> M B) (s : Remote) :
  trace_of (bind m k s) =
  (trace_of (m s) ++ trace_of (k (value_of (m s)) (state_of (m s))))%list.
Proof.
  unfold bind, value_of, state_of, trace_of.
  destruct (m s) as [[a s1] t1]. cbn.
  destruct (k a s1) as [[b s2] t2]. reflexivity.
Qed.

Lemma bind_run (m : M A) (k : A -> M B) (s s1 : Remote) (a : A) (t1 : list Effect) :
  m s = (a, s1, t1) ->
  bind m k s = (value_of (k a s1), state_of (k a s1), (t1 ++ trace_of (k a s1))%list).
Proof.
  intros E. unfold bind, value_of, state_of, trace_of. rewrite E.
  destruct (k a s1) as [[b s2] t2]. reflexivity.
Qed.

Lemma keeps_bind {C} (f : Remote -> C) (m : M A) (k : A -> M B) :
  keeps f m -> (forall a, keeps f (k a)) -> keeps f (bind m k).
Proof.
  intros Hm Hk s. rewrite bind_state, Hk. apply Hm.
Qed.

Lemma emits_only_bind (P : Effect -> Prop) (m : M A) (k : A -> M B) :
  emits_only P m -> (forall a, emits_only P (k a)) -> emits_only P (bind m k).
Proof.
  intros Hm Hk s. rewrite bind_trace. apply Forall_app. split; [apply Hm | apply Hk].
Qed.

Lemma keeps_ret {C} (f : Remote -> C) (a : A) : keeps f (ret a).
Proof. intros s. reflexivity. Qed.

Lemma keeps_read {C} (f : Remote -> C) (g : Remote -> A) : keeps f (read g).
Proof. intros s. reflexivity. Qed.

Lemma emits_only_ret (P : Effect -> Prop) (a : A) : emits_only P (ret a).
Proof. intros s. constructor. Qed.

Lemma emits_only_read (P : Effect -> Prop) (g : Remote -> A) : emits_only P (read g).
Proof. intros s. constructor. Qed.

End MonadLaws.

Section UnitLaws.

Import Remote Handler.

Lemma keeps_emit {C} (f : Remote -> C) (e : Effect) : keeps f (emit e).
Proof. intros s. reflexivity. Qed.

Lemma keeps_update {C} (f : Remote -> C) (g : Remote -> Remote) :
  (forall s, f (g s) = f s) -> keeps f (update g).
Proof. intros H s. apply H. Qed.

Lemma emits_only_emit (P : Effect -> Prop) (e : Effect) : P e -> emits_only P (emit e).
Proof. intros H s. repeat constructor. exact H. Qed.

Lemma emits_only_update (P : Effect -> Prop) (g : Remote -> Remote) :
  emits_only P (update g).
Proof. intros s. constructor. Qed.

Lemma keeps_forEach {A C} (f : Remote -> C) (g : A -> M unit) (l : list A) :
  (forall x, keeps f (g x)) -> keeps f (forEach g l).
Proof.
  intros Hg. induction l as [| x rest IH]; cbn [forEach].
  - apply keeps_ret.
  - apply keeps_bind; auto.
Qed.

Lemma emits_only_forEach {A} (P : Effect -> Prop) (g : A -> M unit) (l : list A) :
  (forall x, emits_only P (g x)) -> emits_only P (forEach g l).
Proof.
  intros Hg. induction l as [| x rest IH]; cbn [forEach].
  - apply emits_only_ret.
  - apply emits_only_bind; auto.
Qed.

End UnitLaws.

Ltac head_of t :=
  lazymatch t with
  | ?f _ => head_of f
  | _ => t
  end.

(** One step through the syntax of a handler. *)
Ltac handler_step :=
  lazymatch goal with
  | |- Handler.keeps _ (Remote.bind _ _) => apply keeps_bind; [| intro]
  | |- Handler.keeps _ (Remote.ret _) => apply keeps_ret
  | |- Handler.keeps _ (Remote.read _) => apply keeps_read
  | |- Handler.keeps _ (Remote.emit _) => apply keeps_emit
  | |- Handler.keeps _ (Remote.update _) => apply keeps_update; intro; reflexivity
  | |- Handler.emits_only _ (Remote.bind _ _) => apply emits_only_bind; [| intro]
  | |- Handler.emits_only _ (Remote.ret _) => apply emits_only_ret
  | |- Handler.emits_only _ (Remote.read _) => apply emits_only_read
  | |- Handler.emits_only _ (Remote.emit _) =>
      apply emits_only_emit; cbn; first [exact I | discriminate | reflexivity]
  | |- Handler.emits_only _ (Remote.update _) => apply emits_only_update
  | |- Handler.keeps _ (Remote.forEach _ _) => apply keeps_forEach; intro
  | |- Handler.emits_only _ (Remote.forEach _ _) => apply emits_only_forEach; intro
  | |- _ _ (if ?b then _ else _) => destruct b
  | |- _ _ (match ?x with _ => _ end) => destruct x
  | |- _ _ ?m => let h := head_of m in progress unfold h
  end.

Ltac handler := repeat handler_step.

Section StaysLaws.
Import Remote Handler Control.

Context {A B : Type}.

Lemma stays_bind (P : Remote -> Prop) (m : M A) (k : A -> M B) :
  stays P m -> (forall a, stays P (k a)) -> stays P (bind m k).
Proof.
  intros Hm Hk s Hs. rewrite bind_state. apply Hk, Hm, Hs.
Qed.

Lemma stays_ret (P : Remote -> Prop) (a : A) : stays P (ret a).
Proof. intros s Hs. exact Hs. Qed.

Lemma stays_read (P : Remote -> Prop) (g : Remote -> A) : stays P (read g).
Proof. intros s Hs. exact Hs. Qed.

End StaysLaws.

Section StaysUnit.
Import Remote Handler Control.

Lemma stays_emit (P : Remote -> Prop) (e : Effect) : stays P (emit e).
Proof. intros s Hs. exact Hs. Qed.

Lemma stays_update (P : Remote -> Prop) (g : Remote -> Remote) :
  (forall s, P s -> P (g s)) -> stays P (update g).
Proof. intros H s Hs. apply H, Hs. Qed.

Lemma stays_forEach {A} (P : Remote -> Prop) (g : A -> M unit) (l : list A) :
  (forall x, stays P (g x)) -> stays P (forEach g l).
Proof.
  intros Hg. induction l as [| x rest IH]; cbn [forEach].
  - apply stays_ret.
  - apply stays_bind; auto.
Qed.

End StaysUnit.

(** One step through a handler that keeps a property of the state. *)
Ltac shut_step :=
  lazymatch goal with
  | |- Control.stays _ (Remote.bind _ _) => apply stays_bind; [| intro]
  | |- Control.stays _ (Remote.ret _) => apply stays_ret
  | |- Control.stays _ (Remote.read _) => apply stays_read
  | |- Control.stays _ (Remote.emit _) => apply stays_emit
  | |- Control.stays _ (Remote.update _) =>
      apply stays_update; intros ? ?; first [assumption | reflexivity]
  | |- Control.stays _ (Remote.forEach _ _) => apply stays_forEach; intro
  | |- _ _ (if ?b then _ else _) => destruct b
  | |- _ _ (match ?x with _ => _ end) => destruct x
  | |- _ _ ?m => let h := head_of m in progress unfold h
  end.

Ltac shut := repeat shut_step.

Section Preservation.

Import Remote Handler.

Variable p : Platform.

(** [checkResources] only reads. *)
Lemma checkResources_keeps {C} (f : Remote -> C) : keeps f (checkResources p).
Proof. handler. Qed.

End Preservation.

(** ** The resource check and the start of a session *)

Section Admission.

Import JS Remote Handler Scenario.
Local Open Scope string_scope.

Lemma checkResources_state (p : Platform) (s : Remote) :
  state_of (checkResources p s) = s.
Proof. exact (checkResources_keeps p (fun x => x) s). Qed.

Lemma checkResources_value (p : Platform) (s : Remote) (totalRam battery : Q) :
  getTotalRamMb p = Some totalRam -> getBatteryLevelAsync p = Some battery ->
  value_of (checkResources p s) =
  Qgtb (ramUsage totalRam s) 0.8 || num_gt (cpuUsage s) 0.7
  || (Qltb battery 0.2 && PlatformOS_eqb (OS p) android).
Proof.
  intros Hram Hbat. unfold checkResources. rewrite Hram, Hbat.
  unfold bind, read, value_of. cbn.
  destruct (_ || _ || _); reflexivity.
Qed.

(** When a device read fails the check answers "not over the limit". *)
Lemma checkResources_unreadable (p : Platform) (s : Remote) :
  getTotalRamMb p = None \/ getBatteryLevelAsync p = None ->
  value_of (checkResources p s) = false.
Proof.
  intros [H | H]; unfold checkResources; rewrite H;
    [| destruct (getTotalRamMb p)]; reflexivity.
Qed.

Lemma checkResources_quiet (p : Platform) (f : Fn) :
  emits_only (fun e => e <> Invoke f) (checkResources p).
Proof. handler. Qed.

Lemma trim_blank (s : jsstring) :
  forallb isWhiteSpace s = true -> trim s = [].
Proof.
  intros H. unfold trim.
  assert (Hs : trimStart s = []).
  { induction s as [| c rest IH]; [reflexivity|]. cbn in *.
    apply andb_true_iff in H as [Hc Hrest]. rewrite Hc. auto. }
  rewrite Hs. reflexivity.
Qed.

(** The run of [handleStartSession] that stops at the resource gate. *)
Lemma handleStartSession_gate_closed (p : Platform) (s : Remote) :
  isWebPlatform p = false ->
  isConnected s = false ->
  truthy (trim (deviceId s)) = true ->
  value_of (checkResources p s) || thermalWarning s = true ->
  handleStartSession p s =
  (tt, setErrorMessage "Device overloaded" s,
   (trace_of (checkResources p s)
    ++ [Alert "Resource Warning"; Speak "Device overloaded"; Vibrate])%list).
Proof.
  intros Hweb Hidle Hid Hgate.
  pose proof (checkResources_state p s) as Hs.
  unfold handleStartSession. rewrite Hweb.
  unfold bind at 1. unfold read at 1. rewrite Hidle.
  unfold bind at 1. unfold read at 1. rewrite Hid. cbn [negb].
  unfold bind at 1.
  destruct (checkResources p s) as [[over s1] t1]. cbn in Hs, Hgate. subst s1.
  unfold bind at 1. unfold read at 1. rewrite Hgate.
  reflexivity.
Qed.

(** [startWebRTC] before encryption is ready: an error and an
    announcement, nothing else. *)
Lemma startWebRTC_not_ready (p : Platform) (s : Remote) :
  isWebPlatform p = false ->
  webrtcLoaded s = true -> RTCPeerConnection s = true -> mediaDevices s = true ->
  encryptionReady s = false ->
  startWebRTC p s =
  (tt, setErrorMessage "Encryption not ready" s,
   [Invoke fn_startWebRTC; Speak "Please wait for encryption to initialize"]).
Proof.
  intros Hweb Hl Hc Hm Hr. unfold startWebRTC.
  unfold bind at 1. unfold emit at 1.
  unfold bind at 1. unfold read at 1. rewrite Hl.
  unfold bind at 1. unfold read at 1. rewrite Hc.
  unfold bind at 1. unfold read at 1. rewrite Hm, Hweb. cbn [negb orb].
  unfold bind at 1. unfold read at 1. rewrite Hr. reflexivity.
Qed.

(** The run of [startWebRTC] in which nothing fails. *)
Lemma startWebRTC_success
  (p : Platform) (s : Remote) (stream : MediaStream) (offer : jsstring) :
  isWebPlatform p = false ->
  webrtcLoaded s = true -> RTCPeerConnection s = true -> mediaDevices s = true ->
  encryptionReady s = true ->
  value_of (checkResources p s) = false ->
  getUserMedia p = Some stream -> createOffer p = Some offer ->
  latencyIntervalRef (state_of (startWebRTC p s)) = Some true /\
  timerRef (state_of (startWebRTC p s)) = Some true /\
  pcRef (state_of (startWebRTC p s))
  = Some (pc_setLocalDescription offer (pc_install_handlers pc_new)) /\
  localStream (state_of (startWebRTC p s)) = Some stream /\
  In (SetInterval cb_latencyTick 10000) (trace_of (startWebRTC p s)) /\
  In (SetInterval cb_durationTick 1000) (trace_of (startWebRTC p s)).
Proof.
  intros Hweb Hl Hc Hm Hr Hover Hmedia Hoffer.
  pose proof (checkResources_state p s) as Hs.
  destruct (checkResources p s) as [[over s1] t1] eqn:E.
  cbn in Hs, Hover. subst s1 over.
  destruct s as [dg tw ic id ss io kb la du ls rs em er wl pcc md ric pc dc so ti li lp
                 ms pe].
  cbn in Hl, Hc, Hm, Hr. subst wl pcc md er.
  unfold startWebRTC. rewrite Hweb, Hmedia, Hoffer.
  unfold state_of, trace_of.
  cbn -[checkResources]. rewrite !(bind_run (checkResources p) _ _ _ _ _ E).
  destruct io, kb, so; cbn; rewrite ?in_app_iff; cbn; tauto.
Qed.

Lemma handleStartSession_gate_open (p : Platform) (s : Remote) :
  isWebPlatform p = false ->
  isConnected s = false ->
  truthy (trim (deviceId s)) = true ->
  value_of (checkResources p s) || thermalWarning s = false ->
  handleStartSession p s =
  (tt, state_of (start_tail p (deviceId s) s),
   (trace_of (checkResources p s) ++ trace_of (start_tail p (deviceId s) s))%list).
Proof.
  intros Hweb Hidle Hid Hgate.
  pose proof (checkResources_state p s) as Hs.
  unfold handleStartSession. rewrite Hweb.
  unfold bind at 1. unfold read at 1. rewrite Hidle.
  unfold bind at 1. unfold read at 1. rewrite Hid. cbn [negb].
  unfold bind at 1.
  destruct (checkResources p s) as [[over s1] t1]. cbn in Hs, Hgate. subst s1.
  unfold bind at 1. unfold read at 1. rewrite Hgate.
  fold (start_tail p (deviceId s)).
  destruct (start_tail p (deviceId s) s) as [[[] s2] t2]. reflexivity.
Qed.

(** Whatever [startWebRTC] does, the session is marked connected
    afterwards. *)
Lemma start_tail_marks_connected (p : Platform) (id : jsstring) (s : Remote) :
  isConnected (state_of (start_tail p id s)) = true /\
  In (Invoke fn_startWebRTC) (trace_of (start_tail p id s)).
Proof.
  unfold start_tail. split.
  - rewrite bind_state. cbv beta. rewrite bind_state. cbv beta.
    match goal with
    | |- isConnected (state_of (?m (state_of (update _ ?s0)))) = true =>
        assert (Hk : keeps isConnected m) by handler;
        rewrite (Hk (state_of (update (setIsConnected true) s0)))
    end.
    reflexivity.
  - rewrite bind_trace. apply in_or_app. left.
    unfold startWebRTC. rewrite bind_trace.
    apply in_or_app. left. left. reflexivity.
Qed.

(** So the start request marks the session connected whatever
    [startWebRTC] did. *)
Lemma start_marks_connected (p : Platform) (s : Remote) :
  isWebPlatform p = false ->
  isConnected s = false ->
  truthy (trim (deviceId s)) = true ->
  value_of (checkResources p s) || thermalWarning s = false ->
  isConnected (state_of (handleStartSession p s)) = true.
Proof.
  intros Hweb Hidle Hid Hgate.
  rewrite (handleStartSession_gate_open p s Hweb Hidle Hid Hgate).
  apply start_tail_marks_connected.
Qed.

(** C1, as amended.  When both device reads succeed, [checkResources]
    answers "over the limit" for a CPU load above 0.7 and for a RAM usage
    above 0.8.  The thermal warning is not part of [checkResources]; it is
    examined by [handleStartSession] next to the answer of
    [checkResources].  A start request (native platform, no session
    connected, device id not blank) made when the CPU load, the RAM usage or
    the thermal warning is over the limit ends with the error "Device
    overloaded", leaves the rest of the state as it was and never enters
    [startWebRTC]. *)
Theorem start_denied_when_overloaded
  (p : Platform) (s : Remote) (totalRam battery : Q) :
  getTotalRamMb p = Some totalRam ->
  getBatteryLevelAsync p = Some battery ->
  isWebPlatform p = false ->
  isConnected s = false ->
  truthy (trim (deviceId s)) = true ->
  num_gt (cpuUsage s) 0.7 = true \/ Qgtb (ramUsage totalRam s) 0.8 = true
    \/ thermalWarning s = true ->
  (num_gt (cpuUsage s) 0.7 = true \/ Qgtb (ramUsage totalRam s) 0.8 = true ->
   value_of (checkResources p s) = true) /\
  value_of (checkResources p s) || thermalWarning s = true /\
  state_of (handleStartSession p s) = setErrorMessage "Device overloaded" s /\
  ~ In (Invoke fn_startWebRTC) (trace_of (handleStartSession p s)).
Proof.
  intros Hram Hbat Hweb Hidle Hid Hover.
  pose proof (checkResources_value p s _ _ Hram Hbat) as Hv.
  assert (Hgate : value_of (checkResources p s) || thermalWarning s = true).
  { rewrite Hv. destruct Hover as [H | [H | H]]; rewrite H;
      repeat (rewrite ?orb_true_r, ?orb_true_l); reflexivity. }
  split.
  { rewrite Hv. intros [H | H]; rewrite H;
      repeat (rewrite ?orb_true_r, ?orb_true_l); reflexivity. }
  split; [exact Hgate|].
  rewrite (handleStartSession_gate_closed p s Hweb Hidle Hid Hgate).
  split; [reflexivity|].
  unfold trace_of at 1. cbn [snd]. rewrite in_app_iff. intros [Hin | Hin].
  - pose proof (checkResources_quiet p fn_startWebRTC s) as Hq.
    rewrite Forall_forall in Hq. exact (Hq _ Hin eq_refl).
  - cbn in Hin. intuition discriminate.
Qed.

Lemma start_denied_when_overloaded_witness :
  (getTotalRamMb phone = Some 4096%Q /\
   getBatteryLevelAsync phone = Some 0.9%Q /\
   isWebPlatform phone = false /\
   isConnected ready_busy = false /\
   truthy (trim (deviceId ready_busy)) = true /\
   (num_gt (cpuUsage ready_busy) 0.7 = true
    \/ Qgtb (ramUsage 4096 ready_busy) 0.8 = true
    \/ thermalWarning ready_busy = true)) /\
  (num_gt (cpuUsage ready_busy) 0.7 = true
   \/ Qgtb (ramUsage 4096 ready_busy) 0.8 = true ->
   value_of (checkResources phone ready_busy) = true) /\
  value_of (checkResources phone ready_busy) || thermalWarning ready_busy = true /\
  state_of (handleStartSession phone ready_busy)
  = setErrorMessage "Device overloaded" ready_busy /\
  ~ In (Invoke fn_startWebRTC) (trace_of (handleStartSession phone ready_busy)).
Proof.
  assert (Hover : num_gt (cpuUsage ready_busy) 0.7 = true
                  \/ Qgtb (ramUsage 4096 ready_busy) 0.8 = true
                  \/ thermalWarning ready_busy = true) by (left; reflexivity).
  split.
  - repeat split; try reflexivity. exact Hover.
  - apply (start_denied_when_overloaded phone ready_busy 4096 0.9);
      try reflexivity.
    exact Hover.
Defined.

(** C1 as stated fails.  The snapshot has RAM usage 0.1, CPU load 0.9, no
    thermal warning and an unknown battery level (the read rejects):
    [checkResources] answers "not over the limit", the gate of
    [handleStartSession] stays open, and the start request goes on into
    [startWebRTC] and marks the session connected. *)
Lemma admission_counterexample :
  num_gt (cpuUsage ready_busy) 0.7 = true /\
  value_of (checkResources phone_unreadable ready_busy) = false /\
  value_of (checkResources phone_unreadable ready_busy) || thermalWarning ready_busy
  = false /\
  In (Invoke fn_startWebRTC)
     (trace_of (handleStartSession phone_unreadable ready_busy)) /\
  errorMessage (state_of (handleStartSession phone_unreadable ready_busy))
  <> "Device overloaded" /\
  isConnected (state_of (handleStartSession phone_unreadable ready_busy)) = true.
Proof.
  repeat split; try (vm_compute; tauto). vm_compute. discriminate.
Qed.

(** With only the thermal warning set, [checkResources] itself answers
    "not over the limit"; the denial comes from [handleStartSession]. *)
Example thermal_warning_is_checked_by_the_caller :
  thermalWarning ready_hot = true /\
  value_of (checkResources phone ready_hot) = false /\
  state_of (handleStartSession phone ready_hot)
  = setErrorMessage "Device overloaded" ready_hot.
Proof. repeat split. Qed.

(** C2, on the code.  The start button is pressed on a phone with free
    resources before encryption is ready: [startWebRTC] reports "Encryption
    not ready" and creates no peer connection and no offer, yet
    [handleStartSession] goes on, marks the session connected, records it
    in the history and announces it as started. *)
Theorem start_before_encryption_ready :
  encryptionReady typed = false /\
  errorMessage (state_of (handleStartSession phone typed)) = "Encryption not ready" /\
  pcRef (state_of (handleStartSession phone typed)) = None /\
  ~ In NewPeerConnection (trace_of (handleStartSession phone typed)) /\
  ~ In CreateOffer (trace_of (handleStartSession phone typed)) /\
  ~ In (SocketEmit "offer") (trace_of (handleStartSession phone typed)) /\
  isConnected (state_of (handleStartSession phone typed)) = true /\
  In (LogSession dev42) (trace_of (handleStartSession phone typed)) /\
  In (Speak "Session started with") (trace_of (handleStartSession phone typed)).
Proof.
  repeat split; try (vm_compute; tauto);
    vm_compute; intros H; repeat destruct H as [H | H]; discriminate || exact H.
Qed.

(** [initializeEncryption] is called by the mount effect only. *)
Lemma handleStartSession_never_initializes (p : Platform) :
  emits_only (fun e => e <> Invoke fn_initializeEncryption) (handleStartSession p).
Proof. handler. Qed.

Lemma handleEndSession_quiet (f : Fn) :
  emits_only (fun e => e <> Invoke f) handleEndSession.
Proof. handler. Qed.

Lemma handleEndSession_state (s : Remote) :
  state_of (handleEndSession s) = torn_down s.
Proof.
  destruct s as [dg tw ic id ss io kb la du ls rs em er wl pcc md ric pc dc so ti li lp
                 ms pe].
  destruct pc, dc, ls, ti, li; reflexivity.
Qed.

(** C3, as amended.  A press of the button with a blank device id never
    calls [initializeEncryption] or [startWebRTC] and never turns an idle
    component into a connected one; on a native platform, with no session
    connected, it does nothing but set the error "Device ID required" and
    announce it. *)
Theorem blank_device_id_rejected (p : Platform) (s : Remote) :
  forallb isWhiteSpace (deviceId s) = true ->
  ~ In (Invoke fn_initializeEncryption) (trace_of (handleStartSession p s)) /\
  ~ In (Invoke fn_startWebRTC) (trace_of (handleStartSession p s)) /\
  (isConnected s = false -> isConnected (state_of (handleStartSession p s)) = false) /\
  (isWebPlatform p = false -> isConnected s = false ->
   handleStartSession p s =
   (tt, setErrorMessage "Device ID required" s,
    [Speak "Please enter device ID"; Vibrate])).
Proof.
  intros Hblank.
  assert (Hidle : isWebPlatform p = false -> isConnected s = false ->
                  handleStartSession p s =
                  (tt, setErrorMessage "Device ID required" s,
                   [Speak "Please enter device ID"; Vibrate])).
  { intros Hweb Hc. unfold handleStartSession. rewrite Hweb.
    unfold bind at 1. unfold read at 1. rewrite Hc.
    unfold bind at 1. unfold read at 1.
    rewrite (trim_blank _ Hblank). reflexivity. }
  split.
  { pose proof (handleStartSession_never_initializes p s) as H.
    rewrite Forall_forall in H. intros Hin. exact (H _ Hin eq_refl). }
  split; [| split; [| exact Hidle]].
  - destruct (isWebPlatform p) eqn:Hweb.
    { unfold handleStartSession. rewrite Hweb. cbn. intuition discriminate. }
    destruct (isConnected s) eqn:Hc.
    + unfold handleStartSession. rewrite Hweb.
      unfold bind at 1. unfold read at 1. rewrite Hc.
      pose proof (handleEndSession_quiet fn_startWebRTC s) as H.
      rewrite Forall_forall in H. intros Hin.
      destruct (handleEndSession s) as [[u s1] t1]. exact (H _ Hin eq_refl).
    + rewrite Hidle by reflexivity. cbn. intuition discriminate.
  - intros Hc. destruct (isWebPlatform p) eqn:Hweb.
    + unfold handleStartSession. rewrite Hweb. exact Hc.
    + rewrite (Hidle eq_refl Hc). exact Hc.
Qed.

Lemma blank_device_id_rejected_witness :
  forallb isWhiteSpace (deviceId blank) = true /\
  ~ In (Invoke fn_initializeEncryption) (trace_of (handleStartSession phone blank)) /\
  ~ In (Invoke fn_startWebRTC) (trace_of (handleStartSession phone blank)) /\
  (isConnected blank = false ->
   isConnected (state_of (handleStartSession phone blank)) = false) /\
  (isWebPlatform phone = false -> isConnected blank = false ->
   handleStartSession phone blank =
   (tt, setErrorMessage "Device ID required" blank,
    [Speak "Please enter device ID"; Vibrate])).
Proof.
  split; [reflexivity|].
  apply (blank_device_id_rejected phone blank). reflexivity.
Defined.

(** C3 as stated fails in a browser: the press is answered with the
    platform alert, and the error "Device ID required" is not set. *)
Lemma blank_device_id_in_browser :
  forallb isWhiteSpace (deviceId blank) = true /\
  isConnected blank = false /\
  handleStartSession browser blank = (tt, blank, [Alert "Platform Error"]) /\
  errorMessage (state_of (handleStartSession browser blank)) <> "Device ID required".
Proof. repeat split. vm_compute. discriminate. Qed.

End Admission.

(** ** Signaling *)

Section Signaling.

Import JS Remote Handler Scenario.
Local Open Scope string_scope.

Lemma setupSignaling_keeps_socket (p : Platform) : keeps has_socket (setupSignaling p).
Proof.
  intros s. unfold setupSignaling, has_socket, state_of, bind, read, emit, update, ret.
  cbn. destruct (isWebPlatform p), (socketRef s) eqn:E; cbn; rewrite ?E; reflexivity.
Qed.

(** Without a socket, [setupSignaling] stops at its guard. *)
Lemma setupSignaling_without_socket (p : Platform) (s : Remote) :
  socketRef s = None ->
  setupSignaling p s = (tt, s, [Invoke fn_setupSignaling]).
Proof.
  intros H. unfold setupSignaling, bind, read, emit, ret. cbn.
  rewrite H, orb_true_r. reflexivity.
Qed.

(** With a socket, on a native platform, it connects again. *)
Lemma setupSignaling_with_socket (p : Platform) (s : Remote) (sock : Socket) :
  isWebPlatform p = false -> socketRef s = Some sock ->
  In (IoConnect signaling_options) (trace_of (setupSignaling p s)).
Proof.
  intros Hweb H. unfold setupSignaling, bind, read, emit, ret, update, trace_of. cbn.
  rewrite H, Hweb. cbn. right. left. reflexivity.
Qed.

(** No handler makes or drops the socket. *)
Lemma dispatch_keeps_socket (p : Platform) (e : Event) : keeps has_socket (dispatch p e).
Proof.
  destruct e; cbn [dispatch];
    repeat first [apply setupSignaling_keeps_socket | handler_step].
Qed.

End Signaling.

(** *** Handlers run without a socket *)

Section SocketlessLaws.
Import Remote Handler.

Context {A B : Type}.
Variable P : Effect -> Prop.

Lemma socketless_bind (m : M A) (k : A -> M B) :
  socketless P m -> (forall a, socketless P (k a)) -> socketless P (bind m k).
Proof.
  intros Hm Hk s Hs. rewrite bind_state, bind_trace.
  destruct (Hm s Hs) as [H1 H2].
  destruct (Hk (value_of (m s)) _ H1) as [H3 H4].
  split; [exact H3 | apply Forall_app; split; assumption].
Qed.

Lemma socketless_ret (a : A) : socketless P (ret a).
Proof. intros s Hs. split; [exact Hs | constructor]. Qed.

Lemma socketless_read (g : Remote -> A) : socketless P (read g).
Proof. intros s Hs. split; [exact Hs | constructor]. Qed.

End SocketlessLaws.

Section SocketlessUnit.
Import Remote Handler.
Local Open Scope string_scope.

Variable P : Effect -> Prop.

Lemma socketless_emit (e : Effect) : P e -> socketless P (emit e).
Proof. intros He s Hs. split; [exact Hs | repeat constructor; exact He]. Qed.

Lemma socketless_update (g : Remote -> Remote) :
  (forall s, socketRef (g s) = socketRef s) -> socketless P (update g).
Proof.
  intros Hg s Hs. split; [| constructor].
  change (state_of (update g s)) with (g s). rewrite Hg. exact Hs.
Qed.

Lemma socketless_forEach {A} (g : A -> M unit) (l : list A) :
  (forall x, socketless P (g x)) -> socketless P (forEach g l).
Proof.
  intros Hg. induction l as [| x rest IH]; cbn [forEach].
  - apply socketless_ret.
  - apply socketless_bind; auto.
Qed.

(** [socketRef.current?.emit] without a socket. *)
Lemma socketless_socket_emit_opt (event : string) : socketless P (socket_emit_opt event).
Proof.
  intros s Hs. unfold socket_emit_opt, bind, read, state_of, trace_of. cbn.
  rewrite Hs. cbn. split; [exact Hs | constructor].
Qed.

(** [socketRef.current?.disconnect()] without a socket. *)
Lemma socketless_disconnect {B} (k : M B) :
  socketless P k ->
  socketless P (bind (read socketRef)
                     (fun sock => bind (match sock with
                                        | Some _ => emit SocketDisconnect
                                        | None => ret tt
                                        end) (fun _ => k))).
Proof.
  intros Hk s Hs. rewrite bind_state, bind_trace.
  change (value_of (read socketRef s)) with (socketRef s).
  change (state_of (read socketRef s)) with s.
  change (trace_of (read socketRef s)) with (@nil Effect).
  rewrite Hs. cbn [app].
  apply (socketless_bind P (ret tt) (fun _ => k)); [apply socketless_ret | auto | exact Hs].
Qed.

Lemma socketless_setupSignaling (p : Platform) :
  P (Invoke fn_setupSignaling) -> socketless P (setupSignaling p).
Proof.
  intros HP s Hs. rewrite (setupSignaling_without_socket p s Hs).
  split; [exact Hs | repeat constructor; exact HP].
Qed.

(** A handler that is registered on the socket does not run. *)
Lemma socketless_on_socket (m : M unit) :
  socketless P (bind (read has_socket) (fun h => when h m)).
Proof.
  intros s Hs. unfold bind, read, when, has_socket, state_of, trace_of. cbn.
  rewrite Hs. cbn. split; [exact Hs | constructor].
Qed.

End SocketlessUnit.

(** One step through a handler that is run without a socket. *)
Ltac socketless_step :=
  lazymatch goal with
  | |- Handler.socketless _ (Remote.socket_emit_opt _) => apply socketless_socket_emit_opt
  | |- Handler.socketless _ (Remote.setupSignaling _) =>
      apply socketless_setupSignaling; first [exact I | reflexivity]
  | |- Handler.socketless _ (Remote.bind (Remote.read Remote.has_socket) _) =>
      apply socketless_on_socket
  | |- Handler.socketless _ (Remote.bind (Remote.read Remote.socketRef) _) =>
      apply socketless_disconnect
  | |- Handler.socketless _ (Remote.bind _ _) => apply socketless_bind; [| intro]
  | |- Handler.socketless _ (Remote.ret _) => apply socketless_ret
  | |- Handler.socketless _ (Remote.read _) => apply socketless_read
  | |- Handler.socketless _ (Remote.emit _) =>
      apply socketless_emit; first [exact I | reflexivity]
  | |- Handler.socketless _ (Remote.update _) =>
      apply socketless_update; intro; reflexivity
  | |- Handler.socketless _ (Remote.forEach _ _) => apply socketless_forEach; intro
  | |- _ _ (if ?b then _ else _) => destruct b
  | |- _ _ (match ?x with _ => _ end) => destruct x
  | |- _ _ ?m => let h := head_of m in progress unfold h
  end.

Ltac socketless := repeat socketless_step.

Section NoSocket.

Import JS Remote Handler Scenario.
Local Open Scope string_scope.

Lemma run_socketless (P : Effect -> Prop) :
  (forall p e, socketless P (dispatch p e)) ->
  forall evs, socketless P (run evs).
Proof.
  intros Hd evs. induction evs as [| [p e] rest IH]; cbn [run].
  - apply socketless_ret.
  - apply socketless_bind; [apply Hd | intro; exact IH].
Qed.

Lemma dispatch_without_socket (p : Platform) (e : Event) :
  socketless not_connect (dispatch p e).
Proof. destruct e; cbn [dispatch]; socketless. Qed.

Lemma run_without_socket (evs : list (Platform * Event)) (s : Remote) :
  socketRef s = None ->
  socketRef (state_of (run evs s)) = None /\
  Forall not_connect (trace_of (run evs s)).
Proof. apply (run_socketless not_connect dispatch_without_socket evs). Qed.

(** C6, on the code.  [socketRef] starts empty and [setupSignaling]
    returns at its guard whenever it is empty: from the first render on,
    whatever happens, [io] is never called and no socket exists. *)
Theorem signaling_never_connects
  (loaded : bool) (now : Z) (evs : list (Platform * Event)) :
  socketRef (state_of (run evs (initial loaded now))) = None /\
  Forall not_connect (trace_of (run evs (initial loaded now))) /\
  setupSignaling phone (initial loaded now)
  = (tt, initial loaded now, [Invoke fn_setupSignaling]).
Proof.
  destruct (run_without_socket evs (initial loaded now) eq_refl) as [H1 H2].
  repeat split; assumption.
Qed.

End NoSocket.

(** ** The relay fallback *)

Section Relay.

Import JS Remote Handler Scenario.
Local Open Scope string_scope.

Lemma relay_requests_app (a b : list Effect) :
  relay_requests (a ++ b) = (relay_requests a + relay_requests b)%nat.
Proof. unfold relay_requests. rewrite filter_app, length_app. reflexivity. Qed.

Lemma relay_requests_none (t : list Effect) :
  Forall (fun e => is_post e = false) t -> relay_requests t = 0%nat.
Proof.
  unfold relay_requests. induction 1 as [| e t He _ IH]; [reflexivity|].
  cbn. rewrite He. exact IH.
Qed.

(** Only the [ice_failed] handler posts, and it posts once. *)
Lemma dispatch_relay_requests (p : Platform) (e : Event) (s : Remote) :
  relay_requests (trace_of (dispatch p e s)) =
  if has_socket s && is_ice_failed e then 1%nat else 0%nat.
Proof.
  destruct e; cbn [is_ice_failed]; rewrite ?andb_false_r;
    try (apply relay_requests_none;
         match goal with |- Forall ?P (trace_of (?m s)) =>
           assert (H : emits_only P m) by handler; apply H end).
  unfold dispatch, when, on_ice_failed, bind, read, emit, ret, trace_of.
  cbn. destruct (has_socket s); reflexivity.
Qed.

(** The [ice_failed] handler keeps no record of a request that is under
    way: on a component with a socket every [ice_failed] event posts. *)
Lemma relay_request_per_ice_failed (evs : list (Platform * Event)) (s : Remote) :
  relay_requests (trace_of (run evs s)) =
  if has_socket s
  then List.length (filter is_ice_failed (map snd evs))
  else 0%nat.
Proof.
  revert s. induction evs as [| [p e] rest IH]; intros s.
  - cbn. destruct (has_socket s); reflexivity.
  - cbn [run]. rewrite bind_trace, relay_requests_app, dispatch_relay_requests, IH.
    rewrite (dispatch_keeps_socket p e s).
    cbn [map snd filter]. destruct (has_socket s), (is_ice_failed e); reflexivity.
Qed.

(** What the socket would deliver is not received without a socket. *)
Lemma socket_events_ignored (p : Platform) (e : Event) (s : Remote) :
  socketRef s = None -> on_socket e = true -> dispatch p e s = (tt, s, []).
Proof.
  intros Hs He.
  destruct e; try discriminate He; cbn [dispatch];
    unfold bind, read, when, has_socket; rewrite Hs; reflexivity.
Qed.

(** C4.  No second relay request is issued, because none is issued at
    all: from the first render on, whatever events follow and however many
    of them report a failed connection, the component never posts to the
    relay endpoint, so there is at most one request per failed transition.
    A failed transition is answered by the two connection-state callbacks,
    whose [ice_failed] notification has no socket to go to; an [ice_failed]
    event from the signaling server does not reach the component. *)
Theorem no_second_relay_request
        (loaded : bool) (now : Z) (evs : list (Platform * Event)) (p : Platform) :
  let s := state_of (run evs (initial loaded now)) in
  relay_requests (trace_of (run evs (initial loaded now))) = 0%nat /\
  (relay_requests (trace_of (run evs (initial loaded now)))
   <= List.length (filter is_failed_transition (map snd evs)))%nat /\
  relay_requests (trace_of (dispatch p (ev_connectionstatechange cs_failed) s)) = 0%nat /\
  relay_requests (trace_of (dispatch p (ev_iceconnectionstatechange ice_failed) s)) = 0%nat /\
  dispatch p ev_ice_failed s = (tt, s, []).
Proof.
  cbv zeta.
  assert (H0 : relay_requests (trace_of (run evs (initial loaded now))) = 0%nat)
    by (rewrite relay_request_per_ice_failed; reflexivity).
  split; [exact H0|]. split; [rewrite H0; apply Nat.le_0_l|].
  destruct (run_without_socket evs (initial loaded now) eq_refl) as [Hs _].
  split; [rewrite dispatch_relay_requests, andb_false_r; reflexivity|].
  split; [rewrite dispatch_relay_requests, andb_false_r; reflexivity|].
  apply socket_events_ignored; [exact Hs | reflexivity].
Qed.

(** Two failures of the connection in a running session, each reported by
    both callbacks: the notifications are dropped and nothing is posted. *)
Example failed_twice_in_session :
  isConnected in_session = true /\
  trace_of (run [(phone, ev_connectionstatechange cs_failed);
                 (phone, ev_iceconnectionstatechange ice_failed);
                 (phone, ev_connectionstatechange cs_failed);
                 (phone, ev_iceconnectionstatechange ice_failed)] in_session)
  = [Speak "Connection lag detected. Falling back.";
     LogEvent "ICE failed; fallback triggered";
     Speak "Connection lag detected. Falling back.";
     LogEvent "ICE failed; fallback triggered"].
Proof. split; reflexivity. Qed.

(** The answer of the relay, on a component that has a socket: a failed
    request only sets an error message. *)
Lemma on_relay_response_failed (s : Remote) (data : option jsstring) :
  on_relay_response None data s =
  (tt, setErrorMessage "Fallback unavailable; retry P2P" s,
   [ConsoleError "Fallback error:"]).
Proof. reflexivity. Qed.

End Relay.

(** ** Remote candidates *)

Section Candidates.

Import JS Remote Handler Scenario Control.
Local Open Scope string_scope.

(** The [ice-candidate] handler has no test of its own for the remote
    description: what becomes of a candidate that it receives is decided by
    [pc.addIceCandidate].  Where that refuses a candidate while no remote
    description is set, the connection and its candidate list are left as
    they were and the refusal is reported as an error. *)
Lemma on_ice_candidate_refused
  (p : Platform) (s : Remote) (c : Candidate) (from : jsstring) :
  (forall pc cand, remoteDescription pc = None -> addIceCandidate p pc cand = None) ->
  no_remote_description s ->
  pcRef (state_of (on_ice_candidate p c from s)) = pcRef s /\
  (state_of (on_ice_candidate p c from s) = s \/
   state_of (on_ice_candidate p c from s) = setErrorMessage "Failed to add ICE candidate" s).
Proof.
  intros Hplatform Hnone. unfold no_remote_description in Hnone.
  unfold on_ice_candidate, bind, read, update, emit, ret, logEvent, state_of, trace_of.
  cbn. destruct (pcRef s) as [conn |] eqn:Hpc; cbn.
  - destruct (jsstring_eqb from (deviceId s)), (RTCIceCandidate s); cbn;
      rewrite ?(Hplatform conn c Hnone); cbn; rewrite ?Hpc; auto.
  - rewrite Hpc. auto.
Qed.






(** In a running session a candidate of the device in [deviceId] is
    dropped like any other. *)
Example candidate_in_session :
  option_map iceCandidates (pcRef in_session) = Some [] /\
  option_map remoteDescription (pcRef in_session) = Some None /\
  dispatch phone (ev_ice_candidate host_candidate dev42) in_session
  = (tt, in_session, []).
Proof. repeat split. Qed.

End Candidates.

(** ** The end of a session *)

Section EndSession.

Import JS Remote Handler Scenario.
Local Open Scope string_scope.

Lemma torn_down_idempotent (s : Remote) : torn_down (torn_down s) = torn_down s.
Proof.
  destruct s as [dg tw ic id ss io kb la du ls rs em er wl pcc md ric pc dc so ti li lp
                 ms pe].
  destruct pc, dc, ti, li; reflexivity.
Qed.

Lemma handleEndSession_trace (s : Remote) :
  trace_of (handleEndSession s) =
  ((match pcRef s with Some _ => [PcClose] | None => [] end)
   ++ (match dataChannelRef s with Some _ => [DcClose] | None => [] end)
   ++ (match localStream s with Some _ => [StopTracks] | None => [] end)
   ++ (match timerRef s with Some _ => [ClearInterval] | None => [] end)
   ++ (match latencyIntervalRef s with Some _ => [ClearInterval] | None => [] end)
   ++ [Speak "Session ended"; LogEvent "Session ended"; Vibrate])%list.
Proof.
  destruct s as [dg tw ic id ss io kb la du ls rs em er wl pcc md ric pc dc so ti li lp
                 ms pe].
  destruct pc, dc, ls, ti, li; reflexivity.
Qed.

(** [handleEndSession] of a render that saw [stream] as [localStream]:
    the state of [handleEndSession], but for [localStream], which is
    cleared only when that render had a stream. *)
Lemma handleEndSession_of_run (stream : option MediaStream) (s : Remote) :
  handleEndSession_of stream s =
  (tt,
   setLocalStream (match stream with Some _ => None | None => localStream s end)
                  (torn_down s),
   ((match pcRef s with Some _ => [PcClose] | None => [] end)
    ++ (match dataChannelRef s with Some _ => [DcClose] | None => [] end)
    ++ (match stream with Some _ => [StopTracks] | None => [] end)
    ++ (match timerRef s with Some _ => [ClearInterval] | None => [] end)
    ++ (match latencyIntervalRef s with Some _ => [ClearInterval] | None => [] end)
    ++ [Speak "Session ended"; LogEvent "Session ended"; Vibrate])%list).
Proof.
  destruct s as [dg tw ic id ss io kb la du ls rs em er wl pcc md ric pc dc so ti li lp
                 ms pe].
  destruct pc, dc, stream, ti, li; reflexivity.
Qed.

Lemma connection_callbacks_keep_state
      (p : Platform) (c : ConnectionState) (ic : IceConnectionState) :
  keeps (fun s => s) (dispatch p (ev_connectionstatechange c)) /\
  keeps (fun s => s) (dispatch p (ev_iceconnectionstatechange ic)).
Proof. split; cbn [dispatch]; handler. Qed.

(** C8, on the code.  A session is started after the mount effect has
    run, and a minute check finds the battery of the Android phone at 10 %.
    The check calls the [handleEndSession] of the render in which the
    effect ran, where [localStream] was still [null]: the session is marked
    not connected, the connection is closed, both intervals are cleared and
    duration and latency are reset, but the tracks are not stopped and
    [localStream] keeps the stream.  The button, pressed in the same state,
    calls the [handleEndSession] of the current render, which does stop the
    tracks and clears [localStream]. *)
Theorem forced_end_leaves_tracks_running :
  let s := in_session in
  let s' := state_of (dispatch phone_low ev_minute s) in
  isConnected s = true /\ localStream s = Some camera /\
  mountedStream s = Some None /\
  value_of (checkResources phone_low s) = true /\
  isConnected s' = false /\
  option_map pc_closed (pcRef s') = Some true /\
  running (timerRef s') = false /\ running (latencyIntervalRef s') = false /\
  duration s' = 0 /\ latency s' = 0%float /\
  ~ In StopTracks (trace_of (dispatch phone_low ev_minute s)) /\
  localStream s' = Some camera /\
  In StopTracks (trace_of (dispatch phone ev_press s)) /\
  localStream (state_of (dispatch phone ev_press s)) = None.
Proof.
  cbv zeta. repeat split; try (vm_compute; tauto).
  vm_compute. intros H. repeat destruct H as [H | H]; discriminate || exact H.
Qed.

End EndSession.

(** ** Health sampling *)

Section Latency.

Import JS Remote Handler Scenario Lifecycle.
Local Open Scope string_scope.

Variable p : Platform.

Lemma find_last (A : Type) (f : A -> bool) (l : list A) (x : A) :
  find f (rev (x :: l)) =
  match find f (rev l) with
  | Some y => Some y
  | None => if f x then Some x else None
  end.
Proof.
  cbn [rev]. generalize (rev l) as m. intros m.
  induction m as [| y m IH]; cbn; [reflexivity|].
  destruct (f y); [reflexivity | exact IH].
Qed.

Lemma forEach_latency (reports : list Report) (s : Remote) :
  latency (state_of (forEach (sample p) reports s)) =
  match last_succeeded reports with
  | Some r => Math_round_double (rtt_ms r)
  | None => latency s
  end.
Proof.
  revert s. induction reports as [| r rest IH]; intros s; [reflexivity|].
  cbn [forEach]. rewrite bind_state, IH.
  unfold last_succeeded. rewrite find_last.
  destruct (find succeeded_pair (rev rest)); [reflexivity|].
  unfold sample. destruct (succeeded_pair r); reflexivity.
Qed.

Lemma latencyTick_keeps_session (stats : option (list Report)) :
  keeps (fun s => (isConnected s, errorMessage s, pcRef s, timerRef s,
                   latencyIntervalRef s))
        (latencyTick p stats).
Proof. handler. Qed.

Lemma can_start_inv (q : Platform) (s : Remote) :
  can_start q s = true ->
  isWebPlatform q = false /\ webrtcLoaded s = true /\ RTCPeerConnection s = true /\
  mediaDevices s = true /\ encryptionReady s = true /\
  value_of (checkResources q s) = false /\
  (exists stream, getUserMedia q = Some stream) /\
  (exists offer, createOffer q = Some offer).
Proof.
  unfold can_start. rewrite !andb_true_iff, !negb_true_iff.
  intros [[[[[[[H1 H2] H3] H4] H5] H6] H7] H8].
  repeat split; try assumption.
  - destruct (getUserMedia q) as [stream |]; [exists stream; reflexivity | discriminate].
  - destruct (createOffer q) as [offer |]; [exists offer; reflexivity | discriminate].
Qed.

(** C9, as amended.  A start in which nothing fails hands the sampler to
    [setInterval] with a period of 10000 ms and keeps the handle in
    [latencyIntervalRef]; a tick of that interval runs the sampler as long
    as the handle is scheduled.  A sample sets the latency to the
    round-trip time of the last succeeded candidate pair among the reports,
    in whole milliseconds as [Math.round] makes them of the product in
    doubles, and leaves it as it was when there is none; a round-trip time
    of 0.085 s gives 85.  A failed sample only logs the error; in both
    cases the session stays as connected as it was. *)
Theorem latency_from_last_succeeded_pair
        (q : Platform) (s0 : Remote) (reports : list Report)
        (stats : option (list Report)) (s : Remote) :
  can_start q s0 = true ->
  In (SetInterval cb_latencyTick 10000) (trace_of (startWebRTC q s0)) /\
  latencyIntervalRef (state_of (startWebRTC q s0)) = Some true /\
  dispatch p (ev_latency stats) s
  = (if running (latencyIntervalRef s) then latencyTick p stats s else (tt, s, [])) /\
  latency (state_of (latencyTick p (Some reports) s)) =
    match last_succeeded reports with
    | Some r => Math_round_double (rtt_ms r)
    | None => latency s
    end /\
  latency (state_of (latencyTick p (Some [pair 0.085]) s)) = 85%float /\
  latencyTick p None s = (tt, s, [ConsoleError "Latency check error:"]) /\
  isConnected (state_of (latencyTick p (Some reports) s)) = isConnected s.
Proof.
  intros Hstart.
  destruct (can_start_inv q s0 Hstart)
    as (H1 & H2 & H3 & H4 & H5 & H6 & [stream H7] & [offer H8]).
  destruct (startWebRTC_success q s0 stream offer H1 H2 H3 H4 H5 H6 H7 H8)
    as (Hl & _ & _ & _ & Hin & _).
  split; [exact Hin|]. split; [exact Hl|].
  split.
  { cbn [dispatch]. unfold bind at 1. unfold read at 1.
    destruct (running (latencyIntervalRef s)); cbn [when];
      [destruct (latencyTick p stats s) as [[[] s1] t1] |]; reflexivity. }
  split; [apply (forEach_latency reports s)|].
  split; [reflexivity|]. split; [reflexivity|].
  pose proof (latencyTick_keeps_session (Some reports) s) as H.
  cbv beta in H. congruence.
Qed.

End Latency.

Section LatencyScenario.

Import JS Remote Handler Scenario Lifecycle.

Lemma latency_from_last_succeeded_pair_witness :
  can_start phone ready = true /\
  In (SetInterval cb_latencyTick 10000) (trace_of (startWebRTC phone ready)) /\
  latencyIntervalRef (state_of (startWebRTC phone ready)) = Some true /\
  dispatch phone (ev_latency None) in_session
  = (if running (latencyIntervalRef in_session)
     then latencyTick phone None in_session else (tt, in_session, [])) /\
  latency (state_of (latencyTick phone (Some [pair 0.085; pair 0.120]) in_session)) =
    match last_succeeded [pair 0.085; pair 0.120] with
    | Some r => Math_round_double (rtt_ms r)
    | None => latency in_session
    end /\
  latency (state_of (latencyTick phone (Some [pair 0.085]) in_session)) = 85%float /\
  latencyTick phone None in_session
  = (tt, in_session, [ConsoleError "Latency check error:"%string]) /\
  isConnected (state_of (latencyTick phone (Some [pair 0.085; pair 0.120]) in_session))
  = isConnected in_session.
Proof.
  split; [reflexivity|].
  apply (latency_from_last_succeeded_pair phone phone ready [pair 0.085; pair 0.120]
           None in_session).
  reflexivity.
Defined.

(** The product is rounded as a double before [Math.round] sees it: the
    double closest to 0.0045 is below 0.0045, and its product with 1000 is
    4.5 all the same. *)
Example round_trip_times_in_doubles :
  Math_round_double (rtt_ms (pair 0.0045)) = 5%float /\
  Math_round_double (rtt_ms (pair 0.5005)) = 500%float /\
  Math_round_double (rtt_ms (mkReport "candidate-pair" "succeeded" None)) = 0%float.
Proof. repeat split. Qed.

(** C9 as stated fails: in a running session, a sample with two succeeded
    pairs takes the latency from the second one, not from the first. *)
Lemma latency_not_from_first_pair :
  running (latencyIntervalRef in_session) = true /\
  first_succeeded [pair 0.085; pair 0.120] = Some (pair 0.085) /\
  latency (state_of (dispatch phone (ev_latency (Some [pair 0.085; pair 0.120]))
                              in_session)) = 120%float /\
  latency (state_of (dispatch phone (ev_latency (Some [pair 0.085; pair 0.120]))
                              in_session))
  <> Math_round_double (rtt_ms (pair 0.085)).
Proof. repeat split. vm_compute. discriminate. Qed.

End LatencyScenario.

(** ** The mock key encapsulation *)

Section Kyber.

Import JS ml_kem5.

(** C10, as amended.  For the keys of [keygen], decapsulation returns the
    encapsulated string exactly when the string has no unpaired surrogate
    and does not begin with U+FEFF. *)
Theorem kyber_round_trip (seed : list Z) (s : jsstring) :
  Forall code_unit s ->
  decap (secretKey (keygen seed))
        (ciphertext (encap (publicKey (keygen seed)) s)) = s
  <-> isWellFormed s = true /\ hd 0 s <> 0xFEFF.
Proof.
  intros Hcu. unfold decap, encap. cbn [ciphertext]. split.
  - apply text_round_trip_only_if. exact Hcu.
  - intros [Hwf Hbom]. apply text_round_trip; assumption.
Qed.

Lemma kyber_round_trip_witness :
  Forall code_unit [0xD83D; 0xDE00; 0x20AC; 0xE9; 65] /\
  (decap (secretKey (keygen [7; 7]))
         (ciphertext (encap (publicKey (keygen [7; 7]))
                            [0xD83D; 0xDE00; 0x20AC; 0xE9; 65]))
   = [0xD83D; 0xDE00; 0x20AC; 0xE9; 65]
   <-> isWellFormed [0xD83D; 0xDE00; 0x20AC; 0xE9; 65] = true
       /\ hd 0 [0xD83D; 0xDE00; 0x20AC; 0xE9; 65] <> 0xFEFF).
Proof.
  assert (Hcu : Forall code_unit [0xD83D; 0xDE00; 0x20AC; 0xE9; 65])
    by (repeat constructor; unfold code_unit; lia).
  split.
  - exact Hcu.
  - apply (kyber_round_trip [7; 7] [0xD83D; 0xDE00; 0x20AC; 0xE9; 65] Hcu).
Defined.

(** The string of the witness does come back. *)
Example kyber_emoji_euro :
  decap (secretKey (keygen [7; 7]))
        (ciphertext (encap (publicKey (keygen [7; 7]))
                           [0xD83D; 0xDE00; 0x20AC; 0xE9; 65]))
  = [0xD83D; 0xDE00; 0x20AC; 0xE9; 65].
Proof. reflexivity. Qed.

(** C10 as stated fails: an unpaired surrogate comes back as U+FFFD, and
    a leading U+FEFF is lost. *)
Lemma kyber_lone_surrogate :
  code_unit 0xD800 /\
  decap (secretKey (keygen [])) (ciphertext (encap (publicKey (keygen [])) [0xD800]))
  = [0xFFFD] /\
  decap (secretKey (keygen [])) (ciphertext (encap (publicKey (keygen [])) [0xD800]))
  <> [0xD800] /\
  decap (secretKey (keygen [])) (ciphertext (encap (publicKey (keygen [])) [0xFEFF; 104]))
  = [104].
Proof.
  unfold code_unit. repeat split; try lia. vm_compute. discriminate.
Qed.

End Kyber.

(** ** What the mock primitive does to arbitrary ciphertexts and payloads *)

Ltac out_of_range := symmetry; rewrite ?andb_false_iff, ?Z.leb_gt; lia.

Section DecoderOutput.
Import JS ml_kem5 Encoding.

Lemma scalar_replacement : scalar 0xFFFD.
Proof. unfold scalar. lia. Qed.

Lemma decoder_init_ok : decoder_ok decoder_init.
Proof. left. reflexivity. Qed.

Lemma lead_byte_ok (b : Z) :
  Forall scalar (fst (lead_byte b)) /\ decoder_ok (snd (lead_byte b)).
Proof.
  assert (Hcases : 0 <= b <= 127 \/ 194 <= b <= 223 \/ 224 <= b <= 239 \/
                   240 <= b <= 244 \/
                   (b < 0 \/ 128 <= b <= 193 \/ 245 <= b)) by lia.
  destruct Hcases as [H | [H | [H | [H | H]]]].
  - rewrite lead_byte_ascii by assumption. cbn [fst snd]. split.
    + constructor; [unfold scalar; lia | constructor].
    + apply decoder_init_ok.
  - rewrite lead_byte_2 by assumption. cbn [fst snd]. split; [constructor|].
    right. exists 0%nat.
    cbn [bytes_needed bytes_seen lower_boundary upper_boundary code_point].
    split; [lia|]. split; [lia|]. split; [lia|].
    intros c Hc. cbn [completes]. unfold scalar. lia.
  - rewrite lead_byte_3 by assumption. cbn [fst snd]. split; [constructor|].
    right. exists 1%nat. cbn [bytes_needed bytes_seen lower_boundary upper_boundary code_point].
    destruct (Z.eqb_spec b 224), (Z.eqb_spec b 237); try lia.
    all: split; [lia|]; split; [lia|]; split; [lia|].
    all: intros c Hc; cbn [completes]; unfold scalar; split; [lia|]; intros x Hx; lia.
  - rewrite lead_byte_4 by assumption. cbn [fst snd]. split; [constructor|].
    right. exists 2%nat. cbn [bytes_needed bytes_seen lower_boundary upper_boundary code_point].
    destruct (Z.eqb_spec b 240), (Z.eqb_spec b 244); try lia.
    all: split; [lia|]; split; [lia|]; split; [lia|].
    all: intros c Hc; cbn [completes]; unfold scalar; split; [lia|]; intros x Hx;
      split; [lia|]; intros y Hy; lia.
  - unfold lead_byte.
    replace ((0 <=? b) && (b <=? 127)) with false by out_of_range.
    replace ((194 <=? b) && (b <=? 223)) with false by out_of_range.
    replace ((224 <=? b) && (b <=? 239)) with false by out_of_range.
    replace ((240 <=? b) && (b <=? 244)) with false by out_of_range.
    cbn [fst snd]. split.
    + constructor; [exact scalar_replacement | constructor].
    + apply decoder_init_ok.
Qed.

(** The decoder emits scalar values only, whatever the bytes are. *)
Lemma utf8_decode_scalars (bs : list Z) :
  forall st, decoder_ok st -> Forall scalar (utf8_decode st bs).
Proof.
  induction bs as [| b rest IH]; intros st Hst.
  - cbn. destruct (bytes_needed st =? 0); [constructor|].
    constructor; [exact scalar_replacement | constructor].
  - cbn [utf8_decode].
    destruct (Z.eqb_spec (bytes_needed st) 0) as [Hz | Hnz].
    + destruct (lead_byte_ok b) as [Hout Hnext].
      destruct (lead_byte b) as [out st']. cbn [fst snd] in *.
      apply Forall_app. split; auto.
    + destruct Hst as [Hst | (r & Hr & Hlo & Hhi & Hnext)]; [contradiction|].
      destruct ((lower_boundary st <=? b) && (b <=? upper_boundary st)) eqn:Hin.
      * apply andb_true_iff in Hin as [Hl Hu]. apply Z.leb_le in Hl, Hu.
        rewrite accumulate_arith by lia.
        specialize (Hnext b (conj Hl Hu)).
        destruct (Z.eqb_spec (bytes_seen st + 1) (bytes_needed st)) as [Hlast | Hmore].
        -- destruct r as [| r]; [| lia].
           constructor; [exact Hnext | apply IH, decoder_init_ok].
        -- destruct r as [| r]; [lia|].
           apply IH. right. exists r.
           cbn [bytes_needed bytes_seen lower_boundary upper_boundary code_point].
           cbn [completes] in Hnext. destruct Hnext as [_ Hnext].
           split; [lia|]. split; [lia|]. split; [lia|].
           intros c Hc. apply Hnext. lia.
      * destruct (lead_byte_ok b) as [Hout Hnext'].
        destruct (lead_byte b) as [out st']. cbn [fst snd] in *.
        constructor; [exact scalar_replacement|].
        apply Forall_app. split; auto.
Qed.

Lemma strip_bom_scalars (l : list Z) : Forall scalar l -> Forall scalar (strip_bom l).
Proof.
  intros H. destruct H as [| cp rest Hcp Hrest]; [constructor|].
  cbn. destruct (cp =? 65279); [assumption | constructor; assumption].
Qed.

(** Scalar values are written as well-formed UTF-16. *)
Lemma of_scalars_well_formed (l : list Z) :
  Forall scalar l ->
  isWellFormed (of_scalars l) = true /\ Forall code_unit (of_scalars l).
Proof.
  induction 1 as [| cp l Hcp _ [IHwf IHcu]]; [split; [reflexivity | constructor]|].
  unfold of_scalars in *. cbn [flat_map]. unfold of_scalar.
  destruct (Z.leb_spec cp 65535) as [Hbmp | Hsup].
  - cbn [app isWellFormed].
    assert (Hl : is_lead cp = false)
      by (unfold is_lead, scalar in *; rewrite andb_false_iff, !Z.leb_gt; lia).
    assert (Ht : is_trail cp = false)
      by (unfold is_trail, scalar in *; rewrite andb_false_iff, !Z.leb_gt; lia).
    rewrite Hl, Ht. split; [assumption|].
    constructor; [unfold code_unit, scalar in *; lia | assumption].
  - assert (Hrange : 0 <= cp - 65536 < 1048576) by (unfold scalar in Hcp; lia).
    rewrite Z.shiftr_div_pow2 by lia.
    change 1023 with (2 ^ 10 - 1). rewrite land_low_bits by lia.
    change (2 ^ 10) with 1024.
    assert (Hq : 0 <= (cp - 65536) / 1024 < 1024) by (Z.div_mod_to_equations; lia).
    assert (Hm : 0 <= (cp - 65536) mod 1024 < 1024) by (apply Z.mod_pos_bound; lia).
    cbn [app isWellFormed].
    assert (Hl : is_lead (55296 + (cp - 65536) / 1024) = true)
      by (unfold is_lead; rewrite andb_true_iff, !Z.leb_le; lia).
    assert (Ht : is_trail (56320 + (cp - 65536) mod 1024) = true)
      by (unfold is_trail; rewrite andb_true_iff, !Z.leb_le; lia).
    rewrite Hl, Ht. cbn [andb]. split; [assumption|].
    constructor; [unfold code_unit; lia|].
    constructor; [unfold code_unit; lia | assumption].
Qed.

(** X1.  [decap] answers every ciphertext, well-formed UTF-8 or not,
    with a well-formed string of UTF-16 code units, whatever the key. *)
Theorem decap_always_well_formed (secretKey ciphertext : list Z) :
  isWellFormed (decap secretKey ciphertext) = true /\
  Forall code_unit (decap secretKey ciphertext).
Proof.
  unfold decap, TextDecoder_decode.
  apply of_scalars_well_formed, strip_bom_scalars, utf8_decode_scalars, decoder_init_ok.
Qed.

Lemma utf8_encode_cons (cp : Z) (l : list Z) :
  utf8_encode (cp :: l) = utf8_encode_cp cp ++ utf8_encode l.
Proof. reflexivity. Qed.

Lemma continuation_octet (cp k : Z) : 0 <= k -> octet (continuation cp k).
Proof.
  intros Hk. rewrite continuation_arith by assumption.
  pose proof (Z.mod_pos_bound (cp / 2 ^ (6 * k)) 64). unfold octet. lia.
Qed.

(** One scalar value is written as one to four octets: at most three for
    a code point of the basic plane, four above it. *)
Lemma utf8_encode_cp_shape (cp : Z) :
  scalar cp ->
  Forall octet (utf8_encode_cp cp) /\
  (cp <= 0xFFFF -> (1 <= List.length (utf8_encode_cp cp) <= 3)%nat) /\
  (0xFFFF < cp -> List.length (utf8_encode_cp cp) = 4%nat).
Proof.
  intros Hcp. unfold utf8_encode_cp.
  destruct (Z.leb_spec cp 127) as [H1 | H1].
  { split; [| cbn; lia].
    constructor; [unfold octet, scalar in *; lia | constructor]. }
  destruct (Z.leb_spec cp 2047) as [H2 | H2].
  { split; [| cbn; lia].
    constructor; [| constructor; [apply continuation_octet; lia | constructor]].
    rewrite Z.shiftr_div_pow2 by lia. change (2 ^ 6) with 64.
    unfold octet. Z.div_mod_to_equations. lia. }
  destruct (Z.leb_spec cp 65535) as [H3 | H3].
  { split; [| cbn; lia].
    constructor;
      [| constructor; [apply continuation_octet; lia |
         constructor; [apply continuation_octet; lia | constructor]]].
    rewrite Z.shiftr_div_pow2 by lia. change (2 ^ 12) with 4096.
    unfold octet. Z.div_mod_to_equations. lia. }
  split; [| cbn; lia].
  constructor;
    [| constructor; [apply continuation_octet; lia |
       constructor; [apply continuation_octet; lia |
       constructor; [apply continuation_octet; lia | constructor]]]].
  rewrite Z.shiftr_div_pow2 by lia. change (2 ^ 18) with 262144.
  unfold octet, scalar in *. Z.div_mod_to_equations. lia.
Qed.

Lemma replacement_shape :
  Forall octet (utf8_encode_cp 0xFFFD) /\ List.length (utf8_encode_cp 0xFFFD) = 3%nat.
Proof.
  split; [| reflexivity].
  apply utf8_encode_cp_shape, scalar_replacement.
Qed.

Lemma encode_shape (n : nat) :
  forall s : jsstring,
    (List.length s <= n)%nat -> Forall code_unit s ->
    Forall octet (TextEncoder_encode s) /\
    (List.length s <= List.length (TextEncoder_encode s) <= 3 * List.length s)%nat.
Proof.
  destruct replacement_shape as [Roct Rlen].
  unfold TextEncoder_encode.
  induction n as [| n IH]; intros s Hlen Hcu.
  { destruct s; [| cbn in Hlen; lia]. cbn. split; [constructor | lia]. }
  destruct s as [| c rest]; [cbn; split; [constructor | lia]|].
  inversion Hcu as [| ? ? Hc Hrest]; subst.
  assert (Hn : (List.length rest <= n)%nat) by (cbn in Hlen; lia).
  destruct (IH rest Hn Hrest) as [IHo IHl].
  cbn [to_scalars].
  destruct (is_lead c) eqn:Hl.
  - destruct rest as [| d tl].
    { rewrite utf8_encode_cons. cbn [utf8_encode flat_map]. rewrite app_nil_r.
      split; [exact Roct | rewrite Rlen; cbn; lia]. }
    destruct (is_trail d) eqn:Ht.
    + inversion Hrest as [| ? ? Hd Htl]; subst.
      destruct (IH tl) as [IHo' IHl']; auto; [cbn in Hn; lia|].
      destruct (pair_value c d Hl Ht) as (Hp1 & _ & _).
      destruct (utf8_encode_cp_shape _ Hp1) as (Ho & _ & H4).
      assert (Hbig : 65535 < 65536 + Z.shiftl (c - 55296) 10 + (d - 56320)).
      { unfold is_lead, is_trail in Hl, Ht.
        rewrite !andb_true_iff, !Z.leb_le in Hl, Ht.
        rewrite Z.shiftl_mul_pow2 by lia. lia. }
      specialize (H4 Hbig).
      rewrite utf8_encode_cons. split; [apply Forall_app; split; assumption|].
      rewrite length_app, H4. cbn [List.length]. lia.
    + rewrite utf8_encode_cons. split; [apply Forall_app; split; assumption|].
      rewrite length_app, Rlen. cbn [List.length] in *. lia.
  - destruct (is_trail c) eqn:Ht.
    + rewrite utf8_encode_cons. split; [apply Forall_app; split; assumption|].
      rewrite length_app, Rlen. cbn [List.length] in *. lia.
    + destruct (single_value c Hc Hl Ht) as (Hs1 & _).
      destruct (utf8_encode_cp_shape _ Hs1) as (Ho & H3 & _).
      assert (Hsmall : c <= 65535) by (unfold code_unit in Hc; lia).
      specialize (H3 Hsmall).
      rewrite utf8_encode_cons. split; [apply Forall_app; split; assumption|].
      rewrite length_app. cbn [List.length] in *. lia.
Qed.

(** X2.  The ciphertext of a string is an array of octets, at least as
    long as the string and at most three times as long (counted in UTF-16
    code units). *)
Theorem encap_ciphertext_size (publicKey : list Z) (s : jsstring) :
  Forall code_unit s ->
  Forall octet (ciphertext (encap publicKey s)) /\
  (List.length s <= List.length (ciphertext (encap publicKey s)) <= 3 * List.length s)%nat.
Proof.
  intros Hcu. unfold encap. cbn [ciphertext].
  apply (encode_shape (List.length s)); [apply le_n | assumption].
Qed.

Lemma encap_ciphertext_size_witness :
  Forall octet (ciphertext (encap [] mixed_payload)) /\
  (List.length mixed_payload
   <= List.length (ciphertext (encap [] mixed_payload))
   <= 3 * List.length mixed_payload)%nat.
Proof.
  apply (encap_ciphertext_size [] mixed_payload).
  repeat constructor; unfold code_unit; lia.
Defined.

Lemma encode_ascii (s : jsstring) :
  Forall ascii_unit s -> TextEncoder_encode s = s.
Proof.
  unfold TextEncoder_encode.
  induction 1 as [| c rest Hc _ IH]; [reflexivity|].
  unfold ascii_unit in Hc. cbn [to_scalars].
  replace (is_lead c) with false
    by (unfold is_lead; out_of_range).
  replace (is_trail c) with false
    by (unfold is_trail; out_of_range).
  rewrite utf8_encode_cons, IH. unfold utf8_encode_cp.
  destruct (Z.leb_spec c 127); [reflexivity | lia].
Qed.

(** X3.  The ciphertext of an ASCII payload is the payload itself, code
    unit by code unit, whatever the public key. *)
Theorem encap_ascii_in_the_clear (publicKey : list Z) (s : jsstring) :
  Forall ascii_unit s -> ciphertext (encap publicKey s) = s.
Proof. intros H. unfold encap. cbn [ciphertext]. apply encode_ascii, H. Qed.

Lemma encap_ascii_in_the_clear_witness :
  ciphertext (encap (publicKey (keygen [9])) [115; 101; 99; 114; 101; 116])
  = [115; 101; 99; 114; 101; 116].
Proof.
  apply (encap_ascii_in_the_clear (publicKey (keygen [9])) [115; 101; 99; 114; 101; 116]).
  repeat constructor; unfold ascii_unit; lia.
Defined.

(** X4.  Two well-formed payloads with the same ciphertext are equal,
    whichever public keys were used; a leading U+FEFF, which the round
    trip loses, is kept apart as well. *)
Theorem encap_injective (pk1 pk2 : list Z) (s1 s2 : jsstring) :
  Forall code_unit s1 -> isWellFormed s1 = true ->
  Forall code_unit s2 -> isWellFormed s2 = true ->
  ciphertext (encap pk1 s1) = ciphertext (encap pk2 s2) ->
  s1 = s2.
Proof.
  intros Hcu1 Hwf1 Hcu2 Hwf2 Heq.
  unfold encap, TextEncoder_encode in Heq. cbn [ciphertext] in Heq.
  destruct (to_scalars_well_formed (List.length s1) s1 (le_n _) Hcu1 Hwf1) as (Hsc1 & Hof1 & _).
  destruct (to_scalars_well_formed (List.length s2) s2 (le_n _) Hcu2 Hwf2) as (Hsc2 & Hof2 & _).
  apply (f_equal (utf8_decode decoder_init)) in Heq.
  rewrite !decode_encode in Heq by assumption.
  rewrite <- Hof1, <- Hof2, Heq. reflexivity.
Qed.

Lemma encap_injective_witness :
  [0xFEFF; 104; 0xD83D; 0xDE00] = [0xFEFF; 104; 0xD83D; 0xDE00].
Proof.
  apply (encap_injective (repeat 1 32) [] [0xFEFF; 104; 0xD83D; 0xDE00]
                         [0xFEFF; 104; 0xD83D; 0xDE00]).
  - repeat constructor; unfold code_unit; lia.
  - reflexivity.
  - repeat constructor; unfold code_unit; lia.
  - reflexivity.
  - reflexivity.
Defined.

(** X5.  The round trip on every string.  For every string of UTF-16
    code units and whatever the keys, [decap] of the ciphertext of [s] is
    [s] with each unpaired surrogate replaced by U+FFFD and one leading
    U+FEFF removed; it is well formed, and unless [s] begins with U+FEFF
    it has the length of [s]. *)
Theorem round_trip_normal_form (publicKey secretKey : list Z) (s : jsstring) :
  Forall code_unit s ->
  decap secretKey (ciphertext (encap publicKey s))
  = of_scalars (strip_bom (to_scalars s)) /\
  isWellFormed (decap secretKey (ciphertext (encap publicKey s))) = true /\
  (hd 0 s <> 0xFEFF ->
   List.length (decap secretKey (ciphertext (encap publicKey s))) = List.length s).
Proof.
  intros Hcu.
  destruct (to_scalars_any (List.length s) s (le_n _) Hcu) as (Hsc & Hlen & _ & Hhd).
  unfold decap, encap, TextDecoder_decode, TextEncoder_encode. cbn [ciphertext].
  rewrite decode_encode by assumption.
  split; [reflexivity|].
  split; [apply of_scalars_well_formed, strip_bom_scalars, Hsc|].
  intros Hbom. rewrite strip_bom_id by auto. exact Hlen.
Qed.

Lemma round_trip_normal_form_witness :
  decap [2] (ciphertext (encap [1] mixed_payload))
  = of_scalars (strip_bom (to_scalars mixed_payload)) /\
  isWellFormed (decap [2] (ciphertext (encap [1] mixed_payload))) = true /\
  (hd 0 mixed_payload <> 0xFEFF ->
   List.length (decap [2] (ciphertext (encap [1] mixed_payload)))
   = List.length mixed_payload).
Proof.
  apply (round_trip_normal_form [1] [2] mixed_payload).
  repeat constructor; unfold code_unit; lia.
Defined.

End DecoderOutput.

(** ** The life of a session: the periodic check, the timer, the browser *)

Section SessionLife.
Import JS Remote Handler Scenario Lifecycle.
Local Open Scope string_scope.

Lemma thermalCheck_run (p : Platform) (stream : option MediaStream) (s : Remote) :
  thermalCheck p stream s =
  if value_of (checkResources p s) || thermalWarning s
  then (tt, state_of (handleEndSession_of stream s),
        (trace_of (checkResources p s)
         ++ Alert "Resource Warning" :: trace_of (handleEndSession_of stream s)
         ++ [LogEvent "Session paused: resource limits";
             Speak "Session paused due to resource limits"; Vibrate])%list)
  else (tt, s, trace_of (checkResources p s)).
Proof.
  pose proof (checkResources_state p s) as Hs.
  unfold thermalCheck.
  unfold bind at 1.
  destruct (checkResources p s) as [[over s1] t1]. cbn in Hs. subst s1.
  unfold bind at 1. unfold read at 1.
  cbn [value_of trace_of state_of fst snd].
  destruct (over || thermalWarning s).
  - unfold bind at 1. unfold emit at 1.
    unfold bind at 1.
    destruct (handleEndSession_of stream s) as [[[] s2] t2].
    reflexivity.
  - cbn. rewrite app_nil_r. reflexivity.
Qed.

(** X6.  The 60 s check ends the session exactly when [checkResources]
    answers "over the limit" or the thermal warning is on.  It does not
    look at [isConnected]: with or without a session it leaves the state
    that [handleEndSession] leaves, but for [localStream], which it reads
    as the render that scheduled the check saw it.  The tracks are stopped
    and [localStream] is cleared only if that render had a stream already;
    if it had none, [localStream] stays as it is.  The pause is announced;
    when the check finds nothing, the state stays as it was. *)
Theorem thermal_check_outcome
        (p : Platform) (stream : option MediaStream) (s : Remote) :
  let over := value_of (checkResources p s) || thermalWarning s in
  state_of (thermalCheck p stream s)
  = (if over
     then setLocalStream (match stream with Some _ => None | None => localStream s end)
                         (torn_down s)
     else s) /\
  (In (Speak "Session paused due to resource limits") (trace_of (thermalCheck p stream s))
   <-> over = true) /\
  (In StopTracks (trace_of (thermalCheck p stream s))
   <-> over = true /\ stream <> None) /\
  dispatch p ev_minute s
  = match mountedStream s with
    | Some seen => thermalCheck p seen s
    | None => (tt, s, [])
    end.
Proof.
  cbv zeta. rewrite thermalCheck_run, handleEndSession_of_run.
  assert (Hq : emits_only (fun e => e <> Speak "Session paused due to resource limits"
                                    /\ e <> StopTracks)
                          (checkResources p))
    by (repeat first [apply emits_only_emit; split; discriminate | handler_step]).
  specialize (Hq s). rewrite Forall_forall in Hq.
  split; [| split; [| split]].
  - destruct (value_of (checkResources p s) || thermalWarning s); reflexivity.
  - destruct (value_of (checkResources p s) || thermalWarning s).
    + split; [reflexivity|]. intros _.
      cbn [trace_of snd]. apply in_or_app. right. right.
      apply in_or_app. right. right. left. reflexivity.
    + cbn [trace_of snd]. split; [| discriminate].
      intros Hin. exfalso. exact (proj1 (Hq _ Hin) eq_refl).
  - destruct (value_of (checkResources p s) || thermalWarning s).
    + cbn [trace_of snd]. rewrite in_app_iff. cbn [In]. rewrite !in_app_iff.
      split.
      * intros [Hin | [Hin | Hin]].
        -- exfalso. exact (proj2 (Hq _ Hin) eq_refl).
        -- discriminate Hin.
        -- split; [reflexivity|].
           destruct stream; [discriminate|]. exfalso.
           destruct (pcRef s), (dataChannelRef s), (timerRef s), (latencyIntervalRef s);
             cbn in Hin; intuition discriminate.
      * intros [_ Hstream]. right. right.
        destruct stream as [st |]; [| contradiction Hstream; reflexivity].
        left. right. right. left. left. reflexivity.
    + cbn [trace_of snd]. split.
      * intros Hin. exfalso. exact (proj2 (Hq _ Hin) eq_refl).
      * intros [H _]. discriminate H.
  - cbn [dispatch]. unfold bind at 1. unfold read at 1.
    destruct (mountedStream s) as [seen |]; [| reflexivity].
    destruct (thermalCheck p seen s) as [[[] s1] t1]. reflexivity.
Qed.

Lemma setDuration_same (s : Remote) : setDuration (duration s) s = s.
Proof. destruct s. reflexivity. Qed.

Lemma second_tick (p : Platform) (s : Remote) :
  dispatch p ev_second s
  = (tt, (if running (timerRef s) then setDuration (duration s + 1) s else s), []).
Proof.
  cbn [dispatch]. unfold bind, read, when.
  destruct (running (timerRef s)); reflexivity.
Qed.

Lemma seconds_run (ps : list Platform) :
  forall s : Remote,
    run (seconds ps) s
    = (tt, (if running (timerRef s)
            then setDuration (duration s + Z.of_nat (List.length ps)) s else s), []).
Proof.
  induction ps as [| p ps IH]; intros s.
  - cbn. rewrite Z.add_0_r, setDuration_same.
    destruct (running (timerRef s)); reflexivity.
  - cbn [seconds map run]. fold (seconds ps).
    rewrite (bind_run (dispatch p ev_second) _ _ _ _ _ (second_tick p s)).
    rewrite IH. cbn [value_of state_of trace_of fst snd app].
    destruct (running (timerRef s)) eqn:Hrun; [| rewrite Hrun; reflexivity].
    cbn [timerRef setDuration]. rewrite Hrun. cbn [duration setDuration].
    replace (duration s + 1 + Z.of_nat (List.length ps))
      with (duration s + Z.of_nat (List.length (p :: ps)))
      by (cbn [List.length]; lia).
    destruct s; reflexivity.
Qed.

(** X7.  The session timer counts seconds: while the one-second interval
    is scheduled, [n] ticks add [n] to [duration] and change nothing else;
    once it has been cleared (or before any session) the ticks change
    nothing. *)
Theorem duration_counts_seconds (ps : list Platform) (s : Remote) :
  state_of (run (seconds ps) s)
  = (if running (timerRef s)
     then setDuration (duration s + Z.of_nat (List.length ps)) s else s) /\
  trace_of (run (seconds ps) s) = [].
Proof. rewrite seconds_run. split; reflexivity. Qed.

Lemma idle_torn_down (s : Remote) : idle s -> idle (torn_down s).
Proof.
  unfold idle. destruct s. cbn.
  intros (H1 & H2 & H3 & H4 & H5 & H6 & H7 & H8 & H9). subst.
  repeat split.
Qed.

Lemma checkResources_sets_up_nothing (p : Platform) :
  emits_only (fun e => sets_up e = false) (checkResources p).
Proof. handler. Qed.

Lemma handleEndSession_sets_up_nothing :
  emits_only (fun e => sets_up e = false) handleEndSession.
Proof. handler. Qed.






Lemma checkResources_schedules_nothing (p : Platform) :
  emits_only (fun e => is_SetInterval e = false) (checkResources p).
Proof. handler. Qed.

(** X9.  [startWebRTC] is all or nothing about its intervals: when every
    test and platform call turns out well it schedules the 10 s and the
    1 s interval and leaves the error message as it was; in every other
    run it sets a non-empty error message, schedules no interval and leaves
    both interval refs as they were. *)
Theorem startWebRTC_all_or_error (p : Platform) (s : Remote) :
  if can_start p s
  then errorMessage (state_of (startWebRTC p s)) = errorMessage s /\
       timerRef (state_of (startWebRTC p s)) = Some true /\
       latencyIntervalRef (state_of (startWebRTC p s)) = Some true /\
       In (SetInterval cb_latencyTick 10000) (trace_of (startWebRTC p s)) /\
       In (SetInterval cb_durationTick 1000) (trace_of (startWebRTC p s))
  else errorMessage (state_of (startWebRTC p s)) <> "" /\
       timerRef (state_of (startWebRTC p s)) = timerRef s /\
       latencyIntervalRef (state_of (startWebRTC p s)) = latencyIntervalRef s /\
       Forall (fun e => is_SetInterval e = false) (trace_of (startWebRTC p s)).
Proof.
  pose proof (checkResources_state p s) as Hs.
  pose proof (checkResources_schedules_nothing p s) as Hq.
  unfold can_start.
  destruct (checkResources p s) as [[over s1] t1] eqn:E.
  cbn in Hs, Hq. subst s1. cbn [value_of fst].
  destruct s as [dg tw ic id ss io kb la du ls rs em er wl pcc md ric pc dc so ti li lp
                 ms pe].
  unfold startWebRTC, state_of, trace_of.
  destruct (isWebPlatform p) eqn:Hweb, (getUserMedia p) as [stream |] eqn:Hmedia,
           (createOffer p) as [offer |] eqn:Hoffer.
  all: destruct wl, pcc, md, er; cbn -[checkResources];
    try (split; [discriminate | repeat split; repeat constructor]).
  all: rewrite !(bind_run (checkResources p) _ _ _ _ _ E);
    destruct over; cbn -[checkResources].
  all: try (split; [discriminate |
                    split; [reflexivity | split; [reflexivity |]]];
            constructor; [reflexivity|]; apply Forall_app; split;
            [exact Hq | repeat constructor]).
  all: try (destruct io, kb, so; cbn; rewrite ?in_app_iff; cbn; tauto).
  all: try (split; [destruct io, kb; cbn; discriminate |
            split; [destruct io, kb; reflexivity |
            split; [destruct io, kb; reflexivity |]]];
            constructor; [reflexivity|]; apply Forall_app; split;
            [exact Hq | destruct io, kb; repeat constructor]).
Qed.

Lemma press_when_connected (p : Platform) (s : Remote) :
  isWebPlatform p = false -> isConnected s = true ->
  handleStartSession p s = handleEndSession s.
Proof.
  intros Hweb Hc. unfold handleStartSession. rewrite Hweb.
  unfold bind at 1. unfold read at 1. rewrite Hc.
  destruct (handleEndSession s) as [[[] s1] t1]. reflexivity.
Qed.

(** X10.  The button toggles.  After a press that passed the resource
    gate, whatever became of [startWebRTC], the next press does not start
    again: it runs [handleEndSession], leaves the torn-down state and
    never enters [startWebRTC]. *)
Theorem second_press_ends (p q : Platform) (s : Remote) :
  isWebPlatform p = false -> isWebPlatform q = false ->
  isConnected s = false ->
  truthy (trim (deviceId s)) = true ->
  value_of (checkResources p s) || thermalWarning s = false ->
  state_of (handleStartSession q (state_of (handleStartSession p s)))
  = torn_down (state_of (handleStartSession p s)) /\
  ~ In (Invoke fn_startWebRTC)
       (trace_of (handleStartSession q (state_of (handleStartSession p s)))).
Proof.
  intros Hp Hq Hidle Hid Hgate.
  pose proof (start_marks_connected p s Hp Hidle Hid Hgate) as Hc.
  rewrite (press_when_connected q _ Hq Hc).
  split; [apply handleEndSession_state|].
  pose proof (handleEndSession_quiet fn_startWebRTC (state_of (handleStartSession p s))) as H.
  rewrite Forall_forall in H. intros Hin. exact (H _ Hin eq_refl).
Qed.

Lemma second_press_ends_witness :
  state_of (handleStartSession phone (state_of (handleStartSession phone typed)))
  = torn_down (state_of (handleStartSession phone typed)) /\
  ~ In (Invoke fn_startWebRTC)
       (trace_of (handleStartSession phone (state_of (handleStartSession phone typed)))).
Proof.
  apply (second_press_ends phone phone typed); reflexivity.
Defined.

End SessionLife.

(** ** Control commands, the scanner and the offer handler *)

Section ControlChannel.
Import JS Remote Handler Scenario Control.
Local Open Scope string_scope.

Lemma dispatch_keeps_channel_shut (p : Platform) (e : Event) :
  stays channel_shut (dispatch p e).
Proof. destruct e; shut. Qed.

Lemma run_keeps_channel_shut (evs : list (Platform * Event)) :
  stays channel_shut (run evs).
Proof.
  induction evs as [| [p e] rest IH]; cbn [run].
  - apply stays_ret.
  - apply stays_bind; [apply dispatch_keeps_channel_shut | intro; exact IH].
Qed.

Lemma torn_down_channel_shut (s : Remote) : channel_shut (torn_down s).
Proof. unfold channel_shut. destruct s as [? ? ? ? ? ? ? ? ? ? ? ? ? ? ? ? ? ? [dc |] ? ? ? ? ? ?]; reflexivity. Qed.

Lemma sendControlCommand_shut (send_ok : bool) (command : jsstring) (s : Remote) :
  channel_shut s ->
  sendControlCommand send_ok command s
  = (None, setErrorMessage "Control channel not ready" s,
     [Speak "Control channel not ready"]).
Proof.
  unfold channel_shut. intros H. unfold sendControlCommand.
  unfold bind at 1. unfold read at 1. rewrite H. reflexivity.
Qed.

(** X11.  Once [handleEndSession] has run, no control command gets
    through any more: whatever events follow (presses, a new start,
    callbacks, interval ticks), as long as the platform has not opened a
    new channel, [sendControlCommand] hands nothing to the channel and
    answers with the error "Control channel not ready". *)
Theorem no_command_after_end
        (s : Remote) (evs : list (Platform * Event))
        (send_ok : bool) (command : jsstring) :
  sendControlCommand send_ok command (state_of (run evs (state_of (handleEndSession s))))
  = (None,
     setErrorMessage "Control channel not ready"
                     (state_of (run evs (state_of (handleEndSession s)))),
     [Speak "Control channel not ready"]).
Proof.
  apply sendControlCommand_shut, run_keeps_channel_shut.
  rewrite handleEndSession_state. apply torn_down_channel_shut.
Qed.

Lemma startsWith_iot (command : jsstring) :
  startsWith iot_prefix command = true -> exists x, command = (iot_prefix ++ x)%list.
Proof.
  unfold iot_prefix. intros H.
  destruct command as [| a [| b [| c [| d x]]]]; cbn [startsWith] in H;
    rewrite ?andb_false_r in H; try discriminate.
  rewrite !andb_true_iff, !Z.eqb_eq in H.
  destruct H as (Ha & Hb & Hc & Hd & _). subst. exists x. reflexivity.
Qed.

(** The first piece of a split holds no separator, and the string is that
    piece alone or that piece, a separator and the rest. *)
Lemma split_head (sep : Z) (s : jsstring) :
  exists w ws,
    split sep s = w :: ws /\ ~ In sep w /\
    ((s = w /\ ws = []) \/
     exists rest, s = (w ++ sep :: rest)%list /\ ws = split sep rest).
Proof.
  induction s as [| c rest (w & ws & Hsplit & Hw & Hs)].
  - exists [], []. repeat split; auto.
  - cbn [split]. destruct (Z.eqb_spec c sep) as [-> | Hne].
    + exists [], (split sep rest). repeat split; auto.
      right. exists rest. split; reflexivity.
    + rewrite Hsplit. exists (c :: w), ws. split; [reflexivity|].
      split; [intros [H | H]; [congruence | contradiction]|].
      destruct Hs as [[-> ->] | (tl & -> & ->)].
      * left. split; reflexivity.
      * right. exists tl. split; reflexivity.
Qed.

(** X12.  [handleIoTCommand] acts on the commands that begin with
    ["iot:"] and on no others; a keyboard command ["key:" + text] is never
    taken for one, whatever the text.  The action it appends to
    [iotScenes] is never [undefined]: it is the text between the first
    colon and the next one (or the end), so it holds no colon, and what
    comes after a second colon is dropped. *)
Theorem iot_command_action (command : jsstring) (sc : Screen) :
  (forall text, handleIoTCommand (key_prefix ++ text)%list sc = (sc, [])) /\
  ((startsWith iot_prefix command = false /\ handleIoTCommand command sc = (sc, [])) \/
   exists action tail,
     command = (iot_prefix ++ action ++ tail)%list /\
     ~ In colon action /\
     (tail = [] \/ hd 0 tail = colon) /\
     handleIoTCommand command sc
     = (setIotScenes (fun prev => (prev ++ [Some action])%list) sc,
        [Speak "IoT action:"; LogEvent "IoT command processed"])).
Proof.
  split; [reflexivity|].
  destruct (startsWith iot_prefix command) eqn:Hpre.
  - right. destruct (startsWith_iot command Hpre) as [x ->].
    destruct (split_head colon x) as (w & ws & Hsplit & Hw & Hs).
    assert (Hcmd : split colon (iot_prefix ++ x)%list = [105; 111; 116] :: w :: ws).
    { cbn. rewrite Hsplit. reflexivity. }
    exists w.
    destruct Hs as [[-> ->] | (rest & -> & ->)].
    + exists []. rewrite app_nil_r. repeat split; auto.
      unfold handleIoTCommand. rewrite Hpre, Hcmd. reflexivity.
    + exists (colon :: rest). repeat split; auto.
      unfold handleIoTCommand. rewrite Hpre, Hcmd. reflexivity.
  - left. split; [reflexivity|].
    unfold handleIoTCommand. rewrite Hpre. reflexivity.
Qed.

End ControlChannel.

Section Scanner.
Import JS Remote Handler Scenario Control.
Local Open Scope string_scope.

Lemma trimStart_split (l : jsstring) :
  exists ws, l = (ws ++ trimStart l)%list /\ forallb isWhiteSpace ws = true.
Proof.
  induction l as [| c rest (ws & Hl & Hws)].
  - exists []. split; reflexivity.
  - cbn [trimStart]. destruct (isWhiteSpace c) eqn:Hc.
    + exists (c :: ws). split; [cbn; congruence | cbn; rewrite Hc; exact Hws].
    + exists []. split; reflexivity.
Qed.

Lemma trimStart_head (l : jsstring) :
  match trimStart l with c :: _ => isWhiteSpace c = false | [] => True end.
Proof.
  induction l as [| c rest IH]; [exact I|].
  cbn [trimStart]. destruct (isWhiteSpace c) eqn:Hc; [exact IH | exact Hc].
Qed.

Lemma trimStart_fixed (l : jsstring) :
  match l with c :: _ => isWhiteSpace c = false | [] => True end ->
  trimStart l = l.
Proof.
  destruct l as [| c rest]; [reflexivity|]. cbn. intros ->. reflexivity.
Qed.

(** [trim] removes all the white space there is to remove. *)
Lemma trim_idempotent (s : jsstring) : trim (trim s) = trim s.
Proof.
  unfold trim.
  pose proof (trimStart_head s) as Hhead.
  set (t := trimStart s) in *.
  pose proof (trimStart_head (rev t)) as Hu.
  destruct (trimStart_split (rev t)) as (ws & Hsplit & _).
  set (u := trimStart (rev t)) in *.
  assert (Ht : t = (rev u ++ rev ws)%list).
  { rewrite <- rev_app_distr, <- Hsplit, rev_involutive. reflexivity. }
  assert (Hfix : trimStart (rev u) = rev u).
  { apply trimStart_fixed. destruct (rev u) as [| c r] eqn:Hr; [exact I|].
    rewrite Ht in Hhead. cbn in Hhead. exact Hhead. }
  rewrite Hfix, rev_involutive.
  rewrite (trimStart_fixed u Hu). reflexivity.
Qed.

Lemma blank_test (data : jsstring) :
  negb (truthy data) || jsstring_eqb (trim data) [] = negb (truthy (trim data)).
Proof.
  destruct data as [| c rest]; [reflexivity|]. cbn [truthy negb orb].
  destruct (trim (c :: rest)); reflexivity.
Qed.

Lemma start_tail_never_asks (p : Platform) (id : jsstring) :
  emits_only (fun e => e <> Speak "Please enter device ID") (start_tail p id).
Proof. handler. Qed.

Lemma handleEndSession_never_asks :
  emits_only (fun e => e <> Speak "Please enter device ID") handleEndSession.
Proof. handler. Qed.

Lemma checkResources_never_asks (p : Platform) :
  emits_only (fun e => e <> Speak "Please enter device ID") (checkResources p).
Proof. handler. Qed.

(** With a device id that is not blank the start button never asks for
    one. *)
Lemma start_never_asks (p : Platform) (s : Remote) :
  truthy (trim (deviceId s)) = true ->
  ~ In (Speak "Please enter device ID") (trace_of (handleStartSession p s)).
Proof.
  intros Hid Hin.
  assert (Hno : forall t, Forall (fun e => e <> Speak "Please enter device ID") t ->
                          In (Speak "Please enter device ID") t -> False).
  { intros t Ht Hi. rewrite Forall_forall in Ht. exact (Ht _ Hi eq_refl). }
  destruct (isWebPlatform p) eqn:Hweb.
  { unfold handleStartSession in Hin. rewrite Hweb in Hin.
    cbn in Hin. destruct Hin as [H | []]. discriminate H. }
  destruct (isConnected s) eqn:Hc.
  { rewrite (press_when_connected p s Hweb Hc) in Hin.
    exact (Hno _ (handleEndSession_never_asks s) Hin). }
  destruct (value_of (checkResources p s) || thermalWarning s) eqn:Hgate.
  - rewrite (handleStartSession_gate_closed p s Hweb Hc Hid Hgate) in Hin.
    cbn [trace_of snd] in Hin. apply in_app_or in Hin as [Hin | Hin].
    + exact (Hno _ (checkResources_never_asks p s) Hin).
    + cbn in Hin. repeat destruct Hin as [Hin | Hin]; try discriminate Hin. exact Hin.
  - rewrite (handleStartSession_gate_open p s Hweb Hc Hid Hgate) in Hin.
    cbn [trace_of snd] in Hin. apply in_app_or in Hin as [Hin | Hin].
    + exact (Hno _ (checkResources_never_asks p s) Hin).
    + exact (Hno _ (start_tail_never_asks p (deviceId s) s) Hin).
Qed.

(** The scanner event of [Remote.dispatch] is [handleBarCodeScanned] on
    the cells of the session. *)
Lemma handleBarCodeScanned_session (data : jsstring) (sc : Screen) :
  session (fst (handleBarCodeScanned data sc)) = state_of (on_barcode data (session sc)) /\
  snd (handleBarCodeScanned data sc) = trace_of (on_barcode data (session sc)).
Proof.
  unfold handleBarCodeScanned, on_barcode.
  destruct (negb (truthy data) || jsstring_eqb (trim data) []); split; reflexivity.
Qed.

(** X13.  A scanned code is refused exactly when it is empty or white
    space only; then nothing but the error message changes and the scanner
    stays open.  Otherwise the device id becomes the trimmed text, which
    has no white space left at either end and is not blank, the scanner is
    closed, the error message is left as it was, and the start button will
    not ask for a device id. *)
Theorem scan_outcome (data : jsstring) (sc : Screen) :
  let sc' := fst (handleBarCodeScanned data sc) in
  if truthy (trim data)
  then deviceId (session sc') = trim data /\
       trim (deviceId (session sc')) = deviceId (session sc') /\
       isScanning sc' = false /\
       errorMessage (session sc') = errorMessage (session sc) /\
       forall p, ~ In (Speak "Please enter device ID")
                      (trace_of (handleStartSession p (session sc')))
  else sc' = with_session (setErrorMessage "Invalid QR code") sc.
Proof.
  cbv zeta. unfold handleBarCodeScanned. rewrite blank_test.
  destruct (truthy (trim data)) eqn:Hid; cbn [negb fst]; [| reflexivity].
  cbn [session setIsScanning with_session isScanning].
  assert (Hdev : deviceId (setDeviceId (trim data) (session sc)) = trim data)
    by reflexivity.
  rewrite Hdev. split; [reflexivity|].
  split; [apply trim_idempotent|].
  split; [reflexivity|].
  split; [reflexivity|].
  intros p. apply start_never_asks.
  rewrite Hdev, trim_idempotent. exact Hid.
Qed.

End Scanner.

Section Offer.
Import JS Remote Handler Scenario Control.
Local Open Scope string_scope.

Lemma jsstring_eqb_refl (a : jsstring) : jsstring_eqb a a = true.
Proof. unfold jsstring_eqb. destruct (list_eq_dec Z.eq_dec a a); congruence. Qed.




End Offer.

(** ** The local database *)

Section LocalDatabase.
Import JS Remote Handler Scenario Control Storage.

Lemma jsstring_eqb_eq (a b : jsstring) : jsstring_eqb a b = true <-> a = b.
Proof.
  unfold jsstring_eqb. destruct (list_eq_dec Z.eq_dec a b); split; congruence.
Qed.

Lemma jsstring_eqb_neq (a b : jsstring) : jsstring_eqb a b = false <-> a <> b.
Proof.
  unfold jsstring_eqb. destruct (list_eq_dec Z.eq_dec a b); split; congruence.
Qed.

Lemma getItem_setItem_same (key : jsstring) (v : Text) (st : Store) :
  getItem key (setItem key v st) = Some v.
Proof.
  induction st as [| [k w] rest IH]; cbn.
  - rewrite jsstring_eqb_refl. reflexivity.
  - destruct (jsstring_eqb k key) eqn:E; cbn.
    + rewrite jsstring_eqb_refl. reflexivity.
    + rewrite E. exact IH.
Qed.

Lemma getItem_setItem_other (key key' : jsstring) (v : Text) (st : Store) :
  key' <> key -> getItem key' (setItem key v st) = getItem key' st.
Proof.
  intros Hne.
  assert (H : jsstring_eqb key key' = false) by (apply jsstring_eqb_neq; congruence).
  induction st as [| [k w] rest IH]; cbn.
  - rewrite H. reflexivity.
  - destruct (jsstring_eqb k key) eqn:E; cbn.
    + apply jsstring_eqb_eq in E. subst k. rewrite H. reflexivity.
    + destruct (jsstring_eqb k key'); [reflexivity | exact IH].
Qed.

(** Writing a key keeps the keys and their order; a new key goes to the
    end. *)
Lemma keys_of_setItem (key : jsstring) (v : Text) (st : Store) :
  keys_of (setItem key v st)
  = if existsb (fun k => jsstring_eqb k key) (keys_of st)
    then keys_of st else (keys_of st ++ [key])%list.
Proof.
  unfold keys_of. induction st as [| [k w] rest IH]; cbn; [reflexivity|].
  destruct (jsstring_eqb k key) eqn:E; cbn.
  - apply jsstring_eqb_eq in E. subst k. reflexivity.
  - rewrite IH. destruct (existsb _ _); reflexivity.
Qed.

Lemma setItem_twice (key : jsstring) (v w : Text) (st : Store) :
  setItem key w (setItem key v st) = setItem key w st.
Proof.
  induction st as [| [k u] rest IH]; cbn.
  - rewrite jsstring_eqb_refl. reflexivity.
  - destruct (jsstring_eqb k key) eqn:E; cbn.
    + rewrite jsstring_eqb_refl. reflexivity.
    + rewrite E, IH. reflexivity.
Qed.

Lemma getItem_In (key : jsstring) (v : Text) (st : Store) :
  getItem key st = Some v -> In (key, v) st.
Proof.
  induction st as [| [k w] rest IH]; cbn; [discriminate|].
  destruct (jsstring_eqb k key) eqn:E.
  - apply jsstring_eqb_eq in E. intros [= ->]. left. congruence.
  - intros H. right. auto.
Qed.

Lemma getItem_key (key : jsstring) (v : Text) (st : Store) :
  getItem key st = Some v -> In key (keys_of st).
Proof.
  intros H. apply getItem_In in H. unfold keys_of.
  apply (in_map fst) in H. exact H.
Qed.

Lemma log_key_not_status (now : Z) : startsWith status_prefix (log_key now) = false.
Proof. reflexivity. Qed.

Lemma status_key_status (now : Z) : startsWith status_prefix (status_key now) = true.
Proof. reflexivity. Qed.

Lemma startsWith_status_neq (k : jsstring) (now : Z) :
  startsWith status_prefix k = true -> k <> log_key now.
Proof. intros H ->. rewrite log_key_not_status in H. discriminate. Qed.

Lemma filter_app_tail {A} (f : A -> bool) (l : list A) (x : A) :
  f x = false -> filter f (l ++ [x]) = filter f l.
Proof.
  intros H. rewrite filter_app. cbn. rewrite H. apply app_nil_r.
Qed.

Lemma filter_Permutation {A} (f : A -> bool) (l l' : list A) :
  Permutation l l' -> Permutation (filter f l) (filter f l').
Proof.
  induction 1 as [| x l l' _ IH | x y l | l l' l'' _ IH1 _ IH2]; cbn.
  - constructor.
  - destruct (f x); [constructor|]; exact IH.
  - destruct (f x), (f y); try reflexivity. constructor.
  - exact (Permutation_trans IH1 IH2).
Qed.

Lemma parseSessions_ext (keys : list jsstring) (st st' : Store) :
  (forall key, In key keys -> getItem key st' = getItem key st) ->
  parseSessions keys st' = parseSessions keys st.
Proof.
  induction keys as [| key rest IH]; intros H; [reflexivity|].
  cbn [parseSessions]. rewrite (H key (or_introl eq_refl)).
  rewrite IH by (intros k Hk; apply H; right; exact Hk). reflexivity.
Qed.

Lemma same_up_to_order_trans {A} (a b c : option (list A)) :
  same_up_to_order a b -> same_up_to_order b c -> same_up_to_order a c.
Proof.
  destruct a, b, c; cbn; try tauto. apply Permutation_trans.
Qed.

(** The order in which the keys are listed does not matter for what is
    read, only for the order of the result. *)
Lemma parseSessions_Permutation (st : Store) (keys keys' : list jsstring) :
  Permutation keys keys' ->
  same_up_to_order (parseSessions keys st) (parseSessions keys' st).
Proof.
  induction 1 as [| x l l' _ IH | x y l | l l' l'' _ IH1 _ IH2].
  - cbn. constructor.
  - cbn [parseSessions].
    destruct (getItem x st) as [[j | [| c t]] |]; try exact IH; [| exact I].
    destruct (parseSessions l st), (parseSessions l' st); cbn in *; try tauto.
    constructor. exact IH.
  - cbn [parseSessions].
    destruct (getItem x st) as [[jx | [| cx tx]] |],
             (getItem y st) as [[jy | [| cy ty]] |],
             (parseSessions l st) as [js |];
      cbn; try exact I; try reflexivity.
    apply perm_swap.
  - exact (same_up_to_order_trans _ _ _ IH1 IH2).
Qed.

Lemma parseDocs_Permutation (st : Store) (keys keys' : list jsstring) :
  Permutation keys keys' ->
  same_up_to_order (parseDocs keys st) (parseDocs keys' st).
Proof.
  induction 1 as [| x l l' _ IH | x y l | l l' l'' _ IH1 _ IH2].
  - cbn. constructor.
  - cbn [parseDocs].
    destruct (getItem x st) as [[j | t] |]; [| exact I |].
    + destruct (parseDocs l st), (parseDocs l' st); cbn in *; try tauto.
      constructor. exact IH.
    + destruct (parseDocs l st), (parseDocs l' st); cbn in *; try tauto.
      constructor. exact IH.
  - cbn [parseDocs].
    destruct (getItem x st) as [[jx | tx] |],
             (getItem y st) as [[jy | ty] |],
             (parseDocs l st) as [js |];
      cbn; try exact I; try reflexivity; apply perm_swap.
  - exact (same_up_to_order_trans _ _ _ IH1 IH2).
Qed.

Lemma cards_Permutation (fmt : option Json -> jsstring) (js js' : list Json) :
  Permutation js js' -> same_up_to_order (cards fmt js) (cards fmt js').
Proof.
  induction 1 as [| x l l' _ IH | x y l | l l' l'' _ IH1 _ IH2].
  - cbn. constructor.
  - cbn [cards].
    destruct (card fmt x), (cards fmt l), (cards fmt l'); cbn in *; try tauto.
    constructor. exact IH.
  - cbn [cards].
    destruct (card fmt x), (card fmt y), (cards fmt l); cbn; try exact I.
    apply perm_swap.
  - exact (same_up_to_order_trans _ _ _ IH1 IH2).
Qed.

Lemma fetch_Permutation (fmt : option Json -> jsstring) (st : Store)
      (keys keys' : list jsstring) :
  Permutation keys keys' ->
  Permutation (fetchPastSessionsLocal fmt keys st) (fetchPastSessionsLocal fmt keys' st).
Proof.
  intros H. unfold fetchPastSessionsLocal, sessionKeys.
  pose proof (parseSessions_Permutation st _ _ (filter_Permutation (startsWith status_prefix) _ _ H))
    as Hp.
  destruct (parseSessions (filter _ keys) st) as [js |],
           (parseSessions (filter _ keys') st) as [js' |]; cbn in Hp; try tauto;
    [| constructor].
  pose proof (cards_Permutation fmt js js' Hp) as Hc.
  destruct (cards fmt js), (cards fmt js'); cbn in Hc; try tauto. constructor.
Qed.

Lemma fetch_after_event
      (fmt : option Json -> jsstring) (now : Z) (v : Text) (st : Store) :
  fetchPastSessionsLocal fmt (keys_of (setItem (log_key now) v st))
                         (setItem (log_key now) v st)
  = fetchPastSessionsLocal fmt (keys_of st) st.
Proof.
  unfold fetchPastSessionsLocal.
  set (key := log_key now).
  assert (Hkeys : sessionKeys (keys_of (setItem key v st)) = sessionKeys (keys_of st)).
  { unfold sessionKeys. rewrite keys_of_setItem.
    destruct (existsb _ _); [reflexivity|].
    apply filter_app_tail, log_key_not_status. }
  rewrite Hkeys.
  rewrite (parseSessions_ext (sessionKeys (keys_of st)) st (setItem key v st)); [reflexivity|].
  intros k Hk. apply getItem_setItem_other.
  unfold sessionKeys in Hk. apply filter_In in Hk as [_ Hk].
  apply startsWith_status_neq, Hk.
Qed.

(** X15.  Log entries never show up in the session history: whatever is
    stored and in whatever order the platform lists the keys,
    [fetchPastSessionsLocal] answers the same cards before and after a
    [logEventLocal], whether the write succeeds or not; with the keys
    listed in the order of writing the two answers are equal. *)
Theorem log_events_not_in_history
        (toLocaleString : option Json -> jsstring)
        (p : Platform) (iso event : jsstring) (data : Json) (st : Store)
        (keys keys' : list jsstring) :
  getAllKeys st keys ->
  getAllKeys (logEventLocal p iso event data st) keys' ->
  Permutation
    (fetchPastSessionsLocal toLocaleString keys' (logEventLocal p iso event data st))
    (fetchPastSessionsLocal toLocaleString keys st) /\
  fetchPastSessionsLocal toLocaleString (keys_of (logEventLocal p iso event data st))
                         (logEventLocal p iso event data st)
  = fetchPastSessionsLocal toLocaleString (keys_of st) st.
Proof.
  unfold getAllKeys. intros Hk Hk'.
  assert (Heq : fetchPastSessionsLocal toLocaleString
                  (keys_of (logEventLocal p iso event data st))
                  (logEventLocal p iso event data st)
                = fetchPastSessionsLocal toLocaleString (keys_of st) st).
  { unfold logEventLocal. destruct (setItem_ok p); [| reflexivity].
    apply fetch_after_event. }
  split; [| exact Heq].
  rewrite (fetch_Permutation toLocaleString _ _ _ Hk'), Heq.
  symmetry. apply fetch_Permutation, Hk.
Qed.

Lemma log_events_not_in_history_witness :
  Permutation
    (fetchPastSessionsLocal plain_locale
       [log_key 100000; status_key 100000]
       (logEventLocal phone new_year dev42 JNull
                      (snd (logSessionLocal phone new_year dev42 []))))
    (fetchPastSessionsLocal plain_locale [status_key 100000]
                            (snd (logSessionLocal phone new_year dev42 []))) /\
  fetchPastSessionsLocal plain_locale
    (keys_of (logEventLocal phone new_year dev42 JNull
                            (snd (logSessionLocal phone new_year dev42 []))))
    (logEventLocal phone new_year dev42 JNull
                   (snd (logSessionLocal phone new_year dev42 [])))
  = fetchPastSessionsLocal plain_locale
      (keys_of (snd (logSessionLocal phone new_year dev42 [])))
      (snd (logSessionLocal phone new_year dev42 [])).
Proof.
  apply (log_events_not_in_history plain_locale phone new_year dev42 JNull
           (snd (logSessionLocal phone new_year dev42 []))
           [status_key 100000] [log_key 100000; status_key 100000]).
  - apply Permutation_refl.
  - apply perm_swap.
Defined.

Lemma parseSessions_app (a b : list jsstring) (st : Store) :
  parseSessions (a ++ b) st
  = match parseSessions a st, parseSessions b st with
    | Some x, Some y => Some (x ++ y)%list
    | _, _ => None
    end.
Proof.
  induction a as [| key rest IH]; cbn [app parseSessions].
  - destruct (parseSessions b st); reflexivity.
  - destruct (getItem key st) as [[j | [| c t]] |]; try exact IH.
    + rewrite IH. destruct (parseSessions rest st), (parseSessions b st); reflexivity.
    + reflexivity.
Qed.

Lemma cards_app (fmt : option Json -> jsstring) (a b : list Json) :
  cards fmt (a ++ b)
  = match cards fmt a, cards fmt b with
    | Some x, Some y => Some (x ++ y)%list
    | _, _ => None
    end.
Proof.
  induction a as [| j rest IH]; cbn [app cards].
  - destruct (cards fmt b); reflexivity.
  - rewrite IH. destruct (card fmt j), (cards fmt rest), (cards fmt b); reflexivity.
Qed.

(** A healthy store is read without an exception. *)
Lemma parseSessions_healthy (st : Store) (keys : list jsstring) :
  healthy st ->
  Forall (fun key => startsWith status_prefix key = true) keys ->
  exists js, parseSessions keys st = Some js /\ Forall (fun j => j <> JNull) js.
Proof.
  intros Hst. unfold healthy in Hst. rewrite Forall_forall in Hst.
  induction 1 as [| key rest Hkey _ (js & Hjs & Hnn)].
  - exists []. split; [reflexivity | constructor].
  - cbn [parseSessions]. destruct (getItem key st) as [v |] eqn:Hget.
    + apply getItem_In in Hget. specialize (Hst _ Hget Hkey). cbn in Hst.
      destruct v as [j | t].
      * rewrite Hjs. exists (j :: js). split; [reflexivity|].
        constructor; [| exact Hnn]. intros ->. exact Hst.
      * subst t. exists js. split; assumption.
    + exists js. split; assumption.
Qed.

Lemma cards_total (fmt : option Json -> jsstring) (js : list Json) :
  Forall (fun j => j <> JNull) js -> exists cs, cards fmt js = Some cs.
Proof.
  induction 1 as [| j rest Hj _ (cs & Hcs)].
  - exists []. reflexivity.
  - cbn [cards]. rewrite Hcs. destruct j; [congruence | |]; eexists; reflexivity.
Qed.

Lemma sessionKeys_status (keys : list jsstring) :
  Forall (fun key => startsWith status_prefix key = true) (sessionKeys keys).
Proof.
  apply Forall_forall. intros k Hk. apply filter_In in Hk. apply Hk.
Qed.

Lemma existsb_fresh (key : jsstring) (keys : list jsstring) :
  ~ In key keys -> existsb (fun k => jsstring_eqb k key) keys = false.
Proof.
  intros H. induction keys as [| k rest IH]; [reflexivity|].
  cbn. rewrite IH by (intros Hin; apply H; right; exact Hin).
  assert (E : jsstring_eqb k key = false)
    by (apply jsstring_eqb_neq; intros ->; apply H; left; reflexivity).
  rewrite E. reflexivity.
Qed.

Lemma card_session (fmt : option Json -> jsstring) (clientName iso : jsstring) :
  card fmt (session_payload clientName iso) = Some (session_card fmt clientName iso).
Proof. destruct clientName; reflexivity. Qed.

Lemma healthy_setItem (key : jsstring) (j : Json) (st : Store) :
  j <> JNull -> healthy st -> healthy (setItem key (json j) st).
Proof.
  intros Hj. unfold healthy. induction 1 as [| [k v] rest Hkv Hrest IH]; cbn.
  - constructor; [| constructor]. intros _. cbn. destruct j; [congruence | exact I | exact I].
  - destruct (jsstring_eqb k key).
    + constructor; [| assumption]. intros _. cbn.
      destruct j; [congruence | exact I | exact I].
    + constructor; assumption.
Qed.

(** A session written under a key of its own adds one card at the end of
    the history. *)
Lemma fetch_after_fresh_log
      (fmt : option Json -> jsstring) (now : Z) (clientName iso : jsstring) (st : Store) :
  healthy st -> ~ In (status_key now) (keys_of st) ->
  fetchPastSessionsLocal fmt
    (keys_of (setItem (status_key now) (json (session_payload clientName iso)) st))
    (setItem (status_key now) (json (session_payload clientName iso)) st)
  = (fetchPastSessionsLocal fmt (keys_of st) st
     ++ [session_card fmt clientName iso])%list.
Proof.
  intros Hst Hfresh.
  set (key := status_key now). set (v := json (session_payload clientName iso)).
  unfold fetchPastSessionsLocal.
  assert (Hkeys : sessionKeys (keys_of (setItem key v st))
                  = (sessionKeys (keys_of st) ++ [key])%list).
  { unfold sessionKeys. rewrite keys_of_setItem, existsb_fresh by assumption.
    rewrite filter_app. cbn [filter]. unfold key. rewrite status_key_status. reflexivity. }
  rewrite Hkeys, parseSessions_app.
  rewrite (parseSessions_ext (sessionKeys (keys_of st)) st (setItem key v st)).
  2:{ intros k Hk. apply getItem_setItem_other. intros ->.
      apply Hfresh. unfold sessionKeys in Hk. apply filter_In in Hk. apply Hk. }
  destruct (parseSessions_healthy st _ Hst (sessionKeys_status (keys_of st)))
    as (js & Hjs & Hnn).
  destruct (cards_total fmt js Hnn) as (cs & Hcs).
  rewrite Hjs. cbn [parseSessions]. rewrite getItem_setItem_same.
  subst v. cbv iota beta.
  rewrite cards_app, Hcs. cbn [cards].
  rewrite card_session. reflexivity.
Qed.

Lemma digits_not_minus (d : Decimal.uint) (rest : jsstring) :
  digits d <> 45 :: rest.
Proof. destruct d; cbn; congruence. Qed.

Lemma digits_injective (d : Decimal.uint) :
  forall d', digits d = digits d' -> d = d'.
Proof.
  induction d as [| d IH | d IH | d IH | d IH | d IH | d IH | d IH | d IH | d IH | d IH];
    intros d' H; destruct d'; cbn in H; try discriminate H; try reflexivity;
    injection H as H; f_equal; apply IH; exact H.
Qed.

(** Different numbers are written differently. *)
Lemma Number_toString_injective (n m : Z) :
  Number_toString n = Number_toString m -> n = m.
Proof.
  unfold Number_toString. intros H.
  rewrite <- (DecimalZ.of_to n), <- (DecimalZ.of_to m).
  destruct (Z.to_int n) as [d | d], (Z.to_int m) as [d' | d'].
  - apply digits_injective in H. congruence.
  - exfalso. exact (digits_not_minus _ _ H).
  - exfalso. symmetry in H. exact (digits_not_minus _ _ H).
  - injection H as H. apply digits_injective in H. congruence.
Qed.

Lemma status_key_injective (n m : Z) : status_key n = status_key m -> n = m.
Proof.
  unfold status_key. intros H. apply app_inv_head in H.
  apply Number_toString_injective, H.
Qed.

Lemma log_all_history (fmt : option Json -> jsstring)
      (entries : list (Platform * jsstring * jsstring)) :
  forall st : Store,
    healthy st ->
    Forall (fun e => setItem_ok (fst (fst e)) = true) entries ->
    NoDup (map (fun e => Date_now (fst (fst e))) entries) ->
    Forall (fun e => ~ In (status_key (Date_now (fst (fst e)))) (keys_of st)) entries ->
    fetchPastSessionsLocal fmt (keys_of (log_all entries st)) (log_all entries st)
    = (fetchPastSessionsLocal fmt (keys_of st) st
       ++ map (fun e => session_card fmt (snd e) (snd (fst e))) entries)%list.
Proof.
  induction entries as [| [[p iso] name] rest IH]; intros st Hst Hok Hnd Hfresh.
  - cbn. rewrite app_nil_r. reflexivity.
  - inversion Hok as [| ? ? Hp Hrest]; subst. cbn [fst snd] in Hp.
    inversion Hnd as [| ? ? Hnotin Hnd']; subst. cbn [fst snd] in Hnotin.
    inversion Hfresh as [| ? ? Hf Hfresh']; subst. cbn [fst snd] in Hf.
    assert (Hstep : log_all ((p, iso, name) :: rest) st
                    = log_all rest (setItem (status_key (Date_now p))
                                            (json (session_payload name iso)) st)).
    { cbn [log_all fold_left fst snd]. unfold logSessionLocal at 2. rewrite Hp.
      reflexivity. }
    rewrite Hstep, IH.
    + rewrite fetch_after_fresh_log by assumption.
      rewrite <- app_assoc. reflexivity.
    + apply healthy_setItem; [discriminate | exact Hst].
    + exact Hrest.
    + exact Hnd'.
    + rewrite Forall_forall in Hfresh' |- *. intros e He Hin.
      rewrite keys_of_setItem, existsb_fresh in Hin by assumption.
      apply in_app_or in Hin as [Hin | [Hin | []]].
      * exact (Hfresh' e He Hin).
      * apply status_key_injective in Hin. apply Hnotin.
        rewrite Hin. apply (in_map (fun e => Date_now (fst (fst e)))), He.
Qed.

(** X16.  The session history is the list of the sessions logged.  When
    sessions are logged one after the other at different times
    ([Date.now()]), every write succeeding, into a store whose [status_]
    texts can all be read and which holds none of the new keys,
    [fetchPastSessionsLocal] answers the cards it answered before and one
    card per logged session: the client name (['Unknown Device'] for an
    empty name) and the formatted time.  This holds in whatever order the
    platform lists the keys; when it lists them in the order of writing,
    the new cards follow the old ones in the order of logging. *)
Theorem history_lists_logged_sessions
        (toLocaleString : option Json -> jsstring)
        (entries : list (Platform * jsstring * jsstring)) (st : Store)
        (keys keys' : list jsstring) :
  healthy st ->
  Forall (fun e => setItem_ok (fst (fst e)) = true) entries ->
  NoDup (map (fun e => Date_now (fst (fst e))) entries) ->
  Forall (fun e => ~ In (status_key (Date_now (fst (fst e)))) (keys_of st)) entries ->
  getAllKeys st keys -> getAllKeys (log_all entries st) keys' ->
  Permutation
    (fetchPastSessionsLocal toLocaleString keys' (log_all entries st))
    (fetchPastSessionsLocal toLocaleString keys st
     ++ map (fun e => session_card toLocaleString (snd e) (snd (fst e))) entries) /\
  fetchPastSessionsLocal toLocaleString (keys_of (log_all entries st)) (log_all entries st)
  = (fetchPastSessionsLocal toLocaleString (keys_of st) st
     ++ map (fun e => session_card toLocaleString (snd e) (snd (fst e))) entries)%list.
Proof.
  unfold getAllKeys. intros Hst Hok Hnd Hfresh Hk Hk'.
  pose proof (log_all_history toLocaleString entries st Hst Hok Hnd Hfresh) as Heq.
  split; [| exact Heq].
  rewrite (fetch_Permutation toLocaleString _ _ _ Hk'), Heq.
  apply Permutation_app_tail. symmetry. apply fetch_Permutation, Hk.
Qed.

Lemma history_lists_logged_sessions_witness :
  Permutation
    (fetchPastSessionsLocal plain_locale [status_key 100001; status_key 100000]
       (log_all [(phone, new_year, dev42); (phone_later, new_year, [])] []))
    (fetchPastSessionsLocal plain_locale [] []
     ++ map (fun e => session_card plain_locale (snd e) (snd (fst e)))
            [(phone, new_year, dev42); (phone_later, new_year, [])]) /\
  fetchPastSessionsLocal plain_locale
    (keys_of (log_all [(phone, new_year, dev42); (phone_later, new_year, [])] []))
    (log_all [(phone, new_year, dev42); (phone_later, new_year, [])] [])
  = (fetchPastSessionsLocal plain_locale (keys_of []) []
     ++ map (fun e => session_card plain_locale (snd e) (snd (fst e)))
            [(phone, new_year, dev42); (phone_later, new_year, [])])%list.
Proof.
  apply (history_lists_logged_sessions plain_locale
           [(phone, new_year, dev42); (phone_later, new_year, [])] []
           [] [status_key 100001; status_key 100000]).
  - constructor.
  - repeat constructor.
  - cbn. repeat constructor; cbn; intuition discriminate.
  - repeat constructor; cbn; tauto.
  - apply Permutation_refl.
  - apply perm_swap.
Defined.

Lemma parseSessions_throws (keys : list jsstring) (st : Store)
      (key : jsstring) (c : Z) (t : jsstring) :
  In key keys -> getItem key st = Some (malformed (c :: t)) ->
  parseSessions keys st = None.
Proof.
  intros Hin Hget. induction keys as [| k rest IH]; [contradiction|].
  cbn [parseSessions]. destruct Hin as [-> | Hin].
  - rewrite Hget. reflexivity.
  - rewrite (IH Hin). destruct (getItem k st) as [[j | [| c' t']] |]; reflexivity.
Qed.

(** X17.  One unreadable entry hides the whole history: when the text
    under some [status_] key that the platform lists is not empty and does
    not parse, [fetchPastSessionsLocal] answers the empty list, whatever
    else is stored. *)
Theorem unreadable_entry_hides_history
        (toLocaleString : option Json -> jsstring)
        (keys : list jsstring) (st : Store) (key t : jsstring) :
  In key keys -> startsWith status_prefix key = true ->
  getItem key st = Some (malformed t) -> t <> [] ->
  fetchPastSessionsLocal toLocaleString keys st = [].
Proof.
  intros Hin Hkey Hget Ht. destruct t as [| c t]; [congruence|].
  unfold fetchPastSessionsLocal.
  rewrite (parseSessions_throws (sessionKeys keys) st key c t); [reflexivity | | exact Hget].
  unfold sessionKeys. apply filter_In. split; assumption.
Qed.

Lemma unreadable_entry_hides_history_witness :
  fetchPastSessionsLocal plain_locale [status_key 100000; status_key 7]
    (setItem (status_key 7) (malformed [123])
             (snd (logSessionLocal phone new_year dev42 [])))
  = [].
Proof.
  apply (unreadable_entry_hides_history plain_locale _ _ (status_key 7) [123]).
  - right. left. reflexivity.
  - reflexivity.
  - reflexivity.
  - discriminate.
Defined.

(** X18.  The key of a session is the millisecond of its start: of two
    sessions logged within the same millisecond only the second is kept,
    the store being the one that the second write alone would have
    left. *)
Theorem same_millisecond_overwrites
        (p : Platform) (iso1 iso2 a b : jsstring) (st : Store) :
  snd (logSessionLocal p iso2 b (snd (logSessionLocal p iso1 a st)))
  = snd (logSessionLocal p iso2 b st).
Proof.
  unfold logSessionLocal. destruct (setItem_ok p); [| reflexivity].
  cbn [snd]. apply setItem_twice.
Qed.

Lemma parseDocs_In (keys : list jsstring) (st : Store) (key : jsstring) (j : Json) :
  In key keys -> getItem key st = Some (json j) ->
  forall docs, parseDocs keys st = Some docs -> In j docs.
Proof.
  intros Hin Hget. induction keys as [| k rest IH]; [contradiction|].
  intros docs. cbn [parseDocs]. destruct Hin as [-> | Hin].
  - rewrite Hget. destruct (parseDocs rest st); [| discriminate].
    intros [= <-]. left. reflexivity.
  - destruct (getItem k st) as [[j' | t] |]; try discriminate.
    + destruct (parseDocs rest st) as [js |]; [| discriminate].
      intros [= <-]. right. exact (IH Hin js eq_refl).
    + destruct (parseDocs rest st) as [js |]; [| discriminate].
      intros [= <-]. right. exact (IH Hin js eq_refl).
Qed.

Lemma parseSessions_In (keys : list jsstring) (st : Store) (key : jsstring) (j : Json) :
  In key keys -> getItem key st = Some (json j) ->
  forall js, parseSessions keys st = Some js -> In j js.
Proof.
  intros Hin Hget. induction keys as [| k rest IH]; [contradiction|].
  intros js. cbn [parseSessions]. destruct Hin as [-> | Hin].
  - rewrite Hget. destruct (parseSessions rest st); [| discriminate].
    intros [= <-]. left. reflexivity.
  - destruct (getItem k st) as [[j' | [| c t]] |]; try discriminate.
    + destruct (parseSessions rest st) as [js' |]; [| discriminate].
      intros [= <-]. right. exact (IH Hin js' eq_refl).
    + exact (IH Hin js).
    + exact (IH Hin js).
Qed.

Lemma cards_In (fmt : option Json -> jsstring) (js : list Json) (j : Json) :
  In j js -> forall cs, cards fmt js = Some cs ->
  exists c, card fmt j = Some c /\ In c cs.
Proof.
  induction js as [| j' rest IH]; [contradiction|].
  intros Hin cs. cbn [cards].
  destruct (card fmt j') as [c' |] eqn:Hc'; [| discriminate].
  destruct (cards fmt rest) as [cs' |]; [| discriminate].
  intros [= <-]. destruct Hin as [-> | Hin].
  - exists c'. split; [exact Hc' | left; reflexivity].
  - destruct (IH Hin cs' eq_refl) as (c & Hc & Hin'). exists c. split; [exact Hc | right; exact Hin'].
Qed.

(** X19.  [db.js] and the session history share the [status_] keys.  A
    document written by [db.status_checks.insertOne] (any value but
    [null]) into a store whose [status_] texts can all be read is shown by
    [fetchPastSessionsLocal] as a session card, and the payload of a
    session written by [logSessionLocal] is among the documents that
    [db.status_checks.find] returns, in whatever order the platform lists
    the keys. *)
Theorem db_shares_session_keys
        (toLocaleString : option Json -> jsstring)
        (p : Platform) (st : Store) :
  setItem_ok p = true -> healthy st ->
  (forall doc, doc <> JNull ->
     exists st' c,
       insertOne p doc st = Some st' /\ card toLocaleString doc = Some c /\
       forall keys, getAllKeys st' keys ->
                    In c (fetchPastSessionsLocal toLocaleString keys st')) /\
  (forall iso clientName keys docs,
     getAllKeys (snd (logSessionLocal p iso clientName st)) keys ->
     find keys (snd (logSessionLocal p iso clientName st)) = Some docs ->
     In (session_payload clientName iso) docs).
Proof.
  intros Hok Hst. split.
  - intros doc Hdoc. unfold insertOne. rewrite Hok.
    set (key := status_key (Date_now p)).
    set (st' := setItem key (json doc) st).
    assert (Hget : getItem key st' = Some (json doc)) by apply getItem_setItem_same.
    assert (Hst' : healthy st') by (apply healthy_setItem; assumption).
    assert (Hc : exists c, card toLocaleString doc = Some c)
      by (destruct doc; [congruence | |]; eexists; reflexivity).
    destruct Hc as [c Hc].
    exists st', c. split; [reflexivity|]. split; [exact Hc|].
    intros keys Hkeys. unfold getAllKeys in Hkeys.
    assert (Hkey : In key (sessionKeys keys)).
    { unfold sessionKeys. apply filter_In. split; [| reflexivity].
      apply (Permutation_in _ (Permutation_sym Hkeys)).
      exact (getItem_key _ _ _ Hget). }
    destruct (parseSessions_healthy st' (sessionKeys keys) Hst' (sessionKeys_status keys))
      as (js & Hjs & Hnn).
    destruct (cards_total toLocaleString js Hnn) as (cs & Hcs).
    pose proof (parseSessions_In _ _ _ _ Hkey Hget js Hjs) as Hin.
    destruct (cards_In toLocaleString js doc Hin cs Hcs) as (c' & Hc' & Hin').
    unfold fetchPastSessionsLocal. rewrite Hjs, Hcs. congruence.
  - intros iso clientName keys docs. unfold logSessionLocal. rewrite Hok. cbn [snd].
    set (key := status_key (Date_now p)).
    set (st' := setItem key (json (session_payload clientName iso)) st).
    intros Hkeys. unfold getAllKeys in Hkeys.
    assert (Hget : getItem key st' = Some (json (session_payload clientName iso)))
      by apply getItem_setItem_same.
    assert (Hkey : In key (sessionKeys keys)).
    { unfold sessionKeys. apply filter_In. split; [| reflexivity].
      apply (Permutation_in _ (Permutation_sym Hkeys)).
      exact (getItem_key _ _ _ Hget). }
    unfold find. apply (parseDocs_In _ _ _ _ Hkey Hget).
Qed.

Lemma db_shares_session_keys_witness :
  (forall doc, doc <> JNull ->
     exists st' c,
       insertOne phone doc [] = Some st' /\ card plain_locale doc = Some c /\
       forall keys, getAllKeys st' keys ->
                    In c (fetchPastSessionsLocal plain_locale keys st')) /\
  (forall iso clientName keys docs,
     getAllKeys (snd (logSessionLocal phone iso clientName [])) keys ->
     find keys (snd (logSessionLocal phone iso clientName [])) = Some docs ->
     In (session_payload clientName iso) docs).
Proof.
  apply (db_shares_session_keys plain_locale phone []).
  - reflexivity.
  - constructor.
Defined.

End LocalDatabase.

(** ** The IoT screen *)

Section IoTScreen.
Import JS Remote IoT.

Lemma toggle_toggle (i : jsstring) (d : Device) :
  fst (toggle i (fst (toggle i d))) = d.
Proof.
  unfold toggle. destruct (jsstring_eqb (id d) i) eqn:E; cbn [fst].
  - cbn [id with_status]. rewrite E. cbn [fst status with_status].
    rewrite negb_involutive. destruct d. reflexivity.
  - rewrite E. reflexivity.
Qed.

(** X20.  Switching a device twice gives back the screen as it was:
    every device has its former status, and nothing else has changed. *)
Theorem toggle_twice_restores (i : jsstring) (st : State) :
  fst (handleToggle i (fst (handleToggle i st))) = st.
Proof.
  unfold handleToggle. cbn [fst]. unfold setDevices.
  cbn [devices scenes showModal newSceneName newSceneDescription].
  rewrite map_map.
  replace (map (fun d => fst (toggle i (fst (toggle i d)))) (devices st))
    with (devices st).
  - destruct st. reflexivity.
  - rewrite <- (map_id (devices st)) at 1. apply map_ext. intros d.
    symmetry. apply toggle_toggle.
Qed.

Lemma toggle_other (i : jsstring) (ds : list Device) :
  ~ In i (map id ds) ->
  map (fun d => fst (toggle i d)) ds = ds /\
  flat_map (fun d => snd (toggle i d)) ds = [].
Proof.
  induction ds as [| d rest IH]; intros Hnot; [split; reflexivity|].
  assert (E : jsstring_eqb (id d) i = false).
  { unfold jsstring_eqb. destruct (list_eq_dec Z.eq_dec (id d) i) as [Heq |]; [| reflexivity].
    exfalso. apply Hnot. left. exact Heq. }
  assert (Ht : toggle i d = (d, [])) by (unfold toggle; rewrite E; reflexivity).
  cbn [map flat_map]. rewrite Ht. cbn [fst snd app].
  destruct IH as [IH1 IH2]; [intros H; apply Hnot; right; exact H|].
  rewrite IH1, IH2. split; reflexivity.
Qed.

Lemma toggle_one (i : jsstring) (ds : list Device) :
  NoDup (map id ds) ->
  match find (fun d => jsstring_eqb (id d) i) ds with
  | None =>
      map (fun d => fst (toggle i d)) ds = ds /\
      flat_map (fun d => snd (toggle i d)) ds = []
  | Some d =>
      flat_map (fun d => snd (toggle i d)) ds = [turned (name d) (negb (status d))] /\
      List.length (filter status (map (fun d => fst (toggle i d)) ds))
      = if status d then pred (List.length (filter status ds))
        else S (List.length (filter status ds))
  end.
Proof.
  induction ds as [| d rest IH]; intros Hnd; [split; reflexivity|].
  inversion Hnd as [| ? ? Hnot Hnd']; subst.
  cbn [find]. destruct (jsstring_eqb (id d) i) eqn:E.
  - assert (Hi : id d = i).
    { unfold jsstring_eqb in E. destruct (list_eq_dec Z.eq_dec (id d) i); congruence. }
    rewrite Hi in Hnot.
    destruct (toggle_other i rest Hnot) as [H1 H2].
    assert (Ht : toggle i d
                 = (with_status (negb (status d)) d, [turned (name d) (negb (status d))]))
      by (unfold toggle; rewrite E; reflexivity).
    cbn [map flat_map]. rewrite H1, H2, Ht. cbn [fst snd app].
    split; [reflexivity|].
    cbn [filter status with_status].
    destruct (status d); cbn [negb List.length]; reflexivity.
  - specialize (IH Hnd').
    assert (Ht : toggle i d = (d, [])) by (unfold toggle; rewrite E; reflexivity).
    cbn [map flat_map]. rewrite Ht. cbn [fst snd app].
    destruct (find (fun d0 => jsstring_eqb (id d0) i) rest) as [d' |] eqn:Hfind.
    + destruct IH as [IH1 IH2]. split; [exact IH1|].
      cbn [filter]. destruct (status d) eqn:Hs; cbn [List.length]; [| exact IH2].
      rewrite IH2. destruct (status d') eqn:Hs'; [| reflexivity].
      apply find_some in Hfind as [Hin _].
      assert (Hpos : In d' (filter status rest)) by (apply filter_In; split; assumption).
      destruct (filter status rest); [contradiction | reflexivity].
    + destruct IH as [IH1 IH2]. rewrite IH1. split; [reflexivity | exact IH2].
Qed.

Lemma toggle_keeps_ids (i : jsstring) (ds : list Device) :
  map id (map (fun d => fst (toggle i d)) ds) = map id ds /\
  map name (map (fun d => fst (toggle i d)) ds) = map name ds.
Proof.
  rewrite !map_map. split; apply map_ext; intros d; unfold toggle;
    destruct (jsstring_eqb (id d) i); reflexivity.
Qed.

Lemma dispatch_grows (e : Event) (st : State) :
  (exists added,
      scenes (fst (dispatch e st)) = (scenes st ++ added)%list /\ Forall named added) /\
  map id (devices (fst (dispatch e st))) = map id (devices st) /\
  map name (devices (fst (dispatch e st))) = map name (devices st).
Proof.
  destruct e; cbn [dispatch].
  - cbn [handleToggle fst setDevices scenes devices].
    split; [exists []; rewrite app_nil_r; split; [reflexivity | constructor]|].
    apply toggle_keeps_ids.
  - split; [exists []; rewrite app_nil_r; split; [reflexivity | constructor]|].
    split; reflexivity.
  - split; [exists []; rewrite app_nil_r; split; [reflexivity | constructor]|].
    split; reflexivity.
  - split; [exists []; rewrite app_nil_r; split; [reflexivity | constructor]|].
    split; reflexivity.
  - split; [exists []; rewrite app_nil_r; split; [reflexivity | constructor]|].
    split; reflexivity.
  - split; [exists []; rewrite app_nil_r; split; [reflexivity | constructor]|].
    split; reflexivity.
  - unfold handleCreateScene.
    destruct (newSceneName st) as [| c n] eqn:Hn;
      [split; [exists []; rewrite app_nil_r; split; [reflexivity | constructor]|];
       split; reflexivity|].
    destruct (newSceneDescription st) as [| c' n'] eqn:Hd;
      [split; [exists []; rewrite app_nil_r; split; [reflexivity | constructor]|];
       split; reflexivity|].
    cbn [truthy andb fst]. split; [| split; reflexivity].
    exists [mkScene (c :: n) (c' :: n')]. split; [reflexivity|].
    constructor; [| constructor]. split; discriminate.
Qed.

Lemma run_cons (e : Event) (rest : list Event) (st : State) :
  fst (run (e :: rest) st) = fst (run rest (fst (dispatch e st))).
Proof.
  cbn [run]. destruct (dispatch e st) as [st1 t1]. cbn [fst].
  destruct (run rest st1) as [st2 t2]. reflexivity.
Qed.

Lemma run_grows (evs : list Event) :
  forall st : State,
    (exists added,
        scenes (fst (run evs st)) = (scenes st ++ added)%list /\ Forall named added) /\
    map id (devices (fst (run evs st))) = map id (devices st) /\
    map name (devices (fst (run evs st))) = map name (devices st).
Proof.
  induction evs as [| e rest IH]; intros st.
  - split; [exists []; rewrite app_nil_r; split; [reflexivity | constructor]|].
    split; reflexivity.
  - rewrite run_cons.
    destruct (dispatch_grows e st) as ((a1 & Hs1 & Hn1) & Hi1 & Hm1).
    destruct (IH (fst (dispatch e st))) as ((a2 & Hs2 & Hn2) & Hi2 & Hm2).
    split; [| split; congruence].
    exists (a1 ++ a2)%list. split.
    + rewrite Hs2, Hs1, app_assoc. reflexivity.
    + apply Forall_app. split; assumption.
Qed.

Lemma initial_ids : NoDup (map id (devices initial)).
Proof.
  cbn. repeat constructor; cbn; intuition discriminate.
Qed.

(** X21.  On the screen as it is after the first render and whatever
    the user has done since, a switch acts on one device at most.  If no
    device has the id, nothing changes and nothing is said.  Otherwise one
    announcement is made, naming that device and its new status, and the
    number of active devices in the header goes down by one when the
    device was on and up by one when it was off. *)
Theorem toggle_counts (evs : list Event) (i : jsstring) :
  let st := fst (run evs initial) in
  match find (fun d => jsstring_eqb (id d) i) (devices st) with
  | None => handleToggle i st = (st, [])
  | Some d =>
      snd (handleToggle i st) = [turned (name d) (negb (status d))] /\
      activeCount (fst (handleToggle i st))
      = if status d then pred (activeCount st) else S (activeCount st)
  end.
Proof.
  cbv zeta. set (st := fst (run evs initial)).
  assert (Hnd : NoDup (map id (devices st))).
  { destruct (run_grows evs initial) as (_ & Hids & _).
    unfold st. rewrite Hids. exact initial_ids. }
  pose proof (toggle_one i (devices st) Hnd) as H.
  unfold handleToggle, activeCount, setDevices. cbn [fst snd devices].
  destruct (find (fun d => jsstring_eqb (id d) i) (devices st)).
  - exact H.
  - destruct H as [H1 H2]. rewrite H1, H2. destruct st. reflexivity.
Qed.

(** X22.  Nothing on the screen removes, reorders or renames.  Whatever
    the user does (switches, scenes, the modal and its two fields, the
    create button), the scenes there were are still there in the same
    order, followed by the scenes created since, each of which has a
    non-empty name and a non-empty description; and the devices are the
    same devices in the same order, by id and by name. *)
Theorem screen_only_grows (evs : list Event) (st : State) :
  (exists added,
      scenes (fst (run evs st)) = (scenes st ++ added)%list /\ Forall named added) /\
  map id (devices (fst (run evs st))) = map id (devices st) /\
  map name (devices (fst (run evs st))) = map name (devices st).
Proof. apply run_grows. Qed.

End IoTScreen.

(** ** The virtualization hub *)

Section Hub.
Import JS Remote VirtualizationHub.
Local Open Scope string_scope.

Lemma compatible_light (host : Q) (data : list Emulator) :
  Forall light (filter (compatible host) data).
Proof.
  apply Forall_forall. intros e He. apply filter_In in He as [_ He].
  unfold compatible in He. apply andb_true_iff in He as [He _].
  apply Qle_bool_iff in He. exact He.
Qed.

Lemma mark_light (v : jsstring) (l : list Emulator) :
  Forall light l ->
  Forall light (map (fun e => if jsstring_eqb (version e) v
                              then mark_downloading e else e) l).
Proof.
  induction 1 as [| e rest He _ IH]; cbn [map]; constructor; [| exact IH].
  destruct (jsstring_eqb (version e) v); exact He.
Qed.

Lemma dispatch_hub (e : Event) (st : State) :
  hostRam st = 6144%Q -> Forall light (emulators st) ->
  hostRam (fst (dispatch e st)) = 6144%Q /\
  Forall light (emulators (fst (dispatch e st))) /\
  ~ In (Alert "RAM Warning") (snd (dispatch e st)).
Proof.
  intros Hhost Hlight.
  assert (Hno : forall ok pf v,
             hostRam (fst (proceedDownload ok pf v st)) = 6144%Q /\
             Forall light (emulators (fst (proceedDownload ok pf v st))) /\
             ~ In (Alert "RAM Warning") (snd (proceedDownload ok pf v st))).
  { intros ok pf v. unfold proceedDownload. destruct ok; cbn [fst snd].
    - split; [exact Hhost|]. split; [apply mark_light, Hlight|].
      cbn. intuition discriminate.
    - split; [exact Hhost|]. split; [exact Hlight|]. cbn. intuition discriminate. }
  destruct e; cbn [dispatch].
  - destruct response as [data |]; cbn [fetchEmulators fst snd].
    + split; [exact Hhost|]. split; [apply compatible_light|]. cbn. intuition discriminate.
    + split; [exact Hhost|]. split; [exact Hlight|]. cbn. intuition discriminate.
  - cbn. split; [exact Hhost|]. split; [exact Hlight | tauto].
  - cbn. split; [exact Hhost|]. split; [exact Hlight | tauto].
  - cbn. split; [exact Hhost|]. split; [exact Hlight | tauto].
  - cbn. split; [exact Hhost|]. split; [exact Hlight | tauto].
  - unfold handleAddOS.
    destruct (negb (truthy (osName st)) || Qltb (ramAllocation st) 500); [| destruct ok];
      cbn [fst snd hostRam emulators].
    + split; [exact Hhost|]. split; [exact Hlight|]. cbn. intuition discriminate.
    + split; [exact Hhost|]. split; [exact Hlight|]. cbn. intuition discriminate.
    + split; [exact Hhost|]. split; [exact Hlight|]. cbn. intuition discriminate.
  - unfold handleDownloadEmulator. rewrite Hhost.
    change (Qltb 6144 6000) with false. cbv iota. apply Hno.
  - apply Hno.
Qed.

Lemma hub_run_cons (e : Event) (rest : list Event) (st : State) :
  run (e :: rest) st
  = (fst (run rest (fst (dispatch e st))),
     (snd (dispatch e st) ++ snd (run rest (fst (dispatch e st))))%list).
Proof.
  cbn [run]. destruct (dispatch e st) as [st1 t1]. cbn [fst snd].
  destruct (run rest st1) as [st2 t2]. reflexivity.
Qed.

Lemma run_hub (evs : list Event) :
  forall st : State,
    hostRam st = 6144%Q -> Forall light (emulators st) ->
    hostRam (fst (run evs st)) = 6144%Q /\
    Forall light (emulators (fst (run evs st))) /\
    ~ In (Alert "RAM Warning") (snd (run evs st)).
Proof.
  induction evs as [| e rest IH]; intros st Hhost Hlight.
  - cbn. split; [exact Hhost|]. split; [exact Hlight | tauto].
  - rewrite hub_run_cons. cbn [fst snd].
    destruct (dispatch_hub e st Hhost Hlight) as (H1 & H2 & H3).
    destruct (IH _ H1 H2) as (H4 & H5 & H6).
    split; [exact H4|]. split; [exact H5|].
    intros Hin. apply in_app_or in Hin. tauto.
Qed.

(** X23.  The hub lists light emulators only and never warns about RAM.
    From the first render on, whatever requests are answered and whatever
    the user does, [hostRam] stays at its initial 6144, every emulator in
    the list needs at most 4096 MB, every version that
    [getAvailableVersions] offers belongs to such an emulator of the
    platform asked for, and the "RAM Warning" of [handleDownloadEmulator]
    is never shown. *)
Theorem hub_lists_light_emulators (evs : list Event) (pf : EmulatorPlatform) :
  hostRam (fst (run evs initial)) = 6144%Q /\
  Forall light (emulators (fst (run evs initial))) /\
  (forall v, In v (getAvailableVersions pf (fst (run evs initial))) ->
             exists e, In e (emulators (fst (run evs initial))) /\
                       version e = v /\ platform e = pf /\ light e) /\
  ~ In (Alert "RAM Warning") (snd (run evs initial)).
Proof.
  destruct (run_hub evs initial eq_refl (Forall_nil _)) as (H1 & H2 & H3).
  split; [exact H1|]. split; [exact H2|]. split; [| exact H3].
  intros v Hv. unfold getAvailableVersions in Hv.
  apply in_map_iff in Hv as (e & Hver & He).
  apply filter_In in He as [He Hpf].
  exists e. split; [exact He|]. split; [exact Hver|].
  split; [destruct (platform e), pf; try reflexivity; discriminate Hpf|].
  rewrite Forall_forall in H2. exact (H2 e He).
Qed.

End Hub.

(** ** The diagnostics of the onboarding screen *)

(** Both sides are the same fraction. *)
Ltac fraction :=
  cbv [Qeq Qplus Qminus Qopp Qmult Qdiv Qinv inject_Z Qnum Qden];
  rewrite ?Pos2Z.inj_mul; ring.

Section Diagnostics.
Import JS Remote Handler Scenario Onboarding.

(** The estimated temperature at the two ends of [Math.random()]: 30 for
    0 and 38 for the largest double below 1, where the sum is rounded up to
    38.  Both pass the test. *)
Example thermal_extremes :
  thermalTemp (mkMeasurements None 0 0 0 None) = 30%float /\
  thermalTemp (mkMeasurements None 0 0 0x1.fffffffffffffp-1 None) = 38%float /\
  thermalPass (mkMeasurements None 0 0 0 None) = true /\
  thermalPass (mkMeasurements None 0 0 0x1.fffffffffffffp-1 None) = true.
Proof. repeat split. Qed.



Lemma cpuScore_value (m : Measurements) :
  cpuScore m = Z.max 0 ((6030 - 2 * benchDuration m) / 60).
Proof.
  unfold cpuScore, Math_round. f_equal.
  rewrite (Qfloor_comp _ ((6030 - 2 * benchDuration m) # 60)); [reflexivity | fraction].
Qed.

Lemma ramGB_value (m : Measurements) (bytes : Z) :
  totalBytes m = Some (inject_Z bytes) ->
  ramGB m = (inject_Z ((20 * bytes + 1073741824) / 2147483648) / 10)%Q.
Proof.
  intros H. unfold ramGB. rewrite H. unfold round1, Math_round.
  f_equal. f_equal. unfold GiB.
  rewrite (Qfloor_comp _ ((20 * bytes + 1073741824) # 2147483648)); [reflexivity | fraction].
Qed.

Lemma tenths_le (a k : Z) :
  Qle_bool (inject_Z a) (inject_Z k / 10) = (10 * a <=? k).
Proof.
  cbv [Qle_bool Qdiv Qmult Qinv inject_Z Qnum Qden].
  rewrite ?Pos2Z.inj_mul.
  apply eq_iff_eq_true. rewrite !Z.leb_le. lia.
Qed.

(** X25.  The two thresholds of the score, in the units measured.  The
    CPU test passes exactly when the benchmark loop took at most 1935 ms.
    The RAM test passes exactly when the device reports at least
    6 388 763 853 bytes (5.95 GiB): a device with 6 * 10^9 bytes fails
    it. *)
Theorem diagnostic_thresholds (m : Measurements) (bytes : Z) :
  (cpuPass m = true <-> benchDuration m <= 1935) /\
  (ramPass (mkMeasurements (Some (inject_Z bytes)) (benchDuration m)
                           (freeStorageGB m) (random m) (cpuNumber m)) = true
   <-> 6388763853 <= bytes).
Proof.
  split.
  - unfold cpuPass. rewrite cpuScore_value.
    rewrite Z.gtb_ltb, Z.ltb_lt.
    split; intros H.
    + assert (H' : 36 <= (6030 - 2 * benchDuration m) / 60) by lia.
      Z.div_mod_to_equations. lia.
    + assert (H' : 36 <= (6030 - 2 * benchDuration m) / 60)
        by (apply Z.div_le_lower_bound; lia).
      lia.
  - unfold ramPass.
    rewrite (ramGB_value (mkMeasurements (Some (inject_Z bytes)) (benchDuration m)
                                         (freeStorageGB m) (random m) (cpuNumber m))
                         bytes eq_refl).
    change 6%Q with (inject_Z 6). rewrite tenths_le, Z.leb_le.
    split; intros H.
    + Z.div_mod_to_equations. lia.
    + apply Z.div_le_lower_bound; lia.
Qed.

(** X26.  The RAM figure of the onboarding is measured in gigabytes, and
    [checkResources] compares it with 0.8.  On a device with at most
    6000 MB of RAM whose diagnostics were written by the onboarding run of
    a device reporting at least 912 680 551 bytes (0.85 GiB),
    [checkResources] answers "over the limit" whenever both device reads
    succeed, whatever the CPU load and the battery level are; a start
    request is then always refused with "Device overloaded". *)
Theorem onboarded_device_over_limit
        (p : Platform) (s : Remote) (m : Measurements)
        (bytes : Z) (totalRam battery : Q) :
  diagnostics s = Some (diagnostics_of m) ->
  totalBytes m = Some (inject_Z bytes) -> 912680551 <= bytes ->
  getTotalRamMb p = Some totalRam -> (totalRam <= 6000)%Q ->
  getBatteryLevelAsync p = Some battery ->
  value_of (checkResources p s) = true /\
  (isWebPlatform p = false -> isConnected s = false ->
   truthy (trim (deviceId s)) = true ->
   state_of (handleStartSession p s) = setErrorMessage "Device overloaded"%string s).
Proof.
  intros Hd Hm Hbytes Hram Hsmall Hbat.
  assert (Hover : value_of (checkResources p s) = true).
  { rewrite (checkResources_value p s totalRam battery Hram Hbat).
    assert (Hu : Qgtb (ramUsage totalRam s) 0.8 = true); [| rewrite Hu; reflexivity].
    unfold ramUsage.
    assert (Hnot : Qgtb totalRam 6000 = false).
    { unfold Qgtb. apply negb_false_iff, Qle_bool_iff, Hsmall. }
    rewrite Hnot, Hd. cbn [diagnostics_of ram].
    rewrite (ramGB_value m bytes Hm).
    unfold Qgtb. apply negb_true_iff.
    assert (H9 : 9 <= (20 * bytes + 1073741824) / 2147483648)
      by (apply Z.div_le_lower_bound; lia).
    destruct (Qle_bool _ _) eqn:E; [| reflexivity].
    apply Qle_bool_iff in E.
    cbv [Qle Qdiv Qmult Qinv inject_Z Qnum Qden] in E.
    rewrite ?Pos2Z.inj_mul in E. lia. }
  split; [exact Hover|].
  intros Hweb Hidle Hid.
  rewrite (handleStartSession_gate_closed p s Hweb Hidle Hid); [reflexivity|].
  rewrite Hover. reflexivity.
Qed.

Lemma onboarded_device_over_limit_witness :
  value_of (checkResources phone (setDiagnostics (Some (diagnostics_of four_gigabytes)) ready))
  = true /\
  (isWebPlatform phone = false ->
   isConnected (setDiagnostics (Some (diagnostics_of four_gigabytes)) ready) = false ->
   truthy (trim (deviceId (setDiagnostics (Some (diagnostics_of four_gigabytes)) ready)))
   = true ->
   state_of (handleStartSession phone
               (setDiagnostics (Some (diagnostics_of four_gigabytes)) ready))
   = setErrorMessage "Device overloaded"%string
       (setDiagnostics (Some (diagnostics_of four_gigabytes)) ready)).
Proof.
  apply (onboarded_device_over_limit phone
           (setDiagnostics (Some (diagnostics_of four_gigabytes)) ready)
           four_gigabytes 4294967296 4096 0.9).
  - reflexivity.
  - reflexivity.
  - lia.
  - reflexivity.
  - unfold Qle. cbn. lia.
  - reflexivity.
Defined.

End Diagnostics.

(** ** Nothing is sent on the signaling socket *)

Section SignalingTraffic.
Import JS Remote Handler Scenario Traffic.
Local Open Scope string_scope.

Lemma dispatch_sends_nothing (p : Platform) (e : Event) :
  socketless (fun a => is_SocketEmit a = false) (dispatch p e).
Proof. destruct e; cbn [dispatch]; socketless. Qed.

(** X27.  A component without a socket never gets one and never sends
    anything: whatever events follow, no [emit] on the socket is performed.
    The offer that a successful [startWebRTC] creates is not sent, nor are
    the local ICE candidates or the [ice_failed] notifications of the
    connection-state callbacks; the handlers that would send an answer or a
    [use_rustdesk] directive are not registered.  The first render is such
    a state. *)
Theorem no_signaling_traffic (evs : list (Platform * Event)) (s : Remote) :
  socketRef s = None ->
  socketRef (state_of (run evs s)) = None /\
  Forall (fun a => is_SocketEmit a = false) (trace_of (run evs s)).
Proof. apply (run_socketless _ dispatch_sends_nothing evs). Qed.

Lemma no_signaling_traffic_witness :
  socketRef (initial true 0) = None /\
  (In CreateOffer (trace_of (run emit_sites (initial true 0))) /\
   In (LogEvent "WebRTC offer sent") (trace_of (run emit_sites (initial true 0))) /\
   In (LogEvent "ICE candidate sent") (trace_of (run emit_sites (initial true 0))) /\
   In (LogEvent "ICE failed; fallback triggered")
      (trace_of (run emit_sites (initial true 0)))) /\
  socketRef (state_of (run emit_sites (initial true 0))) = None /\
  Forall (fun a => is_SocketEmit a = false) (trace_of (run emit_sites (initial true 0))).
Proof.
  split; [reflexivity|].
  split; [repeat split; vm_compute; tauto|].
  apply (no_signaling_traffic emit_sites (initial true 0)). reflexivity.
Defined.

End SignalingTraffic.
